(** * FreeFileSync: the comparison hierarchy of [base/file_hierarchy.h]

    A shallow embedding of the paired-item tree (FilePair, SymlinkPair,
    FolderPair below a BaseFolderPair), of its mutators and of the
    visitors, followed by the properties established about them. *)

From Stdlib Require Import ZArith List Bool Lia Ascii String.
From stdpp Require Import base option list gmap strings.
Import ListNotations.

Local Open Scope string_scope.
Local Open Scope list_scope.

(** ** Strings *)

(** [Zstring] and [Zstringc] are byte strings; only emptiness, equality
    and assignment are used by the header. *)
Definition Zstring  := string.
Definition Zstringc := string.

Definition Zempty (s : string) : bool :=
  match s with
  | EmptyString => true
  | String _ _ => false
  end.

(** ** Attributes *)

(** [time_t], [uint64_t] and [AFS::FingerPrint] values are only stored and
    copied, never computed with, so they are carried as integers. *)
Record FileAttributes := mkFileAttributes {
  modTime : Z;
  fileSize : Z;
  filePrint : Z;
  isFollowedSymlink : bool
}.

(** [FileAttributes()] *)
Definition FileAttributes_default : FileAttributes :=
  mkFileAttributes 0 0 0 false.

Record LinkAttributes := mkLinkAttributes { linkModTime : Z }.

Definition LinkAttributes_default : LinkAttributes := mkLinkAttributes 0.

Record FolderAttributes := mkFolderAttributes { dirIsFollowedSymlink : bool }.

Definition FolderAttributes_default : FolderAttributes := mkFolderAttributes false.

(** ** Sides *)

Inductive SelectSide := left_side | right_side.

Definition getOtherSide (side : SelectSide) : SelectSide :=
  match side with
  | left_side => right_side
  | right_side => left_side
  end.

Definition selectParam {T : Type} (side : SelectSide) (l r : T) : T :=
  match side with
  | left_side => l
  | right_side => r
  end.

(** ** Enumerations of [structures.h] *)

(** The eight categories are the labels of the switch in
    [FileSystemObject::flip]. *)
Inductive CompareFileResult :=
  | FILE_EQUAL
  | FILE_LEFT_SIDE_ONLY
  | FILE_RIGHT_SIDE_ONLY
  | FILE_LEFT_NEWER
  | FILE_RIGHT_NEWER
  | FILE_DIFFERENT_CONTENT
  | FILE_DIFFERENT_METADATA
  | FILE_CONFLICT.

Inductive SyncDirection := SyncDirection_left | SyncDirection_right | SyncDirection_none.

(** Modelled from the spec: the enumeration [SyncOperation] of
    [structures.h], which is not part of the sources; the header names only
    [SO_UNRESOLVED_CONFLICT].  The glossary lists Create, Update, Delete,
    Move, DoNothing and UnresolvedConflict; the operations that act on one
    side carry that side. *)
Inductive SyncOperation :=
  | SO_CREATE (target : SelectSide)
  | SO_UPDATE (target : SelectSide)
  | SO_DELETE (target : SelectSide)
  | SO_MOVE (target : SelectSide)
  | SO_DO_NOTHING
  | SO_UNRESOLVED_CONFLICT.

(** ** Object identities *)

(** [ObjectMgr::ObjectId] is the address of the object; [nullptr] is
    [None]. *)
Definition ObjectId := positive.

(** ** Paired items *)

(** The data members of [FileSystemObject].  The reference [parent_] is
    the position of the item in the tree. *)
Record FileSystemObject := mkFileSystemObject {
  cmpResultDescr_ : Zstringc;
  cmpResult_ : CompareFileResult;
  selectedForSync_ : bool;
  syncDir_ : SyncDirection;
  syncDirectionConflict_ : Zstringc;
  itemNameL_ : Zstring;
  itemNameR_ : Zstring
}.

Record FilePair := mkFilePair {
  fileObj : FileSystemObject;
  fileAttrL_ : FileAttributes;
  fileAttrR_ : FileAttributes;
  moveFileRef_ : option ObjectId
}.

Record SymlinkPair := mkSymlinkPair {
  linkObj : FileSystemObject;
  linkAttrL_ : LinkAttributes;
  linkAttrR_ : LinkAttributes
}.

(** A [FolderPair] is a [FileSystemObject] and a [ContainerObject]; the
    container owns the three child lists and caches both relative paths. *)
Inductive FolderPair :=
  | mkFolderPair (dirObj : FileSystemObject)
                 (dirAttrL_ dirAttrR_ : FolderAttributes)
                 (syncOpBuffered_ : option SyncOperation)
                 (dirCont : ContainerObject)
with ContainerObject :=
  | mkContainerObject (subFiles_ : list FilePair)
                      (subLinks_ : list SymlinkPair)
                      (subFolders_ : list FolderPair)
                      (relPathL_ relPathR_ : Zstring).

Definition dirObj (d : FolderPair) : FileSystemObject :=
  match d with mkFolderPair o _ _ _ _ => o end.
Definition dirAttrL_ (d : FolderPair) : FolderAttributes :=
  match d with mkFolderPair _ a _ _ _ => a end.
Definition dirAttrR_ (d : FolderPair) : FolderAttributes :=
  match d with mkFolderPair _ _ a _ _ => a end.
Definition syncOpBuffered_ (d : FolderPair) : option SyncOperation :=
  match d with mkFolderPair _ _ _ b _ => b end.
Definition dirCont (d : FolderPair) : ContainerObject :=
  match d with mkFolderPair _ _ _ _ c => c end.

Definition subFiles_ (c : ContainerObject) : list FilePair :=
  match c with mkContainerObject fs _ _ _ _ => fs end.
Definition subLinks_ (c : ContainerObject) : list SymlinkPair :=
  match c with mkContainerObject _ ls _ _ _ => ls end.
Definition subFolders_ (c : ContainerObject) : list FolderPair :=
  match c with mkContainerObject _ _ ds _ _ => ds end.
Definition relPathL_ (c : ContainerObject) : Zstring :=
  match c with mkContainerObject _ _ _ l _ => l end.
Definition relPathR_ (c : ContainerObject) : Zstring :=
  match c with mkContainerObject _ _ _ _ r => r end.

Inductive BaseFolderStatus :=
  | BaseFolderStatus_existing
  | BaseFolderStatus_notExisting
  | BaseFolderStatus_failure.

(** The three kinds of item behind a [FileSystemObject&]. *)
Inductive FSObject :=
  | IsFile (f : FilePair)
  | IsSymlink (l : SymlinkPair)
  | IsFolder (d : FolderPair).

Definition fsObj (e : FSObject) : FileSystemObject :=
  match e with
  | IsFile f => fileObj f
  | IsSymlink l => linkObj l
  | IsFolder d => dirObj d
  end.

(** ** Queries of [FileSystemObject] *)

Definition isEmpty (side : SelectSide) (o : FileSystemObject) : bool :=
  Zempty (selectParam side (itemNameL_ o) (itemNameR_ o)).

Definition isPairEmpty (o : FileSystemObject) : bool :=
  isEmpty left_side o && isEmpty right_side o.

Definition getItemName (side : SelectSide) (o : FileSystemObject) : Zstring :=
  let itemName := selectParam side (itemNameL_ o) (itemNameR_ o) in
  if negb (Zempty itemName) then itemName
  else selectParam (getOtherSide side) (itemNameL_ o) (itemNameR_ o).

Definition getItemNameAny (o : FileSystemObject) : Zstring :=
  getItemName left_side o.

Definition getCategory (o : FileSystemObject) : CompareFileResult := cmpResult_ o.
Definition getSyncDir (o : FileSystemObject) : SyncDirection := syncDir_ o.
Definition isActive (o : FileSystemObject) : bool := selectedForSync_ o.

(** ** Mutators of [FileSystemObject]: the member writes

    Each definition below performs the assignments of the member function
    of the same name.  The trailing call of [notifySyncCfgChanged] is not a
    write to the object itself (except for a folder, see
    [FolderPair_notifySyncCfgChanged]); it is accounted for where the object
    sits in its tree, see [Container_applyAt]. *)

(** The constructor: [selectedForSync_ = true], [syncDir_ = none], no
    conflict, no category description. *)
Definition FileSystemObject_new (itemNameL itemNameR : Zstring)
    (defaultCmpResult : CompareFileResult) : FileSystemObject :=
  mkFileSystemObject "" defaultCmpResult true SyncDirection_none ""
    itemNameL
    (if String.eqb itemNameL itemNameR then itemNameL else itemNameR).

Definition setSyncDir (newDir : SyncDirection) (o : FileSystemObject) : FileSystemObject :=
  mkFileSystemObject (cmpResultDescr_ o) (cmpResult_ o) (selectedForSync_ o)
    newDir "" (itemNameL_ o) (itemNameR_ o).

Definition setSyncDirConflict (description : Zstringc) (o : FileSystemObject) : FileSystemObject :=
  mkFileSystemObject (cmpResultDescr_ o) (cmpResult_ o) (selectedForSync_ o)
    SyncDirection_none description (itemNameL_ o) (itemNameR_ o).

Definition setActive (active : bool) (o : FileSystemObject) : FileSystemObject :=
  mkFileSystemObject (cmpResultDescr_ o) (cmpResult_ o) active
    (syncDir_ o) (syncDirectionConflict_ o) (itemNameL_ o) (itemNameR_ o).

(** [setCategory<res>] exists for four categories only; the other four
    specialisations are deleted. *)
Inductive SettableCategory :=
  | Set_FILE_EQUAL
  | Set_FILE_DIFFERENT_CONTENT
  | Set_FILE_LEFT_NEWER
  | Set_FILE_RIGHT_NEWER.

Definition categoryOf (res : SettableCategory) : CompareFileResult :=
  match res with
  | Set_FILE_EQUAL => FILE_EQUAL
  | Set_FILE_DIFFERENT_CONTENT => FILE_DIFFERENT_CONTENT
  | Set_FILE_LEFT_NEWER => FILE_LEFT_NEWER
  | Set_FILE_RIGHT_NEWER => FILE_RIGHT_NEWER
  end.

Definition withCategory (res : CompareFileResult) (descr : Zstringc)
    (o : FileSystemObject) : FileSystemObject :=
  mkFileSystemObject descr res (selectedForSync_ o)
    (syncDir_ o) (syncDirectionConflict_ o) (itemNameL_ o) (itemNameR_ o).

Definition setCategory (res : SettableCategory) (o : FileSystemObject) : FileSystemObject :=
  withCategory (categoryOf res) (cmpResultDescr_ o) o.

Definition setCategoryConflict (description : Zstringc) (o : FileSystemObject) : FileSystemObject :=
  withCategory FILE_CONFLICT description o.

Definition setCategoryDiffMetadata (description : Zstringc) (o : FileSystemObject) : FileSystemObject :=
  withCategory FILE_DIFFERENT_METADATA description o.

(** The switch of [FileSystemObject::flip]. *)
Definition flipCategory (c : CompareFileResult) : CompareFileResult :=
  match c with
  | FILE_LEFT_SIDE_ONLY => FILE_RIGHT_SIDE_ONLY
  | FILE_RIGHT_SIDE_ONLY => FILE_LEFT_SIDE_ONLY
  | FILE_LEFT_NEWER => FILE_RIGHT_NEWER
  | FILE_RIGHT_NEWER => FILE_LEFT_NEWER
  | FILE_DIFFERENT_CONTENT => FILE_DIFFERENT_CONTENT
  | FILE_EQUAL => FILE_EQUAL
  | FILE_DIFFERENT_METADATA => FILE_DIFFERENT_METADATA
  | FILE_CONFLICT => FILE_CONFLICT
  end.

Definition FileSystemObject_flip (o : FileSystemObject) : FileSystemObject :=
  mkFileSystemObject (cmpResultDescr_ o) (flipCategory (cmpResult_ o))
    (selectedForSync_ o) (syncDir_ o) (syncDirectionConflict_ o)
    (itemNameR_ o) (itemNameL_ o).

(** The first two statements of [removeObject<side>]: the category is
    computed from the other side before the name is cleared. *)
Definition removeObject_names (side : SelectSide) (o : FileSystemObject) : FileSystemObject :=
  match side with
  | left_side =>
      mkFileSystemObject (cmpResultDescr_ o)
        (if isEmpty right_side o then FILE_EQUAL else FILE_RIGHT_SIDE_ONLY)
        (selectedForSync_ o) (syncDir_ o) (syncDirectionConflict_ o)
        "" (itemNameR_ o)
  | right_side =>
      mkFileSystemObject (cmpResultDescr_ o)
        (if isEmpty left_side o then FILE_EQUAL else FILE_LEFT_SIDE_ONLY)
        (selectedForSync_ o) (syncDir_ o) (syncDirectionConflict_ o)
        (itemNameL_ o) ""
  end.

(** The writes of [removeObject<side>] to the [FileSystemObject] part:
    category and name, then [setSyncDir(SyncDirection::none)]. *)
Definition FileSystemObject_removeObject (side : SelectSide) (o : FileSystemObject)
    : FileSystemObject :=
  setSyncDir SyncDirection_none (removeObject_names side o).

(** The writes of [setSynced]:
    [itemNameR_ = itemNameL_ = itemName; cmpResult_ = FILE_EQUAL;
     setSyncDir(SyncDirection::none)]. *)
Definition FileSystemObject_setSynced (itemName : Zstring) (o : FileSystemObject)
    : FileSystemObject :=
  setSyncDir SyncDirection_none
    (mkFileSystemObject (cmpResultDescr_ o) FILE_EQUAL (selectedForSync_ o)
       (syncDir_ o) (syncDirectionConflict_ o) itemName itemName).

(** ** FilePair and SymlinkPair *)

Definition FilePair_new (itemNameL : Zstring) (attrL : FileAttributes)
    (defaultCmpResult : CompareFileResult)
    (itemNameR : Zstring) (attrR : FileAttributes) : FilePair :=
  mkFilePair (FileSystemObject_new itemNameL itemNameR defaultCmpResult) attrL attrR None.

Definition SymlinkPair_new (itemNameL : Zstring) (attrL : LinkAttributes)
    (defaultCmpResult : CompareFileResult)
    (itemNameR : Zstring) (attrR : LinkAttributes) : SymlinkPair :=
  mkSymlinkPair (FileSystemObject_new itemNameL itemNameR defaultCmpResult) attrL attrR.

Definition FilePair_mapObj (g : FileSystemObject -> FileSystemObject) (f : FilePair) : FilePair :=
  mkFilePair (g (fileObj f)) (fileAttrL_ f) (fileAttrR_ f) (moveFileRef_ f).

Definition SymlinkPair_mapObj (g : FileSystemObject -> FileSystemObject) (l : SymlinkPair)
    : SymlinkPair :=
  mkSymlinkPair (g (linkObj l)) (linkAttrL_ l) (linkAttrR_ l).

Definition getAttributes (side : SelectSide) (f : FilePair) : FileAttributes :=
  selectParam side (fileAttrL_ f) (fileAttrR_ f).
Definition getLastWriteTime (side : SelectSide) (f : FilePair) : Z :=
  modTime (getAttributes side f).
Definition getFileSize (side : SelectSide) (f : FilePair) : Z :=
  fileSize (getAttributes side f).
Definition getFilePrint (side : SelectSide) (f : FilePair) : Z :=
  filePrint (getAttributes side f).
Definition FilePair_isFollowedSymlink (side : SelectSide) (f : FilePair) : bool :=
  isFollowedSymlink (getAttributes side f).
Definition getMoveRef (f : FilePair) : option ObjectId := moveFileRef_ f.

Definition setMoveRef (refId : option ObjectId) (f : FilePair) : FilePair :=
  mkFilePair (fileObj f) (fileAttrL_ f) (fileAttrR_ f) refId.

Definition clearFilePrint (side : SelectSide) (f : FilePair) : FilePair :=
  let clr a := mkFileAttributes (modTime a) (fileSize a) 0 (isFollowedSymlink a) in
  match side with
  | left_side => mkFilePair (fileObj f) (clr (fileAttrL_ f)) (fileAttrR_ f) (moveFileRef_ f)
  | right_side => mkFilePair (fileObj f) (fileAttrL_ f) (clr (fileAttrR_ f)) (moveFileRef_ f)
  end.

(** [FilePair::flip]: the base class version, then the attributes. *)
Definition FilePair_flip (f : FilePair) : FilePair :=
  mkFilePair (FileSystemObject_flip (fileObj f)) (fileAttrR_ f) (fileAttrL_ f) (moveFileRef_ f).

Definition SymlinkPair_flip (l : SymlinkPair) : SymlinkPair :=
  mkSymlinkPair (FileSystemObject_flip (linkObj l)) (linkAttrR_ l) (linkAttrL_ l).

(** [removeObject<side>] on a file: [removeObjectL/R] resets the
    attributes of that side; [propagateChangedItemName] does nothing since
    a file is no [ContainerObject]. *)
Definition FilePair_removeObject (side : SelectSide) (f : FilePair) : FilePair :=
  match side with
  | left_side =>
      mkFilePair (FileSystemObject_removeObject left_side (fileObj f))
        FileAttributes_default (fileAttrR_ f) (moveFileRef_ f)
  | right_side =>
      mkFilePair (FileSystemObject_removeObject right_side (fileObj f))
        (fileAttrL_ f) FileAttributes_default (moveFileRef_ f)
  end.

Definition SymlinkPair_removeObject (side : SelectSide) (l : SymlinkPair) : SymlinkPair :=
  match side with
  | left_side =>
      mkSymlinkPair (FileSystemObject_removeObject left_side (linkObj l))
        LinkAttributes_default (linkAttrR_ l)
  | right_side =>
      mkSymlinkPair (FileSystemObject_removeObject right_side (linkObj l))
        (linkAttrL_ l) LinkAttributes_default
  end.

(** [FilePair::setSyncedTo<sideTrg>]: both attribute records are built
    from the one [fileSize]; the write times arrive as [int64_t] and are
    stored as [time_t]. *)
Definition FilePair_setSyncedTo (sideTrg : SelectSide) (itemName : Zstring)
    (fileSize : Z) (lastWriteTimeTrg lastWriteTimeSrc : Z)
    (filePrintTrg filePrintSrc : Z) (isSymlinkTrg isSymlinkSrc : bool)
    (f : FilePair) : FilePair :=
  let trg := mkFileAttributes lastWriteTimeTrg fileSize filePrintTrg isSymlinkTrg in
  let src := mkFileAttributes lastWriteTimeSrc fileSize filePrintSrc isSymlinkSrc in
  mkFilePair (FileSystemObject_setSynced itemName (fileObj f))
    (selectParam sideTrg trg src) (selectParam sideTrg src trg) None.

Definition SymlinkPair_setSyncedTo (sideTrg : SelectSide) (itemName : Zstring)
    (lastWriteTimeTrg lastWriteTimeSrc : Z) (l : SymlinkPair) : SymlinkPair :=
  let trg := mkLinkAttributes lastWriteTimeTrg in
  let src := mkLinkAttributes lastWriteTimeSrc in
  mkSymlinkPair (FileSystemObject_setSynced itemName (linkObj l))
    (selectParam sideTrg trg src) (selectParam sideTrg src trg).

(** ** The raw content of one side: [FolderContainer] *)

(** Three maps keyed by the raw item name.  An entry of [folders] is the
    pair of the folder's attributes and its own content. *)
Inductive FolderContainer :=
  | mkFolderContainer (files : gmap string FileAttributes)
                      (symlinks : gmap string LinkAttributes)
                      (folders : gmap string FolderEntry)
with FolderEntry :=
  | mkFolderEntry (first : FolderAttributes) (second : FolderContainer).

Definition files (fc : FolderContainer) : gmap string FileAttributes :=
  match fc with mkFolderContainer f _ _ => f end.
Definition symlinks (fc : FolderContainer) : gmap string LinkAttributes :=
  match fc with mkFolderContainer _ l _ => l end.
Definition folders (fc : FolderContainer) : gmap string FolderEntry :=
  match fc with mkFolderContainer _ _ d => d end.
Definition first (p : FolderEntry) : FolderAttributes :=
  match p with mkFolderEntry a _ => a end.
Definition second (p : FolderEntry) : FolderContainer :=
  match p with mkFolderEntry _ c => c end.

(** [FolderContainer()] *)
Definition FolderContainer_default : FolderContainer := mkFolderContainer ∅ ∅ ∅.

(** [addFile]: [emplace] inserts when the name is new; otherwise the entry
    found is overwritten. *)
Definition FolderContainer_addFile (itemName : Zstring) (attr : FileAttributes)
    (fc : FolderContainer) : FolderContainer :=
  match files fc !! itemName with
  | None => mkFolderContainer (<[itemName := attr]> (files fc)) (symlinks fc) (folders fc)
  | Some _ =>
      mkFolderContainer (alter (fun _ => attr) itemName (files fc)) (symlinks fc) (folders fc)
  end.

Definition FolderContainer_addLink (itemName : Zstring) (attr : LinkAttributes)
    (fc : FolderContainer) : FolderContainer :=
  match symlinks fc !! itemName with
  | None => mkFolderContainer (files fc) (<[itemName := attr]> (symlinks fc)) (folders fc)
  | Some _ =>
      mkFolderContainer (files fc) (alter (fun _ => attr) itemName (symlinks fc)) (folders fc)
  end.

(** [addFolder]: [folders[itemName]] is the entry found or a new default
    one; its attributes are set and its content is returned. *)
Definition FolderContainer_addFolder (itemName : Zstring) (attr : FolderAttributes)
    (fc : FolderContainer) : FolderContainer * FolderContainer :=
  let p := default (mkFolderEntry FolderAttributes_default FolderContainer_default)
             (folders fc !! itemName) in
  (mkFolderContainer (files fc) (symlinks fc)
     (<[itemName := mkFolderEntry attr (second p)]> (folders fc)),
   second p).

(** ** FolderPair, ContainerObject and BaseFolderPair *)

(** [FolderPair::notifySyncCfgChanged] drops the buffered operation.  Its
    two further calls hand the notification to the parent (see
    [Container_applyAt]) and to [ContainerObject::notifySyncCfgChanged],
    whose body is empty. *)
Definition FolderPair_notifySyncCfgChanged (d : FolderPair) : FolderPair :=
  mkFolderPair (dirObj d) (dirAttrL_ d) (dirAttrR_ d) None (dirCont d).

(** [FolderPair::flip] calls [ContainerObject::flip], then
    [FileSystemObject::flip], then swaps the attributes.
    [FileSystemObject::flip] ends with [notifySyncCfgChanged], a virtual
    call that reaches the override of [FolderPair]: the buffer is empty
    afterwards. *)
Fixpoint FolderPair_flip (d : FolderPair) : FolderPair :=
  match d with
  | mkFolderPair o aL aR _ c =>
      mkFolderPair (FileSystemObject_flip o) aR aL None (ContainerObject_flip c)
  end
with ContainerObject_flip (c : ContainerObject) : ContainerObject :=
  match c with
  | mkContainerObject fs ls ds rL rR =>
      mkContainerObject (map FilePair_flip fs) (map SymlinkPair_flip ls)
                        (map FolderPair_flip ds) rR rL
  end.

(** The members of [BaseFolderPair].  [AbstractPath], [FilterRef] and
    [CompareVariant] are declared in other headers; the last four members
    are [const]. *)
Record BaseFolderPair (AbstractPath FilterRef CompareVariant : Type) := mkBaseFolderPair {
  baseCont : ContainerObject;
  filter_ : FilterRef;
  cmpVar_ : CompareVariant;
  fileTimeTolerance_ : Z;
  ignoreTimeShiftMinutes_ : list Z;
  folderStatusLeft_ : BaseFolderStatus;
  folderStatusRight_ : BaseFolderStatus;
  folderPathLeft_ : AbstractPath;
  folderPathRight_ : AbstractPath
}.

Arguments mkBaseFolderPair {AbstractPath FilterRef CompareVariant}.
Arguments baseCont {AbstractPath FilterRef CompareVariant}.
Arguments filter_ {AbstractPath FilterRef CompareVariant}.
Arguments cmpVar_ {AbstractPath FilterRef CompareVariant}.
Arguments fileTimeTolerance_ {AbstractPath FilterRef CompareVariant}.
Arguments ignoreTimeShiftMinutes_ {AbstractPath FilterRef CompareVariant}.
Arguments folderStatusLeft_ {AbstractPath FilterRef CompareVariant}.
Arguments folderStatusRight_ {AbstractPath FilterRef CompareVariant}.
Arguments folderPathLeft_ {AbstractPath FilterRef CompareVariant}.
Arguments folderPathRight_ {AbstractPath FilterRef CompareVariant}.

Section BaseFolder.
Context {AbstractPath FilterRef CompareVariant : Type}.
Local Abbreviation Base := (BaseFolderPair AbstractPath FilterRef CompareVariant).

(** The constructor: both relative paths of the root are empty and it has
    no children yet. *)
Definition BaseFolderPair_new (folderPathLeft : AbstractPath) (folderStatusLeft : BaseFolderStatus)
    (folderPathRight : AbstractPath) (folderStatusRight : BaseFolderStatus)
    (filter : FilterRef) (cmpVar : CompareVariant) (fileTimeTolerance : Z)
    (ignoreTimeShiftMinutes : list Z) : Base :=
  mkBaseFolderPair (mkContainerObject [] [] [] "" "") filter cmpVar fileTimeTolerance
    ignoreTimeShiftMinutes folderStatusLeft folderStatusRight folderPathLeft folderPathRight.

Definition getFolderStatus (side : SelectSide) (b : Base) : BaseFolderStatus :=
  selectParam side (folderStatusLeft_ b) (folderStatusRight_ b).

Definition getAbstractPath (side : SelectSide) (b : Base) : AbstractPath :=
  selectParam side (folderPathLeft_ b) (folderPathRight_ b).

Definition withBaseCont (c : ContainerObject) (b : Base) : Base :=
  mkBaseFolderPair c (filter_ b) (cmpVar_ b) (fileTimeTolerance_ b)
    (ignoreTimeShiftMinutes_ b) (folderStatusLeft_ b) (folderStatusRight_ b)
    (folderPathLeft_ b) (folderPathRight_ b).

(** [BaseFolderPair::flip]. *)
Definition BaseFolderPair_flip (b : Base) : Base :=
  mkBaseFolderPair (ContainerObject_flip (baseCont b)) (filter_ b) (cmpVar_ b)
    (fileTimeTolerance_ b) (ignoreTimeShiftMinutes_ b)
    (folderStatusRight_ b) (folderStatusLeft_ b)
    (folderPathRight_ b) (folderPathLeft_ b).
End BaseFolder.

Definition getRelativePath (side : SelectSide) (c : ContainerObject) : Zstring :=
  selectParam side (relPathL_ c) (relPathR_ c).

Definition dirIsFollowedSymlinkOn (side : SelectSide) (d : FolderPair) : bool :=
  dirIsFollowedSymlink (selectParam side (dirAttrL_ d) (dirAttrR_ d)).

(** ** Enumerating a subtree *)

(** Every item below a container, each folder followed by its own items. *)
Fixpoint FolderPair_items (d : FolderPair) : list FSObject :=
  IsFolder d :: ContainerObject_items (dirCont d)
with ContainerObject_items (c : ContainerObject) : list FSObject :=
  match c with
  | mkContainerObject fs ls ds _ _ =>
      map IsFile fs ++ map IsSymlink ls ++ flat_map FolderPair_items ds
  end.

(** ** Induction on folders *)

(** The generated principles see neither the list of sub-folders nor the
    container; this one does both. *)
Section FolderPair_induction.
Variable P : FolderPair -> Prop.
Variable Q : ContainerObject -> Prop.
Hypothesis P_folder : forall o aL aR buf c, Q c -> P (mkFolderPair o aL aR buf c).
Hypothesis Q_container :
  forall fs ls ds rL rR, Forall P ds -> Q (mkContainerObject fs ls ds rL rR).

Fixpoint FolderPair_tree_ind (d : FolderPair) : P d :=
  match d with
  | mkFolderPair o aL aR buf c => P_folder o aL aR buf c (ContainerObject_tree_ind c)
  end
with ContainerObject_tree_ind (c : ContainerObject) : Q c :=
  match c with
  | mkContainerObject fs ls ds rL rR =>
      Q_container fs ls ds rL rR
        ((fix all (l : list FolderPair) : Forall P l :=
            match l with
            | [] => List.Forall_nil P
            | d :: l' => @List.Forall_cons _ P d l' (FolderPair_tree_ind d) (all l')
            end) ds)
  end.
End FolderPair_induction.

(** The kind of an item. *)
Inductive ItemKind := KindFile | KindSymlink | KindFolder.

Definition kindOf (e : FSObject) : ItemKind :=
  match e with
  | IsFile _ => KindFile
  | IsSymlink _ => KindSymlink
  | IsFolder _ => KindFolder
  end.

Definition FSObject_items (e : FSObject) : list FSObject :=
  match e with
  | IsFolder d => FolderPair_items d
  | _ => [e]
  end.

(** A tree with every buffered folder operation dropped, and nothing else
    changed. *)
Fixpoint FolderPair_unbuffered (d : FolderPair) : FolderPair :=
  match d with
  | mkFolderPair o aL aR _ c => mkFolderPair o aL aR None (ContainerObject_unbuffered c)
  end
with ContainerObject_unbuffered (c : ContainerObject) : ContainerObject :=
  match c with
  | mkContainerObject fs ls ds rL rR =>
      mkContainerObject fs ls (map FolderPair_unbuffered ds) rL rR
  end.

Definition BaseFolderPair_unbuffered {AbstractPath FilterRef CompareVariant : Type}
    (b : BaseFolderPair AbstractPath FilterRef CompareVariant)
    : BaseFolderPair AbstractPath FilterRef CompareVariant :=
  withBaseCont (ContainerObject_unbuffered (baseCont b)) b.

(** What the flip of the category is said to be: the two one-sided and the
    two newer categories change sides, the other four stay. *)
Definition categoryMirrored (before after : CompareFileResult) : Prop :=
  match before with
  | FILE_LEFT_SIDE_ONLY => after = FILE_RIGHT_SIDE_ONLY
  | FILE_RIGHT_SIDE_ONLY => after = FILE_LEFT_SIDE_ONLY
  | FILE_LEFT_NEWER => after = FILE_RIGHT_NEWER
  | FILE_RIGHT_NEWER => after = FILE_LEFT_NEWER
  | FILE_EQUAL => after = FILE_EQUAL
  | FILE_DIFFERENT_CONTENT => after = FILE_DIFFERENT_CONTENT
  | FILE_DIFFERENT_METADATA => after = FILE_DIFFERENT_METADATA
  | FILE_CONFLICT => after = FILE_CONFLICT
  end.

(** An item [x'] that is the item [x] with its sides exchanged: names,
    attributes and, for a folder, the cached relative paths are swapped, the
    category is mirrored, and the direction, the conflict and the active
    flag are as before. *)
Definition sidesExchanged (x x' : FSObject) : Prop :=
  itemNameL_ (fsObj x') = itemNameR_ (fsObj x)
  /\ itemNameR_ (fsObj x') = itemNameL_ (fsObj x)
  /\ categoryMirrored (getCategory (fsObj x)) (getCategory (fsObj x'))
  /\ getSyncDir (fsObj x') = getSyncDir (fsObj x)
  /\ syncDirectionConflict_ (fsObj x') = syncDirectionConflict_ (fsObj x)
  /\ isActive (fsObj x') = isActive (fsObj x)
  /\ match x, x' with
     | IsFile f, IsFile f' =>
         forall side, getAttributes side f' = getAttributes (getOtherSide side) f
     | IsSymlink l, IsSymlink l' =>
         linkAttrL_ l' = linkAttrR_ l /\ linkAttrR_ l' = linkAttrL_ l
     | IsFolder d, IsFolder d' =>
         dirAttrL_ d' = dirAttrR_ d /\ dirAttrR_ d' = dirAttrL_ d
         /\ forall side,
             getRelativePath side (dirCont d') = getRelativePath (getOtherSide side) (dirCont d)
     | _, _ => False
     end.

(** ** Visitors *)

Section Visitors.
(** The callbacks are arbitrary.  An item is handed to a callback as a
    value, and what the callback does is what it does to the state [St] of
    the client of the traversal: a log, a counter, a report. *)
Context {St : Type}.

(** [FSObjectVisitor]: one [visit] overload per kind of item. *)
Record FSObjectVisitor := mkFSObjectVisitor {
  visitFile : FilePair -> St -> St;
  visitSymlink : SymlinkPair -> St -> St;
  visitFolder : FolderPair -> St -> St
}.

(** [accept] of the three classes: [visitor.visit( *this )]. *)
Definition accept (fsObj : FSObject) (visitor : FSObjectVisitor) : St -> St :=
  match fsObj with
  | IsFile f => visitFile visitor f
  | IsSymlink l => visitSymlink visitor l
  | IsFolder d => visitFolder visitor d
  end.

Variable onFolder : FolderPair -> St -> St.
Variable onFile : FilePair -> St -> St.
Variable onSymlink : SymlinkPair -> St -> St.

Definition FSObjectLambdaVisitor : FSObjectVisitor :=
  mkFSObjectVisitor onFile onSymlink onFolder.

Definition visitFSObject (fsObj : FSObject) : St -> St :=
  accept fsObj FSObjectLambdaVisitor.

(** [impl::RecursiveObjectVisitor::execute]: three loops in sequence. *)
Fixpoint execute (hierObj : ContainerObject) (s : St) : St :=
  match hierObj with
  | mkContainerObject fs ls ds _ _ =>
      let s1 := fold_left (fun s file => onFile file s) fs s in
      let s2 := fold_left (fun s symlink => onSymlink symlink s) ls s1 in
      fold_left (fun s subFolder => execute (dirCont subFolder) (onFolder subFolder s)) ds s2
  end.

(** [visitFSObjectRecursively(ContainerObject&, ...)]. *)
Definition visitFSObjectRecursively (hierObj : ContainerObject) : St -> St :=
  execute hierObj.
End Visitors.

(** [visitFSObjectRecursively(FileSystemObject&, ...)]: a single dispatch
    whose folder callback calls [onFolder] and then walks the folder. *)
Definition visitFSObjectRecursivelyFrom {St : Type}
    (onFolder : FolderPair -> St -> St) (onFile : FilePair -> St -> St)
    (onSymlink : SymlinkPair -> St -> St) (fsObj : FSObject) : St -> St :=
  visitFSObject
    (fun folder s => execute onFolder onFile onSymlink (dirCont folder) (onFolder folder s))
    onFile onSymlink fsObj.

(** ** The registry of live objects: [ObjectMgr] *)

(** [activeObjects_] is a set of addresses shared by all objects.  The
    constructor inserts [this], the destructor erases it. *)
Definition ObjectMgr_ctor (this : ObjectId) (activeObjects : gset ObjectId) : gset ObjectId :=
  {[ this ]} ∪ activeObjects.

Definition ObjectMgr_dtor (this : ObjectId) (activeObjects : gset ObjectId) : gset ObjectId :=
  activeObjects ∖ {[ this ]}.

(** [retrieve]: the id itself if the set contains it, else [nullptr]. *)
Definition retrieve (id : ObjectId) (activeObjects : gset ObjectId) : option ObjectId :=
  if decide (id ∈ activeObjects) then Some id else None.

(** The life of the registry: objects are constructed and destroyed. *)
Inductive ObjectEvent :=
  | Constructed (id : ObjectId)
  | Destroyed (id : ObjectId).

Definition ObjectMgr_step (activeObjects : gset ObjectId) (ev : ObjectEvent) : gset ObjectId :=
  match ev with
  | Constructed id => ObjectMgr_ctor id activeObjects
  | Destroyed id => ObjectMgr_dtor id activeObjects
  end.

(** The set after a history of events, starting from the empty set. *)
Definition ObjectMgr_run (history : list ObjectEvent) : gset ObjectId :=
  fold_left ObjectMgr_step history ∅.

(** An id is live after a history when the last event that concerns it is
    a construction. *)
Fixpoint liveAfter (id : ObjectId) (history : list ObjectEvent) (live : bool) : bool :=
  match history with
  | [] => live
  | Constructed id' :: rest => liveAfter id rest (if decide (id' = id) then true else live)
  | Destroyed id' :: rest => liveAfter id rest (if decide (id' = id) then false else live)
  end.

(** ** Relative paths, removal and the state after synchronisation *)

Section Hierarchy.
(** [appendPath] comes from the string library, which is not part of this
    header; the development holds for every such function. *)
Variable appendPath : Zstring -> Zstring -> Zstring.

(** [ContainerObject::updateRelPathsRecursion<side>(fsAlias)] on a folder
    whose parent has the relative path [parentRelPath] on [side]. *)
Fixpoint updateRelPathsRecursion (side : SelectSide) (parentRelPath : Zstring)
    (d : FolderPair) : FolderPair :=
  match d with
  | mkFolderPair o aL aR buf (mkContainerObject fs ls ds rL rR) =>
      let relPath := appendPath parentRelPath (getItemName side o) in
      let ds' := map (updateRelPathsRecursion side relPath) ds in
      match side with
      | left_side => mkFolderPair o aL aR buf (mkContainerObject fs ls ds' relPath rR)
      | right_side => mkFolderPair o aL aR buf (mkContainerObject fs ls ds' rL relPath)
      end
  end.

(** [propagateChangedItemName<side>(itemNameOld)] on a folder; for files
    and symlinks the [dynamic_cast] fails and nothing happens. *)
Definition propagateChangedItemName (side : SelectSide) (parentRelL parentRelR : Zstring)
    (itemNameOld : Zstring) (d : FolderPair) : FolderPair :=
  if Zempty (itemNameL_ (dirObj d)) && Zempty (itemNameR_ (dirObj d)) then d
  else if negb (String.eqb itemNameOld (getItemName side (dirObj d)))
       then updateRelPathsRecursion side (selectParam side parentRelL parentRelR) d
       else d.

(** [removeObject<side>] on a folder below a container with the relative
    paths [parentRelL], [parentRelR]: category and name, then
    [FolderPair::removeObjectL/R] (the children, then the attributes),
    then [setSyncDir(none)], whose notification empties the buffer, then
    the relative paths. *)
Fixpoint FolderPair_removeObject (side : SelectSide) (parentRelL parentRelR : Zstring)
    (d : FolderPair) : FolderPair :=
  match d with
  | mkFolderPair o aL aR _ (mkContainerObject fs ls ds rL rR) =>
      let itemNameOld := getItemName side o in
      let c' := mkContainerObject
                  (map (FilePair_removeObject side) fs)
                  (map (SymlinkPair_removeObject side) ls)
                  (map (FolderPair_removeObject side rL rR) ds) rL rR in
      let d' := match side with
                | left_side =>
                    mkFolderPair (FileSystemObject_removeObject left_side o)
                      FolderAttributes_default aR None c'
                | right_side =>
                    mkFolderPair (FileSystemObject_removeObject right_side o)
                      aL FolderAttributes_default None c'
                end in
      propagateChangedItemName side parentRelL parentRelR itemNameOld d'
  end.

(** [FileSystemObject::setSynced] on a folder. *)
Definition FolderPair_setSynced (itemName : Zstring) (parentRelL parentRelR : Zstring)
    (d : FolderPair) : FolderPair :=
  let itemNameOldL := getItemName left_side (dirObj d) in
  let itemNameOldR := getItemName right_side (dirObj d) in
  let d1 := mkFolderPair (FileSystemObject_setSynced itemName (dirObj d))
              (dirAttrL_ d) (dirAttrR_ d) None (dirCont d) in
  let d2 := propagateChangedItemName left_side parentRelL parentRelR itemNameOldL d1 in
  propagateChangedItemName right_side parentRelL parentRelR itemNameOldR d2.

(** [FolderPair::setSyncedTo<sideTrg>]. *)
Definition FolderPair_setSyncedTo (sideTrg : SelectSide) (itemName : Zstring)
    (isSymlinkTrg isSymlinkSrc : bool) (parentRelL parentRelR : Zstring)
    (d : FolderPair) : FolderPair :=
  let trg := mkFolderAttributes isSymlinkTrg in
  let src := mkFolderAttributes isSymlinkSrc in
  FolderPair_setSynced itemName parentRelL parentRelR
    (mkFolderPair (dirObj d) (selectParam sideTrg trg src) (selectParam sideTrg src trg)
       (syncOpBuffered_ d) (dirCont d)).

(** The constructor of [FolderPair] below a container with the relative
    paths [parentRelL], [parentRelR].  The test on [c_str()] in the
    constructor of [ContainerObject] only decides whether the two strings
    share their buffer; the value of [relPathR_] is the same in both
    branches. *)
Definition FolderPair_new (itemNameL : Zstring) (attrL : FolderAttributes)
    (defaultCmpResult : CompareFileResult)
    (itemNameR : Zstring) (attrR : FolderAttributes)
    (parentRelL parentRelR : Zstring) : FolderPair :=
  let o := FileSystemObject_new itemNameL itemNameR defaultCmpResult in
  mkFolderPair o attrL attrR None
    (mkContainerObject [] [] []
       (appendPath parentRelL (getItemName left_side o))
       (appendPath parentRelR (getItemName right_side o))).

(** ** Adding children: [addFile], [addLink], [addFolder]

    [CompareDirResult] and [CompareSymlinkResult] are the subsets of
    [CompareFileResult] used for folders and symlinks; the constructors
    cast them to [CompareFileResult]. *)

Inductive NewItem :=
  | NewFile (itemNameL : Zstring) (left : FileAttributes) (defaultCmpResult : CompareFileResult)
            (itemNameR : Zstring) (right : FileAttributes)
  | NewFileOn (side : SelectSide) (itemName : Zstring) (attr : FileAttributes)
  | NewLink (itemNameL : Zstring) (left : LinkAttributes) (defaultCmpResult : CompareFileResult)
            (itemNameR : Zstring) (right : LinkAttributes)
  | NewLinkOn (side : SelectSide) (itemName : Zstring) (attr : LinkAttributes)
  | NewFolder (itemNameL : Zstring) (left : FolderAttributes) (defaultCmpResult : CompareFileResult)
              (itemNameR : Zstring) (right : FolderAttributes)
  | NewFolderOn (side : SelectSide) (itemName : Zstring) (attr : FolderAttributes).

(** [emplace_back] on the list of the matching kind. *)
Definition ContainerObject_add (item : NewItem) (c : ContainerObject) : ContainerObject :=
  match c with
  | mkContainerObject fs ls ds rL rR =>
      match item with
      | NewFile nL aL cat nR aR =>
          mkContainerObject (fs ++ [FilePair_new nL aL cat nR aR]) ls ds rL rR
      | NewFileOn left_side n a =>
          mkContainerObject
            (fs ++ [FilePair_new n a FILE_LEFT_SIDE_ONLY "" FileAttributes_default]) ls ds rL rR
      | NewFileOn right_side n a =>
          mkContainerObject
            (fs ++ [FilePair_new "" FileAttributes_default FILE_RIGHT_SIDE_ONLY n a]) ls ds rL rR
      | NewLink nL aL cat nR aR =>
          mkContainerObject fs (ls ++ [SymlinkPair_new nL aL cat nR aR]) ds rL rR
      | NewLinkOn left_side n a =>
          mkContainerObject fs
            (ls ++ [SymlinkPair_new n a FILE_LEFT_SIDE_ONLY "" LinkAttributes_default]) ds rL rR
      | NewLinkOn right_side n a =>
          mkContainerObject fs
            (ls ++ [SymlinkPair_new "" LinkAttributes_default FILE_RIGHT_SIDE_ONLY n a]) ds rL rR
      | NewFolder nL aL cat nR aR =>
          mkContainerObject fs ls (ds ++ [FolderPair_new nL aL cat nR aR rL rR]) rL rR
      | NewFolderOn left_side n a =>
          mkContainerObject fs ls
            (ds ++ [FolderPair_new n a FILE_LEFT_SIDE_ONLY "" FolderAttributes_default rL rR])
            rL rR
      | NewFolderOn right_side n a =>
          mkContainerObject fs ls
            (ds ++ [FolderPair_new "" FolderAttributes_default FILE_RIGHT_SIDE_ONLY n a rL rR])
            rL rR
      end
  end.

(** ** Calls on an item somewhere in a tree *)

(** The public mutators of an item. *)
Inductive ItemCall :=
  | CallSetSyncDir (newDir : SyncDirection)
  | CallSetSyncDirConflict (description : Zstringc)
  | CallSetActive (active : bool)
  | CallRemoveObject (side : SelectSide)
  | CallSetCategory (res : SettableCategory)
  | CallSetCategoryConflict (description : Zstringc)
  | CallSetCategoryDiffMetadata (description : Zstringc)
  | CallSetMoveRef (refId : option ObjectId)
  | CallClearFilePrint (side : SelectSide)
  | CallFileSetSyncedTo (sideTrg : SelectSide) (itemName : Zstring) (fileSize : Z)
      (lastWriteTimeTrg lastWriteTimeSrc filePrintTrg filePrintSrc : Z)
      (isSymlinkTrg isSymlinkSrc : bool)
  | CallLinkSetSyncedTo (sideTrg : SelectSide) (itemName : Zstring)
      (lastWriteTimeTrg lastWriteTimeSrc : Z)
  | CallFolderSetSyncedTo (sideTrg : SelectSide) (itemName : Zstring)
      (isSymlinkTrg isSymlinkSrc : bool).

(** Whether the member function reaches [notifySyncCfgChanged]: the
    category setters, [setMoveRef] and [clearFilePrint] do not. *)
Definition notifies (call : ItemCall) : bool :=
  match call with
  | CallSetCategory _ | CallSetCategoryConflict _ | CallSetCategoryDiffMetadata _
  | CallSetMoveRef _ | CallClearFilePrint _ => false
  | _ => true
  end.

(** A call on a file; [None] where the class has no such member. *)
Definition FilePair_call (call : ItemCall) (f : FilePair) : option FilePair :=
  match call with
  | CallSetSyncDir newDir => Some (FilePair_mapObj (setSyncDir newDir) f)
  | CallSetSyncDirConflict description => Some (FilePair_mapObj (setSyncDirConflict description) f)
  | CallSetActive active => Some (FilePair_mapObj (setActive active) f)
  | CallRemoveObject side => Some (FilePair_removeObject side f)
  | CallSetCategory res => Some (FilePair_mapObj (setCategory res) f)
  | CallSetCategoryConflict description => Some (FilePair_mapObj (setCategoryConflict description) f)
  | CallSetCategoryDiffMetadata description =>
      Some (FilePair_mapObj (setCategoryDiffMetadata description) f)
  | CallSetMoveRef refId => Some (setMoveRef refId f)
  | CallClearFilePrint side => Some (clearFilePrint side f)
  | CallFileSetSyncedTo sideTrg itemName size tT tS pT pS lT lS =>
      Some (FilePair_setSyncedTo sideTrg itemName size tT tS pT pS lT lS f)
  | CallLinkSetSyncedTo _ _ _ _ | CallFolderSetSyncedTo _ _ _ _ => None
  end.

Definition SymlinkPair_call (call : ItemCall) (l : SymlinkPair) : option SymlinkPair :=
  match call with
  | CallSetSyncDir newDir => Some (SymlinkPair_mapObj (setSyncDir newDir) l)
  | CallSetSyncDirConflict description =>
      Some (SymlinkPair_mapObj (setSyncDirConflict description) l)
  | CallSetActive active => Some (SymlinkPair_mapObj (setActive active) l)
  | CallRemoveObject side => Some (SymlinkPair_removeObject side l)
  | CallSetCategory res => Some (SymlinkPair_mapObj (setCategory res) l)
  | CallSetCategoryConflict description =>
      Some (SymlinkPair_mapObj (setCategoryConflict description) l)
  | CallSetCategoryDiffMetadata description =>
      Some (SymlinkPair_mapObj (setCategoryDiffMetadata description) l)
  | CallLinkSetSyncedTo sideTrg itemName tT tS =>
      Some (SymlinkPair_setSyncedTo sideTrg itemName tT tS l)
  | CallSetMoveRef _ | CallClearFilePrint _
  | CallFileSetSyncedTo _ _ _ _ _ _ _ _ _ | CallFolderSetSyncedTo _ _ _ _ => None
  end.

Definition FolderPair_mapObj (g : FileSystemObject -> FileSystemObject) (d : FolderPair)
    : FolderPair :=
  mkFolderPair (g (dirObj d)) (dirAttrL_ d) (dirAttrR_ d) (syncOpBuffered_ d) (dirCont d).

(** A call on a folder below a container with the relative paths
    [parentRelL], [parentRelR].  The three setters end with
    [notifySyncCfgChanged], which for a folder is the override of
    [FolderPair]. *)
Definition FolderPair_call (call : ItemCall) (parentRelL parentRelR : Zstring)
    (d : FolderPair) : option FolderPair :=
  match call with
  | CallSetSyncDir newDir =>
      Some (FolderPair_notifySyncCfgChanged (FolderPair_mapObj (setSyncDir newDir) d))
  | CallSetSyncDirConflict description =>
      Some (FolderPair_notifySyncCfgChanged (FolderPair_mapObj (setSyncDirConflict description) d))
  | CallSetActive active =>
      Some (FolderPair_notifySyncCfgChanged (FolderPair_mapObj (setActive active) d))
  | CallRemoveObject side => Some (FolderPair_removeObject side parentRelL parentRelR d)
  | CallSetCategory res => Some (FolderPair_mapObj (setCategory res) d)
  | CallSetCategoryConflict description =>
      Some (FolderPair_mapObj (setCategoryConflict description) d)
  | CallSetCategoryDiffMetadata description =>
      Some (FolderPair_mapObj (setCategoryDiffMetadata description) d)
  | CallFolderSetSyncedTo sideTrg itemName lT lS =>
      Some (FolderPair_setSyncedTo sideTrg itemName lT lS parentRelL parentRelR d)
  | CallSetMoveRef _ | CallClearFilePrint _
  | CallFileSetSyncedTo _ _ _ _ _ _ _ _ _ | CallLinkSetSyncedTo _ _ _ _ => None
  end.

(** A child of a container, by its position in one of the three lists. *)
Inductive ChildRef :=
  | FileAt (i : nat)
  | LinkAt (i : nat)
  | FolderAt (i : nat).

Definition withSubFiles (fs : list FilePair) (c : ContainerObject) : ContainerObject :=
  mkContainerObject fs (subLinks_ c) (subFolders_ c) (relPathL_ c) (relPathR_ c).
Definition withSubLinks (ls : list SymlinkPair) (c : ContainerObject) : ContainerObject :=
  mkContainerObject (subFiles_ c) ls (subFolders_ c) (relPathL_ c) (relPathR_ c).
Definition withSubFolders (ds : list FolderPair) (c : ContainerObject) : ContainerObject :=
  mkContainerObject (subFiles_ c) (subLinks_ c) ds (relPathL_ c) (relPathR_ c).

(** A folder on the way from the root to a changed item, with its new
    contents [c'].  The item's [notifySyncCfgChanged] calls
    [parent().notifySyncCfgChanged()]; when the parent is a folder this is
    [FolderPair::notifySyncCfgChanged], which empties the buffer and calls
    its own parent in turn. *)
Definition enclosing (notified : bool) (d : FolderPair) (c' : ContainerObject) : FolderPair :=
  mkFolderPair (dirObj d) (dirAttrL_ d) (dirAttrR_ d)
    (if notified then None else syncOpBuffered_ d) c'.

(** [call] on the child [target] of the container reached from [c] through
    the sub-folders [path]; [None] if there is no such item. *)
Fixpoint Container_applyAt (call : ItemCall) (path : list nat) (target : ChildRef)
    (c : ContainerObject) : option ContainerObject :=
  match path with
  | [] =>
      match target with
      | FileAt i =>
          f ← subFiles_ c !! i;
          f' ← FilePair_call call f;
          Some (withSubFiles (<[i := f']> (subFiles_ c)) c)
      | LinkAt i =>
          l ← subLinks_ c !! i;
          l' ← SymlinkPair_call call l;
          Some (withSubLinks (<[i := l']> (subLinks_ c)) c)
      | FolderAt i =>
          d ← subFolders_ c !! i;
          d' ← FolderPair_call call (relPathL_ c) (relPathR_ c) d;
          Some (withSubFolders (<[i := d']> (subFolders_ c)) c)
      end
  | i :: path' =>
      d ← subFolders_ c !! i;
      c' ← Container_applyAt call path' target (dirCont d);
      Some (withSubFolders (<[i := enclosing (notifies call) d c']> (subFolders_ c)) c)
  end.

(** A new child in the container reached from [c] through [path].  The
    constructor of [FileSystemObject] calls
    [parent_.notifySyncCfgChanged()]. *)
Fixpoint Container_addAt (item : NewItem) (path : list nat) (c : ContainerObject)
    : option ContainerObject :=
  match path with
  | [] => Some (ContainerObject_add item c)
  | i :: path' =>
      d ← subFolders_ c !! i;
      c' ← Container_addAt item path' (dirCont d);
      Some (withSubFolders (<[i := enclosing true d c']> (subFolders_ c)) c)
  end.



(** The folders passed on the way down [path]. *)
Fixpoint foldersAlong (path : list nat) (c : ContainerObject) : list FolderPair :=
  match path with
  | [] => []
  | i :: path' =>
      match subFolders_ c !! i with
      | Some d => d :: foldersAlong path' (dirCont d)
      | None => []
      end
  end.

(** ** The states a comparison tree goes through *)

Context {AbstractPath FilterRef CompareVariant : Type}.
Local Abbreviation Base := (BaseFolderPair AbstractPath FilterRef CompareVariant).

(** One public operation on the tree of a base folder: a call on an item,
    a new item, or [BaseFolderPair::flip]. *)
Inductive BaseStep : Base -> Base -> Prop :=
  | StepCall (call : ItemCall) (path : list nat) (target : ChildRef) (b : Base) c' :
      Container_applyAt call path target (baseCont b) = Some c' ->
      BaseStep b (withBaseCont c' b)
  | StepAdd (item : NewItem) (path : list nat) (b : Base) c' :
      Container_addAt item path (baseCont b) = Some c' ->
      BaseStep b (withBaseCont c' b)
  | StepFlip (b : Base) :
      BaseStep b (BaseFolderPair_flip b).

(** The trees that arise from a freshly constructed base folder. *)
Inductive Reachable : Base -> Prop :=
  | ReachNew pL sL pR sR filter cmpVar tol shifts :
      Reachable (BaseFolderPair_new pL sL pR sR filter cmpVar tol shifts)
  | ReachStep b b' :
      Reachable b -> BaseStep b b' -> Reachable b'.

(** The class invariant stated at the declaration of [syncDir_]:
    a direction other than [none] and a non-empty conflict description
    do not occur together. *)
Definition directionAndConflict (o : FileSystemObject) : Prop :=
  syncDir_ o <> SyncDirection_none /\ Zempty (syncDirectionConflict_ o) = false.

(** ** The buffered operation of a folder *)

Section SyncOperationBuffer.
(** The operation of a folder computed from its own state and that of
    its items, without the buffer. *)
Variable resolveSyncOperation : FolderPair -> SyncOperation.

(** Modelled from the spec: the body of [FolderPair::getSyncOperation],
    which is in [file_hierarchy.cpp] and not part of the sources.  The
    member [syncOpBuffered_] is [mutable] and its declaration says that
    the operation of a directory is buffered; the spec has the resolved
    operation cached, as a stored value that is dropped on invalidation.
    The call returns the buffered value if there is one, and otherwise
    computes the operation and stores it. *)
Definition FolderPair_getSyncOperation (d : FolderPair) : SyncOperation * FolderPair :=
  match syncOpBuffered_ d with
  | Some op => (op, d)
  | None =>
      let op := resolveSyncOperation d in
      (op, mkFolderPair (dirObj d) (dirAttrL_ d) (dirAttrR_ d) (Some op) (dirCont d))
  end.
End SyncOperationBuffer.


(** ** Calls on an item of any kind *)

(** [removeObject<side>] through a [FileSystemObject&]. *)
Definition FSObject_removeObject (side : SelectSide) (parentRelL parentRelR : Zstring)
    (e : FSObject) : FSObject :=
  match e with
  | IsFile f => IsFile (FilePair_removeObject side f)
  | IsSymlink l => IsSymlink (SymlinkPair_removeObject side l)
  | IsFolder d => IsFolder (FolderPair_removeObject side parentRelL parentRelR d)
  end.

(** [setSynced] through a [FileSystemObject&]; the member is protected and
    is reached from the three [setSyncedTo]. *)
Definition FSObject_setSynced (itemName : Zstring) (parentRelL parentRelR : Zstring)
    (e : FSObject) : FSObject :=
  match e with
  | IsFile f => IsFile (FilePair_mapObj (FileSystemObject_setSynced itemName) f)
  | IsSymlink l => IsSymlink (SymlinkPair_mapObj (FileSystemObject_setSynced itemName) l)
  | IsFolder d => IsFolder (FolderPair_setSynced itemName parentRelL parentRelR d)
  end.

(** Two items of the same kind with the same [FileSystemObject] part. *)
Definition sameItem (x x' : FSObject) : Prop :=
  kindOf x' = kindOf x /\ fsObj x' = fsObj x.

(** What [removeObject<side>] is said to leave behind in an item [x']
    that was [x]: no name on [side], the other name as it was, the
    category [FILE_EQUAL] if the other side was empty already and the
    one-sided category of the other side if not, no direction and no
    conflict. *)
Definition removedOn (side : SelectSide) (x x' : FSObject) : Prop :=
  kindOf x' = kindOf x
  /\ isEmpty side (fsObj x') = true
  /\ selectParam (getOtherSide side) (itemNameL_ (fsObj x')) (itemNameR_ (fsObj x')) =
     selectParam (getOtherSide side) (itemNameL_ (fsObj x)) (itemNameR_ (fsObj x))
  /\ getCategory (fsObj x') =
     (if isEmpty (getOtherSide side) (fsObj x) then FILE_EQUAL
      else match side with
           | left_side => FILE_RIGHT_SIDE_ONLY
           | right_side => FILE_LEFT_SIDE_ONLY
           end)
  /\ isPairEmpty (fsObj x') = isEmpty (getOtherSide side) (fsObj x)
  /\ getSyncDir (fsObj x') = SyncDirection_none
  /\ syncDirectionConflict_ (fsObj x') = "".

(** Two items of the same kind with the same active flag, direction and
    conflict description. *)
Definition sameSyncCfg (x x' : FSObject) : Prop :=
  kindOf x' = kindOf x
  /\ isActive (fsObj x') = isActive (fsObj x)
  /\ getSyncDir (fsObj x') = getSyncDir (fsObj x)
  /\ syncDirectionConflict_ (fsObj x') = syncDirectionConflict_ (fsObj x).

(** ** What the cached relative paths should be *)

(** On [side], the cached relative path of a folder that is not
    pair-empty is the one of its parent with the name of the folder
    appended, and so on below it. *)
Fixpoint relPathsCoherent (side : SelectSide) (parentRelPath : Zstring) (d : FolderPair)
    : Prop :=
  match d with
  | mkFolderPair o _ _ _ (mkContainerObject _ _ ds rL rR) =>
      (isPairEmpty o = false ->
       selectParam side rL rR = appendPath parentRelPath (getItemName side o))
      /\ (fix all (l : list FolderPair) : Prop :=
            match l with
            | [] => True
            | d' :: l' => relPathsCoherent side (selectParam side rL rR) d' /\ all l'
            end) ds
  end.

Definition ContainerObject_relPathsCoherent (side : SelectSide) (c : ContainerObject) : Prop :=
  Forall (relPathsCoherent side (getRelativePath side c)) (subFolders_ c).

(** ** Looking an item up *)

(** The child [target] of the container reached from [c] through the
    sub-folders [path]. *)
Fixpoint Container_childAt (path : list nat) (target : ChildRef) (c : ContainerObject)
    : option FSObject :=
  match path with
  | [] =>
      match target with
      | FileAt i => IsFile <$> subFiles_ c !! i
      | LinkAt i => IsSymlink <$> subLinks_ c !! i
      | FolderAt i => IsFolder <$> subFolders_ c !! i
      end
  | i :: path' =>
      d ← subFolders_ c !! i;
      Container_childAt path' target (dirCont d)
  end.


(** ** The operation of an item and of a folder *)

(** Modelled from the spec: the body of [FileSystemObject::getSyncOperation],
    which is in [file_hierarchy.cpp] and not part of the sources.  The
    spec gives the operation of one entity as a total function of its
    category, its direction or conflict and its active flag, by these
    rules in this order: an inactive entity needs nothing, whatever
    its category and direction; a conflict description gives an
    unresolved conflict; category Equal needs nothing; an entity on
    one side only is created on the missing side when the direction
    fills that side, deleted on the present side when the direction
    points the other way, and needs nothing while it has no direction;
    the other categories are updated in the direction given.  The spec
    names a direction by the side the data comes from ("direction Left
    => Update-right-from-left"), so a left-only entity with direction
    Left is created on the right, as in the spec's scenario of a
    left-only file with direction Left.  For the categories that
    differ, the spec gives no operation without a direction; as for
    the one-sided ones it is taken to be DoNothing. *)
Definition FileSystemObject_getSyncOperation (o : FileSystemObject) : SyncOperation :=
  if negb (isActive o) then SO_DO_NOTHING
  else if negb (Zempty (syncDirectionConflict_ o)) then SO_UNRESOLVED_CONFLICT
  else
    match getCategory o, getSyncDir o with
    | FILE_EQUAL, _ => SO_DO_NOTHING
    | _, SyncDirection_none => SO_DO_NOTHING
    | FILE_LEFT_SIDE_ONLY, SyncDirection_left => SO_CREATE right_side
    | FILE_LEFT_SIDE_ONLY, SyncDirection_right => SO_DELETE left_side
    | FILE_RIGHT_SIDE_ONLY, SyncDirection_right => SO_CREATE left_side
    | FILE_RIGHT_SIDE_ONLY, SyncDirection_left => SO_DELETE right_side
    | _, SyncDirection_left => SO_UPDATE right_side
    | _, SyncDirection_right => SO_UPDATE left_side
    end.

(** An operation other than DoNothing. *)
Definition requiresAction (op : SyncOperation) : bool :=
  match op with
  | SO_DO_NOTHING => false
  | _ => true
  end.

(** A folder that is on one side only. *)
Definition existenceOnly (o : FileSystemObject) : bool :=
  match getCategory o with
  | FILE_LEFT_SIDE_ONLY | FILE_RIGHT_SIDE_ONLY => true
  | _ => false
  end.

(** Modelled from the spec: what [FolderPair::getSyncOperation]
    computes when nothing is buffered; its body is in
    [file_hierarchy.cpp] and not part of the sources.  The spec has:
    "Folder operation = DoNothing if no descendant requires action,
    else the single action implied by its own category/direction as
    above, except existence-only folders (LeftOnly/RightOnly) which
    resolve exactly like files."  A descendant requires action when
    its own operation is not DoNothing; the descendants are the items
    at any depth. *)
Fixpoint FolderPair_resolveSyncOperation (d : FolderPair) : SyncOperation :=
  match d with
  | mkFolderPair o _ _ _ c =>
      if existenceOnly o then FileSystemObject_getSyncOperation o
      else if ContainerObject_requiresAction c then FileSystemObject_getSyncOperation o
           else SO_DO_NOTHING
  end
with ContainerObject_requiresAction (c : ContainerObject) : bool :=
  match c with
  | mkContainerObject fs ls ds _ _ =>
      existsb (fun f => requiresAction (FileSystemObject_getSyncOperation (fileObj f))) fs
      || existsb (fun l => requiresAction (FileSystemObject_getSyncOperation (linkObj l))) ls
      || existsb (fun d' =>
                    requiresAction (FolderPair_resolveSyncOperation d')
                    || ContainerObject_requiresAction (dirCont d')) ds
  end.

(** ** Pruning *)


(** * Properties *)

(** ** Item names *)

Lemma Zempty_true (s : string) : Zempty s = true <-> s = "".
Proof. destruct s; simpl; split; congruence. Qed.

(** C9: [getItemName<side>] returns the stored name of [side] when it is
    not empty and the stored name of the other side otherwise; hence for
    an item that is not pair-empty, [getItemName] on either side and
    [getItemNameAny] are not empty, also on a side where [isEmpty] holds. *)
Theorem getItemName_falls_back (e : FSObject) (side : SelectSide) :
  getItemName side (fsObj e) =
    (if isEmpty side (fsObj e)
     then selectParam (getOtherSide side) (itemNameL_ (fsObj e)) (itemNameR_ (fsObj e))
     else selectParam side (itemNameL_ (fsObj e)) (itemNameR_ (fsObj e)))
  /\ (isPairEmpty (fsObj e) = false ->
      Zempty (getItemName side (fsObj e)) = false
      /\ Zempty (getItemName (getOtherSide side) (fsObj e)) = false
      /\ Zempty (getItemNameAny (fsObj e)) = false).
Proof.
  split.
  - unfold getItemName, isEmpty. now destruct (Zempty _).
  - unfold isPairEmpty, getItemNameAny, getItemName, isEmpty.
    destruct side; simpl;
      destruct (Zempty (itemNameL_ (fsObj e))) eqn:HL;
      destruct (Zempty (itemNameR_ (fsObj e))) eqn:HR;
      simpl; intros H; rewrite ?HL, ?HR; auto; discriminate.
Qed.

(** ** The state of a file after synchronisation *)

(** C10: [FilePair::setSyncedTo<sideTrg>] resets the move reference,
    gives both sides the same file size, gives the target side the target
    write time, finger print and symlink flag and the other side the
    source ones, and leaves both names equal to [itemName], the category
    [FILE_EQUAL] and no direction or conflict. *)
Theorem FilePair_setSyncedTo_post (sideTrg : SelectSide) (itemName : Zstring)
    (size tTrg tSrc pTrg pSrc : Z) (lTrg lSrc : bool) (f : FilePair) :
  let f' := FilePair_setSyncedTo sideTrg itemName size tTrg tSrc pTrg pSrc lTrg lSrc f in
  getMoveRef f' = None
  /\ getFileSize left_side f' = size
  /\ getFileSize right_side f' = size
  /\ getAttributes sideTrg f' = mkFileAttributes tTrg size pTrg lTrg
  /\ getAttributes (getOtherSide sideTrg) f' = mkFileAttributes tSrc size pSrc lSrc
  /\ itemNameL_ (fileObj f') = itemName
  /\ itemNameR_ (fileObj f') = itemName
  /\ getCategory (fileObj f') = FILE_EQUAL
  /\ getSyncDir (fileObj f') = SyncDirection_none
  /\ syncDirectionConflict_ (fileObj f') = "".
Proof. destruct sideTrg; cbn; repeat split. Qed.

(** ** The registry *)

Lemma retrieve_Some (id : ObjectId) (s : gset ObjectId) :
  retrieve id s = Some id <-> id ∈ s.
Proof. unfold retrieve. case_decide; split; intros; try done. Qed.

Lemma elem_of_run_snoc (id : ObjectId) (history : list ObjectEvent) (ev : ObjectEvent) :
  id ∈ ObjectMgr_run (history ++ [ev]) <->
  match ev with
  | Constructed id' => id' = id \/ id ∈ ObjectMgr_run history
  | Destroyed id' => id' <> id /\ id ∈ ObjectMgr_run history
  end.
Proof.
  unfold ObjectMgr_run. rewrite fold_left_app. simpl.
  destruct ev as [i|i]; unfold ObjectMgr_step, ObjectMgr_ctor, ObjectMgr_dtor.
  - rewrite elem_of_union, elem_of_singleton. intuition congruence.
  - rewrite elem_of_difference, elem_of_singleton. intuition congruence.
Qed.

Lemma liveAfter_snoc (id : ObjectId) (history : list ObjectEvent) (ev : ObjectEvent) live :
  liveAfter id (history ++ [ev]) live =
  match ev with
  | Constructed id' => if decide (id' = id) then true else liveAfter id history live
  | Destroyed id' => if decide (id' = id) then false else liveAfter id history live
  end.
Proof.
  revert live. induction history as [|[i|i] h IH]; intros live; simpl.
  - now destruct ev.
  - apply IH.
  - apply IH.
Qed.

Lemma elem_of_run_live (id : ObjectId) (history : list ObjectEvent) :
  id ∈ ObjectMgr_run history <-> liveAfter id history false = true.
Proof.
  induction history as [|ev h IH] using rev_ind.
  - unfold ObjectMgr_run. simpl. split; [intros H; now apply not_elem_of_empty in H | discriminate].
  - rewrite elem_of_run_snoc, liveAfter_snoc.
    destruct ev; case_decide; rewrite IH; intuition congruence.
Qed.

(** C8: after any history of constructions and destructions,
    [retrieve(id)] returns the pointer [id] exactly when [id] is in the set
    of live objects, that is when it was constructed and not destroyed
    since, and [nullptr] otherwise; right after the destructor has run it
    returns [nullptr], right after the constructor it returns [id]. *)
Theorem retrieve_live_only (history : list ObjectEvent) (id : ObjectId) :
  let live := ObjectMgr_run history in
  (retrieve id live = Some id <-> id ∈ live)
  /\ (retrieve id live = None <-> id ∉ live)
  /\ retrieve id live = (if liveAfter id history false then Some id else None)
  /\ retrieve id (ObjectMgr_run (history ++ [Constructed id])) = Some id
  /\ retrieve id (ObjectMgr_run (history ++ [Destroyed id])) = None.
Proof.
  cbn zeta. split; [apply retrieve_Some|].
  split; [unfold retrieve; case_decide; split; intros; done|].
  split.
  - destruct (liveAfter id history false) eqn:E.
    + apply retrieve_Some, elem_of_run_live, E.
    + unfold retrieve. case_decide as H; [|done].
      apply elem_of_run_live in H. congruence.
  - split.
    + apply retrieve_Some, elem_of_run_snoc. now left.
    + unfold retrieve. case_decide as H; [|done].
      apply elem_of_run_snoc in H. now destruct H.
Qed.

(** ** Order of the recursive visit *)

Lemma fold_left_map_items {St A : Type} (g : FSObject -> St -> St) (inj : A -> FSObject)
    (l : list A) (s : St) :
  fold_left (fun s e => g e s) (map inj l) s = fold_left (fun s x => g (inj x) s) l s.
Proof. revert s. induction l as [|x l IH]; intros s; simpl; [reflexivity | apply IH]. Qed.

Lemma fold_left_log (g : list FSObject -> FSObject -> list FSObject) (l acc : list FSObject) :
  (forall s e, g s e = s ++ [e]) -> fold_left g l acc = acc ++ l.
Proof.
  intros Hg. revert acc. induction l as [|x l IH]; intros acc; simpl.
  - now rewrite app_nil_r.
  - rewrite IH, Hg, <- app_assoc. reflexivity.
Qed.

Lemma FolderPair_items_eq (d : FolderPair) :
  FolderPair_items d = IsFolder d :: ContainerObject_items (dirCont d).
Proof. destruct d; reflexivity. Qed.

Lemma execute_items {St : Type} (onFolder : FolderPair -> St -> St)
    (onFile : FilePair -> St -> St) (onSymlink : SymlinkPair -> St -> St)
    (c : ContainerObject) (s : St) :
  execute onFolder onFile onSymlink c s =
  fold_left (fun s e => visitFSObject onFolder onFile onSymlink e s) (ContainerObject_items c) s.
Proof.
  revert s.
  induction c as [o aL aR buf c IH | fs ls ds rL rR IH]
    using ContainerObject_tree_ind
    with (P := fun d => forall s,
                execute onFolder onFile onSymlink (dirCont d) (onFolder d s) =
                fold_left (fun s e => visitFSObject onFolder onFile onSymlink e s)
                  (FolderPair_items d) s).
  - intros s. simpl. apply IH.
  - intros s. simpl. rewrite !fold_left_app, !fold_left_map_items. simpl.
    generalize (fold_left (fun s l => onSymlink l s) ls
                  (fold_left (fun s f => onFile f s) fs s)).
    induction IH as [|d ds Hd _ IHds]; intros s'; simpl; [reflexivity|].
    rewrite fold_left_app, <- Hd. apply IHds.
Qed.

(** C7: with any three callbacks, the recursive walk over a container
    calls them on the files of the container in list order, then on its
    symlinks, then for each sub-folder on the folder and at once on what
    is below it, before the next sub-folder; the walk that starts at an
    item does the same below a folder after the folder itself; with
    callbacks that log their argument the log is that very sequence; and
    the single dispatch calls one callback, the one of the item's kind,
    once. *)
Theorem recursive_visit_order {St : Type} (onFolder : FolderPair -> St -> St)
    (onFile : FilePair -> St -> St) (onSymlink : SymlinkPair -> St -> St) :
  (forall fs ls ds rL rR,
      ContainerObject_items (mkContainerObject fs ls ds rL rR) =
      map IsFile fs ++ map IsSymlink ls
        ++ flat_map (fun d => IsFolder d :: ContainerObject_items (dirCont d)) ds)
  /\ (forall c s,
      visitFSObjectRecursively onFolder onFile onSymlink c s =
      fold_left (fun s e => visitFSObject onFolder onFile onSymlink e s)
        (ContainerObject_items c) s)
  /\ (forall e s,
      visitFSObjectRecursivelyFrom onFolder onFile onSymlink e s =
      fold_left (fun s e => visitFSObject onFolder onFile onSymlink e s)
        (FSObject_items e) s)
  /\ (forall c,
      visitFSObjectRecursively
        (fun d log => log ++ [IsFolder d]) (fun f log => log ++ [IsFile f])
        (fun l log => log ++ [IsSymlink l]) c [] = ContainerObject_items c)
  /\ (forall e s,
      visitFSObject onFolder onFile onSymlink e s =
      match e with
      | IsFolder d => onFolder d s
      | IsFile f => onFile f s
      | IsSymlink l => onSymlink l s
      end)
  /\ (forall e,
      visitFSObject
        (fun d log => log ++ [IsFolder d]) (fun f log => log ++ [IsFile f])
        (fun l log => log ++ [IsSymlink l]) e [] = [e]).
Proof.
  split.
  { intros fs ls ds rL rR. simpl. do 2 f_equal.
    apply flat_map_ext. intros d. apply FolderPair_items_eq. }
  split; [intros c s; apply execute_items|].
  split.
  { intros [f|l|d] s; simpl; try reflexivity.
    unfold visitFSObjectRecursivelyFrom, FSObject_items.
    rewrite FolderPair_items_eq. simpl. apply execute_items. }
  split.
  { intros c. unfold visitFSObjectRecursively. rewrite execute_items.
    apply (fold_left_log _ _ []). intros log [f|l|d]; reflexivity. }
  split; intros [f|l|d]; reflexivity.
Qed.

(** ** Flip *)

Lemma flipCategory_involutive (c : CompareFileResult) : flipCategory (flipCategory c) = c.
Proof. now destruct c. Qed.

Lemma FileSystemObject_flip_flip (o : FileSystemObject) :
  FileSystemObject_flip (FileSystemObject_flip o) = o.
Proof. destruct o. unfold FileSystemObject_flip. simpl. now rewrite flipCategory_involutive. Qed.

Lemma FilePair_flip_flip (f : FilePair) : FilePair_flip (FilePair_flip f) = f.
Proof. destruct f. unfold FilePair_flip. simpl. now rewrite FileSystemObject_flip_flip. Qed.

Lemma SymlinkPair_flip_flip (l : SymlinkPair) : SymlinkPair_flip (SymlinkPair_flip l) = l.
Proof. destruct l. unfold SymlinkPair_flip. simpl. now rewrite FileSystemObject_flip_flip. Qed.

Lemma map_involutive {A : Type} (g : A -> A) (l : list A) :
  (forall x, g (g x) = x) -> map g (map g l) = l.
Proof. intros Hg. induction l as [|x l IH]; simpl; [reflexivity | now rewrite Hg, IH]. Qed.

Lemma map_map_pointwise {A : Type} (g h : A -> A) (l : list A) :
  Forall (fun x => g (g x) = h x) l -> map g (map g l) = map h l.
Proof. induction 1 as [|x l Hx _ IH]; simpl; [reflexivity | now rewrite Hx, IH]. Qed.

Lemma ContainerObject_flip_flip (c : ContainerObject) :
  ContainerObject_flip (ContainerObject_flip c) = ContainerObject_unbuffered c.
Proof.
  induction c as [o aL aR buf c IH | fs ls ds rL rR IH]
    using ContainerObject_tree_ind
    with (P := fun d => FolderPair_flip (FolderPair_flip d) = FolderPair_unbuffered d).
  - simpl. now rewrite IH, FileSystemObject_flip_flip.
  - simpl. rewrite (map_involutive _ fs FilePair_flip_flip).
    rewrite (map_involutive _ ls SymlinkPair_flip_flip).
    now rewrite (map_map_pointwise _ _ ds IH).
Qed.

(** No folder of the list holds a buffered operation. *)
Definition nothingBuffered (l : list FSObject) : Prop :=
  Forall (fun e => match e with
                   | IsFolder d => syncOpBuffered_ d = None
                   | _ => True
                   end) l.

Lemma nothingBuffered_flat_map (ds : list FolderPair) :
  nothingBuffered (flat_map FolderPair_items ds) <->
  Forall (fun d => nothingBuffered (FolderPair_items d)) ds.
Proof.
  unfold nothingBuffered. induction ds as [|d ds IH]; simpl.
  - split; constructor.
  - rewrite Forall_app, IH, Forall_cons. reflexivity.
Qed.

Lemma map_pointwise_id {A : Type} (g : A -> A) (l : list A) :
  Forall (fun x => g x = x) l -> map g l = l.
Proof. induction 1 as [|x l Hx _ IH]; simpl; [reflexivity | now rewrite Hx, IH]. Qed.

Lemma ContainerObject_unbuffered_id (c : ContainerObject) :
  nothingBuffered (ContainerObject_items c) -> ContainerObject_unbuffered c = c.
Proof.
  induction c as [o aL aR buf c IH | fs ls ds rL rR IH]
    using ContainerObject_tree_ind
    with (P := fun d => nothingBuffered (FolderPair_items d) -> FolderPair_unbuffered d = d).
  - intros H. apply Forall_cons in H as [Hb H]. simpl in Hb. subst buf.
    simpl. now rewrite IH.
  - intros H. simpl in H. unfold nothingBuffered in H.
    rewrite !Forall_app in H. destruct H as (_ & _ & H).
    apply nothingBuffered_flat_map in H.
    simpl. f_equal. apply map_pointwise_id.
    assert (Hboth : Forall (fun d => (nothingBuffered (FolderPair_items d) ->
                                      FolderPair_unbuffered d = d)
                                     /\ nothingBuffered (FolderPair_items d)) ds)
      by (apply Forall_and; split; assumption).
    eapply Forall_impl; [exact Hboth|].
    intros d [Hd1 Hd2]. auto.
Qed.

(** C2: flipping a base folder twice gives back the tree it started
    from: every item name, attribute, cached relative path, category,
    direction, conflict description and active flag, both root paths and
    both root states, and the shape of the tree.  The one member that
    can differ is the buffered operation of a folder, a memo that each
    flip empties: the result is the tree with those memos dropped, and
    the very same tree when none was held. *)
Theorem flip_twice_restores (b : Base) :
  BaseFolderPair_flip (BaseFolderPair_flip b) = BaseFolderPair_unbuffered b
  /\ (nothingBuffered (ContainerObject_items (baseCont b)) ->
      BaseFolderPair_flip (BaseFolderPair_flip b) = b)
  /\ nothingBuffered (ContainerObject_items (baseCont (BaseFolderPair_flip b))).
Proof.
  assert (H1 : BaseFolderPair_flip (BaseFolderPair_flip b) = BaseFolderPair_unbuffered b).
  { destruct b. unfold BaseFolderPair_flip, BaseFolderPair_unbuffered, withBaseCont. simpl.
    now rewrite ContainerObject_flip_flip. }
  split; [exact H1|]. split.
  - intros H. rewrite H1. unfold BaseFolderPair_unbuffered.
    rewrite ContainerObject_unbuffered_id by exact H. now destruct b.
  - simpl. generalize (baseCont b). intros c.
    induction c as [o aL aR buf c IH | fs ls ds rL rR IH]
      using ContainerObject_tree_ind
      with (P := fun d => nothingBuffered (FolderPair_items (FolderPair_flip d))).
    + simpl. constructor; [reflexivity | exact IH].
    + simpl. unfold nothingBuffered. rewrite !Forall_app, !Forall_fmap.
      split; [now apply Forall_forall|]. split; [now apply Forall_forall|].
      apply nothingBuffered_flat_map. now apply Forall_fmap.
Qed.

Lemma Forall2_flat_map_items (R : FSObject -> FSObject -> Prop)
    (g : FolderPair -> FolderPair) (ds : list FolderPair) :
  Forall (fun d => Forall2 R (FolderPair_items d) (FolderPair_items (g d))) ds ->
  Forall2 R (flat_map FolderPair_items ds) (flat_map FolderPair_items (map g ds)).
Proof.
  induction 1 as [|d ds Hd _ IH]; simpl; [constructor|].
  now apply Forall2_app.
Qed.

Lemma Forall2_map_items {A : Type} (R : FSObject -> FSObject -> Prop)
    (inj : A -> FSObject) (g : A -> A) (l : list A) :
  (forall x, R (inj x) (inj (g x))) -> Forall2 R (map inj l) (map inj (map g l)).
Proof. intros HR. induction l as [|x l IH]; simpl; constructor; auto. Qed.

Lemma categoryMirrored_flip (c : CompareFileResult) : categoryMirrored c (flipCategory c).
Proof. now destruct c. Qed.

Lemma ContainerObject_flip_items (c : ContainerObject) :
  Forall2 sidesExchanged (ContainerObject_items c) (ContainerObject_items (ContainerObject_flip c)).
Proof.
  induction c as [o aL aR buf c IH | fs ls ds rL rR IH]
    using ContainerObject_tree_ind
    with (P := fun d => Forall2 sidesExchanged (FolderPair_items d)
                          (FolderPair_items (FolderPair_flip d))).
  - simpl. constructor; [|exact IH].
    unfold sidesExchanged; simpl. repeat split; auto using categoryMirrored_flip.
    intros side. destruct c. now destruct side.
  - simpl. repeat apply Forall2_app.
    + apply Forall2_map_items. intros f.
      unfold sidesExchanged; simpl. repeat split; auto using categoryMirrored_flip.
      now intros [].
    + apply Forall2_map_items. intros l.
      unfold sidesExchanged; simpl. repeat split; auto using categoryMirrored_flip.
    + now apply Forall2_flat_map_items.
Qed.

(** C3: [flip] on a base folder exchanges the sides of every item of the
    tree: the left and right names, the attributes and the cached
    relative paths are swapped; left-only becomes right-only and
    left-newer becomes right-newer and back, while equal, different
    content, different metadata and conflict stay; the stored direction
    of every item is left as it was; and at the root the two paths, the
    two existence states and the two relative paths are swapped. *)
Theorem flip_exchanges_sides (b : Base) :
  Forall2 sidesExchanged
    (ContainerObject_items (baseCont b))
    (ContainerObject_items (baseCont (BaseFolderPair_flip b)))
  /\ (forall side,
      getAbstractPath side (BaseFolderPair_flip b) = getAbstractPath (getOtherSide side) b)
  /\ (forall side,
      getFolderStatus side (BaseFolderPair_flip b) = getFolderStatus (getOtherSide side) b)
  /\ (forall side,
      getRelativePath side (baseCont (BaseFolderPair_flip b)) =
      getRelativePath (getOtherSide side) (baseCont b)).
Proof.
  split; [apply ContainerObject_flip_items|].
  repeat split; intros []; try reflexivity; simpl; now destruct (baseCont b).
Qed.

(** ** Relative paths do not touch the items *)

Lemma Forall2_sameItem_refl (l : list FSObject) : Forall2 sameItem l l.
Proof. induction l; constructor; auto. now split. Qed.

Lemma updateRelPathsRecursion_dirObj (side : SelectSide) (p : Zstring) (d : FolderPair) :
  dirObj (updateRelPathsRecursion side p d) = dirObj d.
Proof. destruct d as [o aL aR buf [fs ls ds rL rR]]. now destruct side. Qed.

Lemma updateRelPathsRecursion_buffer (side : SelectSide) (p : Zstring) (d : FolderPair) :
  syncOpBuffered_ (updateRelPathsRecursion side p d) = syncOpBuffered_ d.
Proof. destruct d as [o aL aR buf [fs ls ds rL rR]]. now destruct side. Qed.

Lemma updateRelPathsRecursion_items (side : SelectSide) (d : FolderPair) :
  forall p,
    Forall2 sameItem (FolderPair_items d) (FolderPair_items (updateRelPathsRecursion side p d)).
Proof.
  induction d as [o aL aR buf c IH | fs ls ds rL rR IH]
    using FolderPair_tree_ind
    with (Q := fun c => forall p,
                Forall2 sameItem (flat_map FolderPair_items (subFolders_ c))
                  (flat_map FolderPair_items
                     (map (updateRelPathsRecursion side p) (subFolders_ c)))).
  - intros p. destruct c as [fs ls ds rL rR]. simpl in IH.
    specialize (IH (appendPath p (getItemName side o))).
    destruct side; simpl; (constructor; [now split|]);
      repeat apply Forall2_app; auto using Forall2_sameItem_refl.
  - intros p. simpl. apply Forall2_flat_map_items.
    eapply Forall_impl; [exact IH|]. intros d Hd. apply Hd.
Qed.

Lemma propagateChangedItemName_dirObj side pL pR old (d : FolderPair) :
  dirObj (propagateChangedItemName side pL pR old d) = dirObj d.
Proof.
  unfold propagateChangedItemName.
  repeat destruct (_ : bool); auto using updateRelPathsRecursion_dirObj.
Qed.

Lemma propagateChangedItemName_buffer side pL pR old (d : FolderPair) :
  syncOpBuffered_ (propagateChangedItemName side pL pR old d) = syncOpBuffered_ d.
Proof.
  unfold propagateChangedItemName.
  repeat destruct (_ : bool); auto using updateRelPathsRecursion_buffer.
Qed.

Lemma propagateChangedItemName_items side pL pR old (d : FolderPair) :
  Forall2 sameItem (FolderPair_items d)
    (FolderPair_items (propagateChangedItemName side pL pR old d)).
Proof.
  unfold propagateChangedItemName.
  repeat destruct (_ : bool);
    auto using updateRelPathsRecursion_items, Forall2_sameItem_refl.
Qed.

Lemma Forall2_then_sameItem (R : FSObject -> FSObject -> Prop) (l1 l2 l3 : list FSObject) :
  (forall x y z, R x y -> sameItem y z -> R x z) ->
  Forall2 R l1 l2 -> Forall2 sameItem l2 l3 -> Forall2 R l1 l3.
Proof.
  intros HR H12. revert l3.
  induction H12 as [|x y l1 l2 Hxy _ IH]; intros l3 H23; inversion H23; subst; constructor; eauto.
Qed.

(** ** Removal of one side *)

Lemma removedOn_sameItem (side : SelectSide) (x y z : FSObject) :
  removedOn side x y -> sameItem y z -> removedOn side x z.
Proof. unfold removedOn. intros H [Hk Ho]. rewrite Hk, Ho. exact H. Qed.

Lemma FileSystemObject_removeObject_post (side : SelectSide) (x x' : FSObject) :
  kindOf x' = kindOf x ->
  fsObj x' = FileSystemObject_removeObject side (fsObj x) ->
  removedOn side x x'.
Proof.
  intros Hk Ho. unfold removedOn. rewrite Ho, Hk.
  unfold isPairEmpty, isEmpty.
  destruct side; simpl; repeat split; auto;
    destruct (Zempty _); reflexivity.
Qed.

Lemma FolderPair_removeObject_eq (side : SelectSide) pL pR o aL aR buf fs ls ds rL rR :
  FolderPair_removeObject side pL pR
    (mkFolderPair o aL aR buf (mkContainerObject fs ls ds rL rR)) =
  propagateChangedItemName side pL pR (getItemName side o)
    (mkFolderPair (FileSystemObject_removeObject side o)
       (selectParam side FolderAttributes_default aL)
       (selectParam side aR FolderAttributes_default) None
       (mkContainerObject
          (map (FilePair_removeObject side) fs)
          (map (SymlinkPair_removeObject side) ls)
          (map (FolderPair_removeObject side rL rR) ds) rL rR)).
Proof. now destruct side. Qed.

Lemma FolderPair_removeObject_items (side : SelectSide) (d : FolderPair) :
  forall pL pR,
    Forall2 (removedOn side) (FolderPair_items d)
      (FolderPair_items (FolderPair_removeObject side pL pR d)).
Proof.
  induction d as [o aL aR buf c IH | fs ls ds rL rR IH]
    using FolderPair_tree_ind
    with (Q := fun c =>
                Forall2 (removedOn side) (flat_map FolderPair_items (subFolders_ c))
                  (flat_map FolderPair_items
                     (map (FolderPair_removeObject side (relPathL_ c) (relPathR_ c))
                        (subFolders_ c)))).
  - intros pL pR. destruct c as [fs ls ds rL rR]. simpl in IH.
    rewrite FolderPair_removeObject_eq.
    eapply Forall2_then_sameItem;
      [apply removedOn_sameItem | | apply propagateChangedItemName_items].
    simpl. constructor; [now apply FileSystemObject_removeObject_post|].
    repeat apply Forall2_app; auto.
    + apply Forall2_map_items. intros f.
      apply FileSystemObject_removeObject_post; [reflexivity | now destruct side].
    + apply Forall2_map_items. intros l.
      apply FileSystemObject_removeObject_post; [reflexivity | now destruct side].
  - simpl. apply Forall2_flat_map_items.
    eapply Forall_impl; [exact IH|]. intros d Hd. apply Hd.
Qed.

(** C4: [removeObject<side>] on any item leaves it without a name on
    [side], with the category [FILE_EQUAL] if the other side was empty
    already (the pair is then empty) and the one-sided category of the
    other side if not, and with no direction and no conflict
    description; on a folder the same holds for every file, symlink and
    folder below it; and the item and all items below it are still
    there, each at its place. *)
Theorem removeObject_postconditions (side : SelectSide) (parentRelL parentRelR : Zstring)
    (e : FSObject) :
  let e' := FSObject_removeObject side parentRelL parentRelR e in
  removedOn side e e'
  /\ Forall2 (removedOn side) (FSObject_items e) (FSObject_items e')
  /\ length (FSObject_items e') = length (FSObject_items e).
Proof.
  cbn zeta.
  assert (H : Forall2 (removedOn side) (FSObject_items e)
                (FSObject_items (FSObject_removeObject side parentRelL parentRelR e))).
  { destruct e as [f|l|d]; simpl.
    - constructor; [|constructor].
      apply FileSystemObject_removeObject_post; [reflexivity | now destruct side].
    - constructor; [|constructor].
      apply FileSystemObject_removeObject_post; [reflexivity | now destruct side].
    - apply FolderPair_removeObject_items. }
  split; [|split; [exact H | symmetry; eapply Forall2_length; exact H]].
  destruct e as [f|l|d]; simpl in H.
  - now inversion H.
  - now inversion H.
  - rewrite !FolderPair_items_eq in H. now inversion H.
Qed.

(** ** The state after synchronisation *)

Lemma FolderPair_setSynced_dirObj itemName pL pR (d : FolderPair) :
  dirObj (FolderPair_setSynced itemName pL pR d) =
  FileSystemObject_setSynced itemName (dirObj d).
Proof.
  unfold FolderPair_setSynced. now rewrite !propagateChangedItemName_dirObj.
Qed.

(** C6: on an item that is not pair-empty, [setSynced(itemName)] makes
    both names equal to [itemName], the category [FILE_EQUAL], the
    direction [none] and the conflict description empty; the three
    [setSyncedTo] leave the same [FileSystemObject] part. *)
Theorem setSynced_postconditions (itemName : Zstring) (parentRelL parentRelR : Zstring)
    (e : FSObject) :
  isPairEmpty (fsObj e) = false ->
  let e' := FSObject_setSynced itemName parentRelL parentRelR e in
  kindOf e' = kindOf e
  /\ itemNameL_ (fsObj e') = itemName
  /\ itemNameR_ (fsObj e') = itemName
  /\ getCategory (fsObj e') = FILE_EQUAL
  /\ getSyncDir (fsObj e') = SyncDirection_none
  /\ syncDirectionConflict_ (fsObj e') = ""
  /\ (forall sideTrg size tT tS pT pS lT lS f,
       e = IsFile f ->
       fileObj (FilePair_setSyncedTo sideTrg itemName size tT tS pT pS lT lS f) = fsObj e')
  /\ (forall sideTrg tT tS l,
       e = IsSymlink l ->
       linkObj (SymlinkPair_setSyncedTo sideTrg itemName tT tS l) = fsObj e')
  /\ (forall sideTrg lT lS d,
       e = IsFolder d ->
       dirObj (FolderPair_setSyncedTo sideTrg itemName lT lS parentRelL parentRelR d) = fsObj e').
Proof.
  intros _. cbn zeta.
  assert (Ho : fsObj (FSObject_setSynced itemName parentRelL parentRelR e) =
               FileSystemObject_setSynced itemName (fsObj e)).
  { destruct e as [f|l|d]; simpl; auto using FolderPair_setSynced_dirObj. }
  rewrite Ho.
  split; [now destruct e|].
  do 5 (split; [reflexivity|]).
  repeat split; intros; subst e; simpl; try reflexivity.
  unfold FolderPair_setSyncedTo. now rewrite FolderPair_setSynced_dirObj.
Qed.

(** ** Direction and conflict exclude each other *)

(** A property of the [FileSystemObject] part of every item of a list. *)
Definition everyItem (P : FileSystemObject -> Prop) (l : list FSObject) : Prop :=
  Forall (fun e => P (fsObj e)) l.

Lemma everyItem_flat_map (P : FileSystemObject -> Prop) (ds : list FolderPair) :
  everyItem P (flat_map FolderPair_items ds) <->
  Forall (fun d => everyItem P (FolderPair_items d)) ds.
Proof.
  unfold everyItem. induction ds as [|d ds IH]; simpl.
  - split; constructor.
  - rewrite Forall_app, IH, Forall_cons. reflexivity.
Qed.

Lemma everyItem_container (P : FileSystemObject -> Prop) (c : ContainerObject) :
  everyItem P (ContainerObject_items c) <->
  Forall (fun f => P (fileObj f)) (subFiles_ c)
  /\ Forall (fun l => P (linkObj l)) (subLinks_ c)
  /\ Forall (fun d => everyItem P (FolderPair_items d)) (subFolders_ c).
Proof.
  destruct c as [fs ls ds rL rR]. simpl.
  rewrite <- everyItem_flat_map. unfold everyItem.
  rewrite !Forall_app, !Forall_fmap. reflexivity.
Qed.

Lemma everyItem_folder (P : FileSystemObject -> Prop) (d : FolderPair) :
  everyItem P (FolderPair_items d) <->
  P (dirObj d) /\ everyItem P (ContainerObject_items (dirCont d)).
Proof. rewrite FolderPair_items_eq. unfold everyItem. now rewrite Forall_cons. Qed.

Lemma everyItem_related (P : FileSystemObject -> Prop) (R : FSObject -> FSObject -> Prop)
    (l l' : list FSObject) :
  (forall x x', R x x' -> P (fsObj x) -> P (fsObj x')) ->
  Forall2 R l l' -> everyItem P l -> everyItem P l'.
Proof.
  intros HR H. unfold everyItem.
  induction H as [|x x' l l' Hx _ IH]; intros Hl; [constructor|].
  apply Forall_cons in Hl as [Hx0 Hl]. apply Forall_cons. eauto.
Qed.

Definition exclusive (o : FileSystemObject) : Prop := ~ directionAndConflict o.

Lemma exclusive_no_direction (o : FileSystemObject) :
  syncDir_ o = SyncDirection_none -> exclusive o.
Proof. intros H [Hd _]. contradiction. Qed.

Lemma exclusive_no_conflict (o : FileSystemObject) :
  syncDirectionConflict_ o = "" -> exclusive o.
Proof. intros H [_ Hc]. rewrite H in Hc. discriminate. Qed.

Lemma exclusive_same (o o' : FileSystemObject) :
  syncDir_ o' = syncDir_ o ->
  syncDirectionConflict_ o' = syncDirectionConflict_ o ->
  exclusive o -> exclusive o'.
Proof. unfold exclusive, directionAndConflict. intros -> ->. auto. Qed.

Lemma exclusive_new nL nR cat : exclusive (FileSystemObject_new nL nR cat).
Proof. now apply exclusive_no_direction. Qed.

Lemma FilePair_call_exclusive call (f f' : FilePair) :
  FilePair_call call f = Some f' -> exclusive (fileObj f) -> exclusive (fileObj f').
Proof.
  destruct call; simpl; intros [= <-] H;
    try (apply exclusive_no_conflict; reflexivity);
    try (apply exclusive_no_direction; reflexivity);
    try (revert H; apply exclusive_same; reflexivity).
  - destruct side; now apply exclusive_no_direction.
  - destruct side; exact H.
Qed.

Lemma SymlinkPair_call_exclusive call (l l' : SymlinkPair) :
  SymlinkPair_call call l = Some l' -> exclusive (linkObj l) -> exclusive (linkObj l').
Proof.
  destruct call; simpl; intros [= <-] H;
    try (apply exclusive_no_conflict; reflexivity);
    try (apply exclusive_no_direction; reflexivity);
    try (revert H; apply exclusive_same; reflexivity).
  destruct side; now apply exclusive_no_direction.
Qed.

Lemma removedOn_exclusive side (x x' : FSObject) :
  removedOn side x x' -> exclusive (fsObj x) -> exclusive (fsObj x').
Proof. intros (_ & _ & _ & _ & _ & Hd & _) _. now apply exclusive_no_direction. Qed.

Lemma sameItem_exclusive (x x' : FSObject) :
  sameItem x x' -> exclusive (fsObj x) -> exclusive (fsObj x').
Proof. intros [_ ->]. auto. Qed.

Lemma sidesExchanged_exclusive (x x' : FSObject) :
  sidesExchanged x x' -> exclusive (fsObj x) -> exclusive (fsObj x').
Proof. intros (_ & _ & _ & Hd & Hc & _). now apply exclusive_same. Qed.

Lemma FolderPair_setSynced_exclusive itemName pL pR (d : FolderPair) :
  everyItem exclusive (FolderPair_items d) ->
  everyItem exclusive (FolderPair_items (FolderPair_setSynced itemName pL pR d)).
Proof.
  intros H. unfold FolderPair_setSynced.
  eapply everyItem_related;
    [apply sameItem_exclusive | apply propagateChangedItemName_items |].
  eapply everyItem_related;
    [apply sameItem_exclusive | apply propagateChangedItemName_items |].
  apply everyItem_folder in H as [_ H]. apply everyItem_folder. simpl.
  split; [now apply exclusive_no_direction | exact H].
Qed.

Lemma FolderPair_mapObj_exclusive (g : FileSystemObject -> FileSystemObject) (d : FolderPair) :
  exclusive (g (dirObj d)) ->
  everyItem exclusive (FolderPair_items d) ->
  everyItem exclusive (FolderPair_items (FolderPair_mapObj g d)).
Proof. intros Hg H. apply everyItem_folder in H as [_ H]. now apply everyItem_folder. Qed.

Lemma FolderPair_call_exclusive call pL pR (d d' : FolderPair) :
  FolderPair_call call pL pR d = Some d' ->
  everyItem exclusive (FolderPair_items d) ->
  everyItem exclusive (FolderPair_items d').
Proof.
  destruct call; simpl; intros [= <-] H.
  - apply everyItem_folder in H as [_ H]. apply everyItem_folder.
    split; [now apply exclusive_no_conflict | exact H].
  - apply everyItem_folder in H as [_ H]. apply everyItem_folder.
    split; [now apply exclusive_no_direction | exact H].
  - apply everyItem_folder in H as [Ho H]. apply everyItem_folder.
    split; [revert Ho; now apply exclusive_same | exact H].
  - revert H. apply everyItem_related with (R := removedOn side);
      [apply removedOn_exclusive | apply FolderPair_removeObject_items].
  - apply FolderPair_mapObj_exclusive; [|exact H].
    apply everyItem_folder in H as [Ho _]. revert Ho. now apply exclusive_same.
  - apply FolderPair_mapObj_exclusive; [|exact H].
    apply everyItem_folder in H as [Ho _]. revert Ho. now apply exclusive_same.
  - apply FolderPair_mapObj_exclusive; [|exact H].
    apply everyItem_folder in H as [Ho _]. revert Ho. now apply exclusive_same.
  - unfold FolderPair_setSyncedTo. apply FolderPair_setSynced_exclusive.
    apply everyItem_folder in H as [Ho H]. now apply everyItem_folder.
Qed.

Lemma enclosing_exclusive notified (d : FolderPair) (c' : ContainerObject) :
  exclusive (dirObj d) ->
  everyItem exclusive (ContainerObject_items c') ->
  everyItem exclusive (FolderPair_items (enclosing notified d c')).
Proof. intros Ho H. now apply everyItem_folder. Qed.

Lemma Container_applyAt_exclusive call target (path : list nat) :
  forall c c',
    Container_applyAt call path target c = Some c' ->
    everyItem exclusive (ContainerObject_items c) ->
    everyItem exclusive (ContainerObject_items c').
Proof.
  induction path as [|i path IH]; intros c c' Happ Hc;
    apply everyItem_container in Hc as (Hfs & Hls & Hds); apply everyItem_container.
  - destruct target as [i|i|i]; simpl in Happ.
    + destruct (subFiles_ c !! i) as [f|] eqn:Ei; [|discriminate]. simpl in Happ.
      destruct (FilePair_call call f) as [f'|] eqn:Ef; [|discriminate].
      injection Happ as <-. destruct c; simpl in *. repeat split; auto.
      apply Forall_insert; [exact Hfs|].
      eapply FilePair_call_exclusive; [exact Ef|].
      eapply Forall_lookup_1 in Hfs; eauto.
    + destruct (subLinks_ c !! i) as [l|] eqn:Ei; [|discriminate]. simpl in Happ.
      destruct (SymlinkPair_call call l) as [l'|] eqn:El; [|discriminate].
      injection Happ as <-. destruct c; simpl in *. repeat split; auto.
      apply Forall_insert; [exact Hls|].
      eapply SymlinkPair_call_exclusive; [exact El|].
      eapply Forall_lookup_1 in Hls; eauto.
    + destruct (subFolders_ c !! i) as [d|] eqn:Ei; [|discriminate]. simpl in Happ.
      destruct (FolderPair_call call _ _ d) as [d'|] eqn:Ed; [|discriminate].
      injection Happ as <-. destruct c; simpl in *. repeat split; auto.
      apply Forall_insert; [exact Hds|].
      eapply FolderPair_call_exclusive; [exact Ed|].
      eapply Forall_lookup_1 in Hds; eauto.
  - simpl in Happ.
    destruct (subFolders_ c !! i) as [d|] eqn:Ei; [|discriminate]. simpl in Happ.
    destruct (Container_applyAt call path target (dirCont d)) as [c1|] eqn:E1; [|discriminate].
    injection Happ as <-.
    pose proof (Forall_lookup_1 _ _ _ _ Hds Ei) as Hd. simpl in Hd.
    apply everyItem_folder in Hd as [Ho Hd].
    destruct c; simpl in *. repeat split; auto.
    apply Forall_insert; [exact Hds|].
    apply enclosing_exclusive; eauto.
Qed.

Lemma ContainerObject_add_exclusive item (c : ContainerObject) :
  everyItem exclusive (ContainerObject_items c) ->
  everyItem exclusive (ContainerObject_items (ContainerObject_add item c)).
Proof.
  intros Hc. apply everyItem_container in Hc as (Hfs & Hls & Hds).
  apply everyItem_container.
  destruct c as [fs ls ds rL rR]; simpl in *.
  destruct item as [nL aL cat nR aR|[] n a|nL aL cat nR aR|[] n a|nL aL cat nR aR|[] n a];
    simpl; repeat split; auto;
    apply Forall_app; split; auto; (constructor; [|constructor]);
    first [ apply exclusive_new
          | apply everyItem_folder; split; [apply exclusive_new | constructor] ].
Qed.

Lemma Container_addAt_exclusive item (path : list nat) :
  forall c c',
    Container_addAt item path c = Some c' ->
    everyItem exclusive (ContainerObject_items c) ->
    everyItem exclusive (ContainerObject_items c').
Proof.
  induction path as [|i path IH]; intros c c' Hadd Hc; simpl in Hadd.
  - injection Hadd as <-. now apply ContainerObject_add_exclusive.
  - apply everyItem_container in Hc as (Hfs & Hls & Hds); apply everyItem_container.
    destruct (subFolders_ c !! i) as [d|] eqn:Ei; [|discriminate]. simpl in Hadd.
    destruct (Container_addAt item path (dirCont d)) as [c1|] eqn:E1; [|discriminate].
    injection Hadd as <-.
    pose proof (Forall_lookup_1 _ _ _ _ Hds Ei) as Hd. simpl in Hd.
    apply everyItem_folder in Hd as [Ho Hd].
    destruct c; simpl in *. repeat split; auto.
    apply Forall_insert; [exact Hds|].
    apply enclosing_exclusive; eauto.
Qed.

Lemma BaseStep_exclusive (b b' : Base) :
  BaseStep b b' ->
  everyItem exclusive (ContainerObject_items (baseCont b)) ->
  everyItem exclusive (ContainerObject_items (baseCont b')).
Proof.
  intros [call path target b0 c' H | item path b0 c' H | b0] Hb; simpl.
  - eapply Container_applyAt_exclusive; eauto.
  - eapply Container_addAt_exclusive; eauto.
  - revert Hb. apply everyItem_related with (R := sidesExchanged);
      [apply sidesExchanged_exclusive | apply ContainerObject_flip_items].
Qed.

(** C5: in every tree that arises from a new base folder by adding
    items and by calls of [setSyncDir], [setSyncDirConflict], [setActive],
    [removeObject], the three [setSyncedTo], the category setters,
    [setMoveRef], [clearFilePrint] and [flip], in any order and on any
    items, no item has a direction other than [none] together with a
    non-empty conflict description. *)
Theorem direction_conflict_exclusive (b : Base) :
  Reachable b ->
  Forall (fun e => ~ (syncDir_ (fsObj e) <> SyncDirection_none
                      /\ Zempty (syncDirectionConflict_ (fsObj e)) = false))
    (ContainerObject_items (baseCont b)).
Proof.
  induction 1 as [pL sL pR sR filter cmpVar tol shifts | b b' _ IH Hstep].
  - constructor.
  - exact (BaseStep_exclusive b b' Hstep IH).
Qed.

(** ** The buffered operation of a folder is dropped in time *)

Lemma enclosing_buffer (d : FolderPair) (c' : ContainerObject) :
  syncOpBuffered_ (enclosing true d c') = None.
Proof. reflexivity. Qed.

Lemma Container_applyAt_buffers call target (path : list nat) :
  notifies call = true ->
  forall c c',
    Container_applyAt call path target c = Some c' ->
    Forall (fun d => syncOpBuffered_ d = None) (foldersAlong path c').
Proof.
  intros Hn. induction path as [|i path IH]; intros c c' Happ; simpl; [constructor|].
  simpl in Happ. rewrite Hn in Happ.
  destruct (subFolders_ c !! i) as [d|] eqn:Ei; [|discriminate]. simpl in Happ.
  destruct (Container_applyAt call path target (dirCont d)) as [c1|] eqn:E1; [|discriminate].
  injection Happ as <-. destruct c as [fs ls ds rL rR]; simpl in *.
  rewrite list_lookup_insert_eq by (eapply lookup_lt_Some; exact Ei).
  constructor; [reflexivity|]. simpl. eauto.
Qed.

Lemma Container_addAt_buffers item (path : list nat) :
  forall c c',
    Container_addAt item path c = Some c' ->
    Forall (fun d => syncOpBuffered_ d = None) (foldersAlong path c').
Proof.
  induction path as [|i path IH]; intros c c' Hadd; simpl; [constructor|].
  simpl in Hadd.
  destruct (subFolders_ c !! i) as [d|] eqn:Ei; [|discriminate]. simpl in Hadd.
  destruct (Container_addAt item path (dirCont d)) as [c1|] eqn:E1; [|discriminate].
  injection Hadd as <-. destruct c as [fs ls ds rL rR]; simpl in *.
  rewrite list_lookup_insert_eq by (eapply lookup_lt_Some; exact Ei).
  constructor; [reflexivity|]. simpl. eauto.
Qed.


(** *** A call that does not notify leaves the three settings alone *)


Lemma sameItem_sameSyncCfg (x x' : FSObject) : sameItem x x' -> sameSyncCfg x x'.
Proof. intros [Hk Ho]. unfold sameSyncCfg. now rewrite Hk, Ho. Qed.

Lemma Forall2_flat_map_related (R : FSObject -> FSObject -> Prop) (ds ds' : list FolderPair) :
  Forall2 (fun d d' => Forall2 R (FolderPair_items d) (FolderPair_items d')) ds ds' ->
  Forall2 R (flat_map FolderPair_items ds) (flat_map FolderPair_items ds').
Proof. induction 1; simpl; [constructor | now apply Forall2_app]. Qed.

Lemma Forall2_replace {A : Type} (R : A -> A -> Prop) (l : list A) (i : nat) (x x' : A) :
  (forall y, R y y) -> l !! i = Some x -> R x x' -> Forall2 R l (<[i := x']> l).
Proof.
  intros Hrefl. revert i. induction l as [|y l IH]; intros [|i] Hi Hx; simpl in *;
    try discriminate.
  - injection Hi as ->. constructor; [exact Hx|]. clear IH. induction l; constructor; auto.
  - constructor; auto.
Qed.

Lemma Forall2_map_replace {A : Type} (R : FSObject -> FSObject -> Prop) (inj : A -> FSObject)
    (l : list A) (i : nat) (x x' : A) :
  (forall y, R y y) -> l !! i = Some x -> R (inj x) (inj x') ->
  Forall2 R (map inj l) (map inj (<[i := x']> l)).
Proof.
  intros Hrefl Hi Hx.
  apply Forall2_fmap.
  apply (Forall2_replace (fun a b => R (inj a) (inj b)) l i x x'); auto.
Qed.





(** ** Further properties *)

Lemma removedOn_twice (side : SelectSide) (x y z : FSObject) :
  removedOn side x y -> removedOn (getOtherSide side) y z ->
  kindOf z = kindOf x
  /\ isPairEmpty (fsObj z) = true
  /\ getCategory (fsObj z) = FILE_EQUAL
  /\ getSyncDir (fsObj z) = SyncDirection_none
  /\ syncDirectionConflict_ (fsObj z) = "".
Proof.
  intros (Hk1 & He1 & _) (Hk2 & _ & _ & Hc2 & Hp2 & Hd2 & Hx2).
  assert (He : isEmpty (getOtherSide (getOtherSide side)) (fsObj y) = true)
    by (now destruct side).
  rewrite He in Hc2, Hp2. repeat split; congruence.
Qed.

Lemma Forall2_compose {A : Type} (R1 R2 R3 : A -> A -> Prop) (l1 l2 l3 : list A) :
  (forall x y z, R1 x y -> R2 y z -> R3 x z) ->
  Forall2 R1 l1 l2 -> Forall2 R2 l2 l3 -> Forall2 R3 l1 l3.
Proof.
  intros HR H12. revert l3.
  induction H12 as [|x y l1 l2 Hxy _ IH]; intros l3 H23; inversion H23; subst; constructor; eauto.
Qed.

Lemma FSObject_removeObject_items (side : SelectSide) pL pR (e : FSObject) :
  Forall2 (removedOn side) (FSObject_items e)
    (FSObject_items (FSObject_removeObject side pL pR e)).
Proof.
  destruct e as [f|l|d]; simpl.
  - constructor; [|constructor].
    apply FileSystemObject_removeObject_post; [reflexivity | now destruct side].
  - constructor; [|constructor].
    apply FileSystemObject_removeObject_post; [reflexivity | now destruct side].
  - apply FolderPair_removeObject_items.
Qed.

(** Removing an item on one side and then on the other leaves it and
    every item below it pair-empty, with the category [FILE_EQUAL] and
    neither direction nor conflict, and still in place. *)
Theorem removeObject_both_sides (side : SelectSide) (parentRelL parentRelR : Zstring)
    (e : FSObject) :
  let e2 := FSObject_removeObject (getOtherSide side) parentRelL parentRelR
              (FSObject_removeObject side parentRelL parentRelR e) in
  Forall2 (fun x z =>
             kindOf z = kindOf x
             /\ isPairEmpty (fsObj z) = true
             /\ getCategory (fsObj z) = FILE_EQUAL
             /\ getSyncDir (fsObj z) = SyncDirection_none
             /\ syncDirectionConflict_ (fsObj z) = "")
    (FSObject_items e) (FSObject_items e2).
Proof.
  cbn zeta.
  eapply Forall2_compose;
    [apply (removedOn_twice side) | apply FSObject_removeObject_items
     | apply FSObject_removeObject_items].
Qed.

(** ** The cached relative paths stay coherent *)

(** The state between the change of a name and [propagateChangedItemName]:
    the folders below are coherent, and the folder itself is if its name
    is still [itemNameOld]. *)
Definition preCoherent (side : SelectSide) (parentRelPath itemNameOld : Zstring)
    (d : FolderPair) : Prop :=
  (isPairEmpty (dirObj d) = false ->
   itemNameOld = getItemName side (dirObj d) ->
   getRelativePath side (dirCont d) = appendPath parentRelPath itemNameOld)
  /\ ContainerObject_relPathsCoherent side (dirCont d).

Lemma Forall_both {A : Type} (P Q : A -> Prop) (l : list A) :
  Forall P l -> Forall Q l -> Forall (fun x => P x /\ Q x) l.
Proof. intros HP HQ. apply Forall_and. now split. Qed.

Lemma relPathsCoherent_eq (side : SelectSide) (p : Zstring) (d : FolderPair) :
  relPathsCoherent side p d <->
  (isPairEmpty (dirObj d) = false ->
   getRelativePath side (dirCont d) = appendPath p (getItemName side (dirObj d)))
  /\ ContainerObject_relPathsCoherent side (dirCont d).
Proof.
  destruct d as [o aL aR buf [fs ls ds rL rR]]. simpl.
  unfold ContainerObject_relPathsCoherent, getRelativePath. simpl.
  generalize (selectParam side rL rR). intros r.
  apply and_iff_compat_l.
  induction ds as [|d ds IH]; simpl.
  - split; [constructor | trivial].
  - rewrite IH, Forall_cons. reflexivity.
Qed.

Lemma relPathsCoherent_pre (side : SelectSide) (p : Zstring) (d : FolderPair) :
  relPathsCoherent side p d <-> preCoherent side p (getItemName side (dirObj d)) d.
Proof.
  rewrite relPathsCoherent_eq. unfold preCoherent. intuition.
Qed.

Lemma updateRelPathsRecursion_coherent (side : SelectSide) (d : FolderPair) :
  forall p, relPathsCoherent side p (updateRelPathsRecursion side p d).
Proof.
  induction d as [o aL aR buf c IH | fs ls ds rL rR IH]
    using FolderPair_tree_ind
    with (Q := fun c => forall p,
                Forall (relPathsCoherent side p)
                  (map (updateRelPathsRecursion side p) (subFolders_ c))).
  - intros p. destruct c as [fs ls ds rL rR]. simpl in IH.
    apply relPathsCoherent_eq.
    destruct side; simpl; (split; [reflexivity|]);
      unfold ContainerObject_relPathsCoherent; simpl; apply IH.
  - intros p. simpl. apply Forall_fmap.
    eapply Forall_impl; [exact IH|]. intros d Hd. apply Hd.
Qed.

Lemma updateRelPathsRecursion_other (side s : SelectSide) (d : FolderPair) :
  s <> side ->
  forall p q, relPathsCoherent s q d ->
              relPathsCoherent s q (updateRelPathsRecursion side p d).
Proof.
  intros Hs.
  induction d as [o aL aR buf c IH | fs ls ds rL rR IH]
    using FolderPair_tree_ind
    with (Q := fun c => forall p q,
                Forall (relPathsCoherent s q) (subFolders_ c) ->
                Forall (relPathsCoherent s q)
                  (map (updateRelPathsRecursion side p) (subFolders_ c))).
  - intros p q H. destruct c as [fs ls ds rL rR]. simpl in IH.
    apply relPathsCoherent_eq in H as [Hown Hsub].
    apply relPathsCoherent_eq.
    unfold ContainerObject_relPathsCoherent, getRelativePath in *. simpl in *.
    destruct side, s; try contradiction; simpl; (split; [exact Hown|]); now apply IH.
  - intros p q H. simpl in *. apply Forall_fmap.
    eapply Forall_impl; [exact (Forall_both _ _ _ IH H)|].
    intros d [Hd1 Hd2]. now apply Hd1.
Qed.

Lemma updateRelPathsRecursion_other_parts (side s : SelectSide) (p : Zstring) (d : FolderPair) :
  s <> side ->
  getRelativePath s (dirCont (updateRelPathsRecursion side p d)) = getRelativePath s (dirCont d)
  /\ (ContainerObject_relPathsCoherent s (dirCont d) ->
      ContainerObject_relPathsCoherent s (dirCont (updateRelPathsRecursion side p d))).
Proof.
  intros Hs. destruct d as [o aL aR buf [fs ls ds rL rR]].
  unfold ContainerObject_relPathsCoherent, getRelativePath.
  destruct side, s; try contradiction; simpl; (split; [reflexivity|]);
    intros H; apply Forall_fmap; (eapply Forall_impl; [exact H|]);
    intros d Hd; now apply updateRelPathsRecursion_other.
Qed.

Lemma propagateChangedItemName_coherent (side : SelectSide) pL pR old (d : FolderPair) :
  preCoherent side (selectParam side pL pR) old d ->
  relPathsCoherent side (selectParam side pL pR)
    (propagateChangedItemName side pL pR old d).
Proof.
  intros [Hown Hsub]. unfold propagateChangedItemName.
  destruct (Zempty (itemNameL_ (dirObj d)) && Zempty (itemNameR_ (dirObj d))) eqn:Hempty.
  - apply relPathsCoherent_eq. split; [|exact Hsub].
    unfold isPairEmpty, isEmpty. simpl. rewrite Hempty. discriminate.
  - destruct (String.eqb old (getItemName side (dirObj d))) eqn:Hold; simpl.
    + apply String.eqb_eq in Hold. apply relPathsCoherent_eq. split; [|exact Hsub].
      intros Hne. rewrite <- Hold. now apply Hown.
    + apply updateRelPathsRecursion_coherent.
Qed.

Lemma propagateChangedItemName_other (side s : SelectSide) pL pR old' p old (d : FolderPair) :
  s <> side ->
  preCoherent s p old d ->
  preCoherent s p old (propagateChangedItemName side pL pR old' d).
Proof.
  intros Hs [Hown Hsub]. unfold propagateChangedItemName.
  destruct (Zempty (itemNameL_ (dirObj d)) && Zempty (itemNameR_ (dirObj d)));
    [now split|].
  destruct (negb (String.eqb old' (getItemName side (dirObj d)))); [|now split].
  destruct (updateRelPathsRecursion_other_parts side s (selectParam side pL pR) d Hs)
    as [Hrel Hkeep].
  unfold preCoherent. rewrite updateRelPathsRecursion_dirObj, Hrel. split; auto.
Qed.

Lemma removeObject_still_named (side : SelectSide) (o : FileSystemObject) :
  isPairEmpty (FileSystemObject_removeObject side o) = false -> isPairEmpty o = false.
Proof.
  unfold isPairEmpty, isEmpty. destruct side; simpl;
    destruct (Zempty (itemNameL_ o)), (Zempty (itemNameR_ o)); simpl; congruence.
Qed.

Lemma removeObject_other_name (side s : SelectSide) (o : FileSystemObject) :
  s <> side ->
  isPairEmpty (FileSystemObject_removeObject side o) = false ->
  getItemName s (FileSystemObject_removeObject side o) = getItemName s o.
Proof.
  intros Hs. unfold isPairEmpty, isEmpty, getItemName.
  destruct side, s; try contradiction; simpl;
    destruct (Zempty (itemNameL_ o)), (Zempty (itemNameR_ o)); simpl; congruence.
Qed.

Lemma SelectSide_eq_dec (s side : SelectSide) : {s = side} + {s <> side}.
Proof. decide equality. Qed.

Lemma FolderPair_removeObject_coherent (side : SelectSide) (d : FolderPair) :
  forall pL pR s,
    relPathsCoherent s (selectParam s pL pR) d ->
    relPathsCoherent s (selectParam s pL pR) (FolderPair_removeObject side pL pR d).
Proof.
  induction d as [o aL aR buf c IH | fs ls ds rL rR IH]
    using FolderPair_tree_ind
    with (Q := fun c => forall s,
                ContainerObject_relPathsCoherent s c ->
                Forall (relPathsCoherent s (getRelativePath s c))
                  (map (FolderPair_removeObject side (relPathL_ c) (relPathR_ c))
                     (subFolders_ c))).
  - intros pL pR s H. destruct c as [fs ls ds rL rR].
    rewrite FolderPair_removeObject_eq.
    apply relPathsCoherent_eq in H as [Hown Hsub]. simpl in Hown.
    specialize (IH s Hsub). simpl in IH.
    destruct (SelectSide_eq_dec s side) as [->|Hs].
    + apply propagateChangedItemName_coherent. split; [|exact IH].
      simpl. intros Hne _. apply Hown. eapply removeObject_still_named; exact Hne.
    + apply relPathsCoherent_pre. rewrite propagateChangedItemName_dirObj.
      apply propagateChangedItemName_other; [exact Hs|]. split; [|exact IH].
      simpl. intros Hne _. rewrite removeObject_other_name by assumption.
      apply Hown. eapply removeObject_still_named; exact Hne.
  - intros s H. unfold ContainerObject_relPathsCoherent in H. simpl in *.
    apply Forall_fmap.
    eapply Forall_impl; [exact (Forall_both _ _ _ IH H)|].
    intros d [Hd1 Hd2]. simpl.
    exact (Hd1 rL rR s Hd2).
Qed.

Lemma setSynced_was_named (itemName : Zstring) (side : SelectSide) (o : FileSystemObject) :
  isPairEmpty (FileSystemObject_setSynced itemName o) = false ->
  getItemName side o = getItemName side (FileSystemObject_setSynced itemName o) ->
  isPairEmpty o = false.
Proof.
  unfold isPairEmpty, isEmpty, getItemName. destruct side; simpl;
    destruct (Zempty itemName) eqn:Hn; simpl; try discriminate; intros _;
    destruct (Zempty (itemNameL_ o)) eqn:HL, (Zempty (itemNameR_ o)) eqn:HR; simpl;
    try reflexivity; intros <-; congruence.
Qed.

Lemma FolderPair_setSynced_coherent (itemName : Zstring) pL pR (d : FolderPair) (s : SelectSide) :
  relPathsCoherent s (selectParam s pL pR) d ->
  relPathsCoherent s (selectParam s pL pR) (FolderPair_setSynced itemName pL pR d).
Proof.
  intros H. apply relPathsCoherent_eq in H as [Hown Hsub].
  unfold FolderPair_setSynced.
  set (d1 := mkFolderPair (FileSystemObject_setSynced itemName (dirObj d))
               (dirAttrL_ d) (dirAttrR_ d) None (dirCont d)).
  assert (Hpre : preCoherent s (selectParam s pL pR) (getItemName s (dirObj d)) d1).
  { split; [|exact Hsub]. simpl. intros Hne Hsame.
    apply Hown. eapply setSynced_was_named; eauto. }
  destruct s.
  - apply relPathsCoherent_pre. rewrite propagateChangedItemName_dirObj.
    apply propagateChangedItemName_other; [discriminate|].
    apply relPathsCoherent_pre.
    apply (propagateChangedItemName_coherent left_side). exact Hpre.
  - apply (propagateChangedItemName_coherent right_side).
    apply propagateChangedItemName_other; [discriminate | exact Hpre].
Qed.

Lemma relPathsCoherent_same (s : SelectSide) (p : Zstring) (d d' : FolderPair) :
  itemNameL_ (dirObj d') = itemNameL_ (dirObj d) ->
  itemNameR_ (dirObj d') = itemNameR_ (dirObj d) ->
  getRelativePath s (dirCont d') = getRelativePath s (dirCont d) ->
  (ContainerObject_relPathsCoherent s (dirCont d) ->
   ContainerObject_relPathsCoherent s (dirCont d')) ->
  relPathsCoherent s p d -> relPathsCoherent s p d'.
Proof.
  intros HL HR Hrel Hsub H. apply relPathsCoherent_eq in H as [Hown H].
  apply relPathsCoherent_eq. split; [|auto].
  unfold isPairEmpty, isEmpty, getItemName in *. simpl in *.
  rewrite Hrel, HL, HR. exact Hown.
Qed.

Lemma getItemName_flip (s : SelectSide) (o : FileSystemObject) :
  getItemName (getOtherSide s) (FileSystemObject_flip o) = getItemName s o.
Proof. now destruct s. Qed.

Lemma isPairEmpty_flip (o : FileSystemObject) :
  isPairEmpty (FileSystemObject_flip o) = isPairEmpty o.
Proof. unfold isPairEmpty, isEmpty. simpl. apply andb_comm. Qed.

Lemma FolderPair_flip_coherent (s : SelectSide) (d : FolderPair) :
  forall p, relPathsCoherent s p d -> relPathsCoherent (getOtherSide s) p (FolderPair_flip d).
Proof.
  induction d as [o aL aR buf c IH | fs ls ds rL rR IH]
    using FolderPair_tree_ind
    with (Q := fun c =>
                ContainerObject_relPathsCoherent s c ->
                ContainerObject_relPathsCoherent (getOtherSide s) (ContainerObject_flip c)).
  - intros p H. apply relPathsCoherent_eq in H as [Hown Hsub].
    apply relPathsCoherent_eq. simpl. split; [|auto].
    rewrite isPairEmpty_flip, getItemName_flip. intros Hne.
    specialize (Hown Hne). simpl in Hown. rewrite <- Hown.
    destruct c. now destruct s.
  - unfold ContainerObject_relPathsCoherent. simpl. intros H.
    apply Forall_fmap.
    eapply Forall_impl; [exact (Forall_both _ _ _ IH H)|].
    intros d [Hd1 Hd2]. simpl.
    replace (getRelativePath (getOtherSide s) (mkContainerObject
               (map FilePair_flip fs) (map SymlinkPair_flip ls) (map FolderPair_flip ds) rR rL))
      with (getRelativePath s (mkContainerObject fs ls ds rL rR)) by (now destruct s).
    now apply Hd1.
Qed.

Lemma FolderPair_call_coherent call pL pR (d d' : FolderPair) (s : SelectSide) :
  FolderPair_call call pL pR d = Some d' ->
  relPathsCoherent s (selectParam s pL pR) d ->
  relPathsCoherent s (selectParam s pL pR) d'.
Proof.
  destruct call; simpl; intros [= <-];
    try (apply relPathsCoherent_same; auto; fail).
  - apply FolderPair_removeObject_coherent.
  - intros H. unfold FolderPair_setSyncedTo. apply FolderPair_setSynced_coherent.
    revert H. apply relPathsCoherent_same; auto.
Qed.

Lemma enclosing_coherent notified (d : FolderPair) (c' : ContainerObject) (s : SelectSide) p :
  getRelativePath s c' = getRelativePath s (dirCont d) ->
  (ContainerObject_relPathsCoherent s (dirCont d) -> ContainerObject_relPathsCoherent s c') ->
  relPathsCoherent s p d -> relPathsCoherent s p (enclosing notified d c').
Proof. intros Hrel Hsub. apply relPathsCoherent_same; auto. Qed.

Lemma Container_applyAt_coherent call target (path : list nat) (s : SelectSide) :
  forall c c',
    Container_applyAt call path target c = Some c' ->
    getRelativePath s c' = getRelativePath s c
    /\ (ContainerObject_relPathsCoherent s c -> ContainerObject_relPathsCoherent s c').
Proof.
  induction path as [|i path IH]; intros c c' Happ; simpl in Happ.
  - destruct target as [i|i|i].
    + destruct (subFiles_ c !! i) as [f|]; [|discriminate]. simpl in Happ.
      destruct (FilePair_call call f) as [f'|]; [|discriminate].
      injection Happ as <-. destruct c. now split.
    + destruct (subLinks_ c !! i) as [l|]; [|discriminate]. simpl in Happ.
      destruct (SymlinkPair_call call l) as [l'|]; [|discriminate].
      injection Happ as <-. destruct c. now split.
    + destruct (subFolders_ c !! i) as [d|] eqn:Ei; [|discriminate]. simpl in Happ.
      destruct (FolderPair_call call _ _ d) as [d'|] eqn:Ed; [|discriminate].
      injection Happ as <-. destruct c as [fs ls ds rL rR].
      split; [reflexivity|].
      unfold ContainerObject_relPathsCoherent, getRelativePath. simpl in *. intros H.
      apply Forall_insert; [exact H|].
      eapply FolderPair_call_coherent; [exact Ed|].
      exact (Forall_lookup_1 _ _ _ _ H Ei).
  - destruct (subFolders_ c !! i) as [d|] eqn:Ei; [|discriminate]. simpl in Happ.
    destruct (Container_applyAt call path target (dirCont d)) as [c1|] eqn:E1; [|discriminate].
    injection Happ as <-. destruct c as [fs ls ds rL rR].
    split; [reflexivity|].
    unfold ContainerObject_relPathsCoherent, getRelativePath. simpl in *. intros H.
    apply Forall_insert; [exact H|].
    destruct (IH _ _ E1) as [Hrel Hsub].
    apply enclosing_coherent; auto.
    exact (Forall_lookup_1 _ _ _ _ H Ei).
Qed.

Lemma FolderPair_new_coherent nL aL cat nR aR pL pR (s : SelectSide) :
  relPathsCoherent s (selectParam s pL pR) (FolderPair_new nL aL cat nR aR pL pR).
Proof.
  apply relPathsCoherent_eq. split; [now destruct s | constructor].
Qed.

Lemma ContainerObject_add_coherent item (c : ContainerObject) (s : SelectSide) :
  getRelativePath s (ContainerObject_add item c) = getRelativePath s c
  /\ (ContainerObject_relPathsCoherent s c ->
      ContainerObject_relPathsCoherent s (ContainerObject_add item c)).
Proof.
  destruct c as [fs ls ds rL rR].
  unfold ContainerObject_relPathsCoherent, getRelativePath.
  destruct item as [nL aL cat nR aR|[] n a|nL aL cat nR aR|[] n a|nL aL cat nR aR|[] n a];
    simpl; (split; [reflexivity|]); auto;
    intros H; apply Forall_app; (split; [exact H|]);
    (constructor; [apply FolderPair_new_coherent | constructor]).
Qed.

Lemma Container_addAt_coherent item (path : list nat) (s : SelectSide) :
  forall c c',
    Container_addAt item path c = Some c' ->
    getRelativePath s c' = getRelativePath s c
    /\ (ContainerObject_relPathsCoherent s c -> ContainerObject_relPathsCoherent s c').
Proof.
  induction path as [|i path IH]; intros c c' Hadd; simpl in Hadd.
  - injection Hadd as <-. apply ContainerObject_add_coherent.
  - destruct (subFolders_ c !! i) as [d|] eqn:Ei; [|discriminate]. simpl in Hadd.
    destruct (Container_addAt item path (dirCont d)) as [c1|] eqn:E1; [|discriminate].
    injection Hadd as <-. destruct c as [fs ls ds rL rR].
    split; [reflexivity|].
    unfold ContainerObject_relPathsCoherent, getRelativePath. simpl in *. intros H.
    apply Forall_insert; [exact H|].
    destruct (IH _ _ E1) as [Hrel Hsub].
    apply enclosing_coherent; auto.
    exact (Forall_lookup_1 _ _ _ _ H Ei).
Qed.

Lemma ContainerObject_flip_coherent (s : SelectSide) (c : ContainerObject) :
  ContainerObject_relPathsCoherent s c ->
  ContainerObject_relPathsCoherent (getOtherSide s) (ContainerObject_flip c).
Proof.
  destruct c as [fs ls ds rL rR]. unfold ContainerObject_relPathsCoherent. simpl. intros H.
  apply Forall_fmap. eapply Forall_impl; [exact H|]. intros d Hd. simpl.
  replace (getRelativePath (getOtherSide s) (mkContainerObject
             (map FilePair_flip fs) (map SymlinkPair_flip ls) (map FolderPair_flip ds) rR rL))
    with (getRelativePath s (mkContainerObject fs ls ds rL rR)) by (now destruct s).
  now apply FolderPair_flip_coherent.
Qed.

(** In every tree that arises from a new base folder by adding items, by
    the public mutators and by [flip], every folder that is not
    pair-empty has, on each side, the cached relative path of its parent
    with its own name on that side appended. *)
Theorem relative_paths_coherent (b : Base) :
  Reachable b ->
  forall side, ContainerObject_relPathsCoherent side (baseCont b).
Proof.
  induction 1 as [pL sL pR sR filter cmpVar tol shifts | b b' _ IH Hstep]; intros side.
  - constructor.
  - destruct Hstep as [call path target b c' H | item path b c' H | b]; simpl.
    + now apply (Container_applyAt_coherent _ _ _ side _ _ H).
    + now apply (Container_addAt_coherent _ _ side _ _ H).
    + replace side with (getOtherSide (getOtherSide side)) by (now destruct side).
      apply ContainerObject_flip_coherent, IH.
Qed.

(** ** The raw content of a side *)

Lemma alter_const_insert {A : Type} (m : gmap string A) (k : string) (x y : A) :
  m !! k = Some y -> alter (fun _ => x) k m = <[k := x]> m.
Proof.
  intros Hk. apply map_eq. intros j.
  rewrite lookup_alter, lookup_insert.
  destruct (decide (k = j)) as [<-|]; [now rewrite Hk | reflexivity].
Qed.

Lemma FolderContainer_addFile_insert (itemName : Zstring) (attr : FileAttributes)
    (fc : FolderContainer) :
  FolderContainer_addFile itemName attr fc =
  mkFolderContainer (<[itemName := attr]> (files fc)) (symlinks fc) (folders fc).
Proof.
  unfold FolderContainer_addFile.
  destruct (files fc !! itemName) eqn:E; [|reflexivity].
  now rewrite (alter_const_insert _ _ _ _ E).
Qed.

Lemma FolderContainer_addLink_insert (itemName : Zstring) (attr : LinkAttributes)
    (fc : FolderContainer) :
  FolderContainer_addLink itemName attr fc =
  mkFolderContainer (files fc) (<[itemName := attr]> (symlinks fc)) (folders fc).
Proof.
  unfold FolderContainer_addLink.
  destruct (symlinks fc !! itemName) eqn:E; [|reflexivity].
  now rewrite (alter_const_insert _ _ _ _ E).
Qed.

(** [addFile] and [addLink] leave the name mapped to the given
    attributes whether it was present or not, change no other entry, and
    a second call for the same name replaces the first;  [addFolder] sets
    the attributes of the entry, keeps the content the entry had (empty
    for a new one), returns that content and changes no other entry. *)
Theorem FolderContainer_add_post (itemName : Zstring) (fc : FolderContainer) :
  (forall attr,
      files (FolderContainer_addFile itemName attr fc) !! itemName = Some attr
      /\ (forall other, other <> itemName ->
            files (FolderContainer_addFile itemName attr fc) !! other = files fc !! other)
      /\ symlinks (FolderContainer_addFile itemName attr fc) = symlinks fc
      /\ folders (FolderContainer_addFile itemName attr fc) = folders fc
      /\ (forall attr', FolderContainer_addFile itemName attr
                          (FolderContainer_addFile itemName attr' fc) =
                        FolderContainer_addFile itemName attr fc))
  /\ (forall attr,
      symlinks (FolderContainer_addLink itemName attr fc) !! itemName = Some attr
      /\ (forall other, other <> itemName ->
            symlinks (FolderContainer_addLink itemName attr fc) !! other =
            symlinks fc !! other)
      /\ files (FolderContainer_addLink itemName attr fc) = files fc
      /\ folders (FolderContainer_addLink itemName attr fc) = folders fc)
  /\ (forall attr,
      let (fc', sub) := FolderContainer_addFolder itemName attr fc in
      folders fc' !! itemName = Some (mkFolderEntry attr sub)
      /\ sub = match folders fc !! itemName with
               | Some p => second p
               | None => FolderContainer_default
               end
      /\ (forall other, other <> itemName -> folders fc' !! other = folders fc !! other)
      /\ files fc' = files fc /\ symlinks fc' = symlinks fc).
Proof.
  split; [|split].
  - intros attr. rewrite !FolderContainer_addFile_insert. simpl.
    split; [apply lookup_insert_eq|].
    split; [intros other Hne; now apply lookup_insert_ne|].
    do 2 (split; [reflexivity|]).
    intros attr'. rewrite !FolderContainer_addFile_insert. simpl.
    now rewrite insert_insert_eq.
  - intros attr. rewrite !FolderContainer_addLink_insert. simpl.
    split; [apply lookup_insert_eq|].
    split; [intros other Hne; now apply lookup_insert_ne|].
    now split.
  - intros attr. unfold FolderContainer_addFolder. simpl.
    split; [apply lookup_insert_eq|].
    split; [now destruct (folders fc !! itemName)|].
    split; [intros other Hne; now apply lookup_insert_ne|].
    now split.
Qed.

(** ** Flip exchanges the two sides of every call *)

(** The call that does on the other side what [call] does on this one.
    The direction given to [setSyncDir] is kept: [flip] does not touch
    directions either. *)
Definition mirrorCategory (res : SettableCategory) : SettableCategory :=
  match res with
  | Set_FILE_LEFT_NEWER => Set_FILE_RIGHT_NEWER
  | Set_FILE_RIGHT_NEWER => Set_FILE_LEFT_NEWER
  | Set_FILE_EQUAL => Set_FILE_EQUAL
  | Set_FILE_DIFFERENT_CONTENT => Set_FILE_DIFFERENT_CONTENT
  end.

Definition mirrorCall (call : ItemCall) : ItemCall :=
  match call with
  | CallRemoveObject side => CallRemoveObject (getOtherSide side)
  | CallSetCategory res => CallSetCategory (mirrorCategory res)
  | CallClearFilePrint side => CallClearFilePrint (getOtherSide side)
  | CallFileSetSyncedTo sideTrg itemName size tT tS pT pS lT lS =>
      CallFileSetSyncedTo (getOtherSide sideTrg) itemName size tT tS pT pS lT lS
  | CallLinkSetSyncedTo sideTrg itemName tT tS =>
      CallLinkSetSyncedTo (getOtherSide sideTrg) itemName tT tS
  | CallFolderSetSyncedTo sideTrg itemName lT lS =>
      CallFolderSetSyncedTo (getOtherSide sideTrg) itemName lT lS
  | CallSetSyncDir _ | CallSetSyncDirConflict _ | CallSetActive _
  | CallSetCategoryConflict _ | CallSetCategoryDiffMetadata _ | CallSetMoveRef _ => call
  end.

Definition mirrorItem (item : NewItem) : NewItem :=
  match item with
  | NewFile nL aL cat nR aR => NewFile nR aR (flipCategory cat) nL aL
  | NewFileOn side n a => NewFileOn (getOtherSide side) n a
  | NewLink nL aL cat nR aR => NewLink nR aR (flipCategory cat) nL aL
  | NewLinkOn side n a => NewLinkOn (getOtherSide side) n a
  | NewFolder nL aL cat nR aR => NewFolder nR aR (flipCategory cat) nL aL
  | NewFolderOn side n a => NewFolderOn (getOtherSide side) n a
  end.

Lemma FileSystemObject_new_flip nL nR cat :
  FileSystemObject_flip (FileSystemObject_new nL nR cat) =
  FileSystemObject_new nR nL (flipCategory cat).
Proof.
  unfold FileSystemObject_flip, FileSystemObject_new. simpl.
  destruct (String.eqb_spec nL nR) as [->|Hne].
  - now rewrite String.eqb_refl.
  - destruct (String.eqb_spec nR nL) as [->|_]; [contradiction | reflexivity].
Qed.

Lemma FileSystemObject_removeObject_flip (side : SelectSide) (o : FileSystemObject) :
  FileSystemObject_removeObject (getOtherSide side) (FileSystemObject_flip o) =
  FileSystemObject_flip (FileSystemObject_removeObject side o).
Proof.
  destruct o as [descr cat sel dir conflict nL nR].
  destruct side; unfold FileSystemObject_removeObject, removeObject_names,
    FileSystemObject_flip, setSyncDir, isEmpty; simpl.
  - now destruct (Zempty nR).
  - now destruct (Zempty nL).
Qed.

Lemma FilePair_call_flip call (f : FilePair) :
  FilePair_call (mirrorCall call) (FilePair_flip f) = FilePair_flip <$> FilePair_call call f.
Proof.
  destruct f as [o aL aR m]. destruct call; try reflexivity.
  - destruct side; unfold FilePair_call, mirrorCall, FilePair_removeObject, FilePair_flip;
      cbn [fileObj fileAttrL_ fileAttrR_ moveFileRef_ fmap option_fmap option_map getOtherSide];
      [ rewrite <- (FileSystemObject_removeObject_flip left_side)
      | rewrite <- (FileSystemObject_removeObject_flip right_side) ]; reflexivity.
  - now destruct res.
  - now destruct side.
  - now destruct sideTrg.
Qed.

Lemma SymlinkPair_call_flip call (l : SymlinkPair) :
  SymlinkPair_call (mirrorCall call) (SymlinkPair_flip l) =
  SymlinkPair_flip <$> SymlinkPair_call call l.
Proof.
  destruct l as [o aL aR]. destruct call; try reflexivity.
  - destruct side;
      unfold SymlinkPair_call, mirrorCall, SymlinkPair_removeObject, SymlinkPair_flip;
      cbn [linkObj linkAttrL_ linkAttrR_ fmap option_fmap option_map getOtherSide];
      [ rewrite <- (FileSystemObject_removeObject_flip left_side)
      | rewrite <- (FileSystemObject_removeObject_flip right_side) ]; reflexivity.
  - now destruct res.
  - now destruct sideTrg.
Qed.

Lemma map_map_pointwise2 {A B : Type} (g h : A -> B) (l : list A) :
  Forall (fun x => g x = h x) l -> map g l = map h l.
Proof. induction 1 as [|x l Hx _ IH]; simpl; [reflexivity | now rewrite Hx, IH]. Qed.

Lemma updateRelPathsRecursion_flip (side : SelectSide) (d : FolderPair) :
  forall p,
    updateRelPathsRecursion (getOtherSide side) p (FolderPair_flip d) =
    FolderPair_flip (updateRelPathsRecursion side p d).
Proof.
  induction d as [o aL aR buf c IH | fs ls ds rL rR IH]
    using FolderPair_tree_ind
    with (Q := fun c => forall p,
                map (fun d => updateRelPathsRecursion (getOtherSide side) p (FolderPair_flip d))
                  (subFolders_ c) =
                map (fun d => FolderPair_flip (updateRelPathsRecursion side p d))
                  (subFolders_ c)).
  - intros p. destruct c as [fs ls ds rL rR]. simpl in IH.
    specialize (IH (appendPath p (getItemName side o))).
    destruct side; simpl; rewrite !map_map;
      change (getItemName right_side (FileSystemObject_flip o))
        with (getItemName (getOtherSide left_side) (FileSystemObject_flip o)) ||
      change (getItemName left_side (FileSystemObject_flip o))
        with (getItemName (getOtherSide right_side) (FileSystemObject_flip o));
      rewrite getItemName_flip; simpl in IH; now rewrite IH.
  - intros p. simpl. apply map_map_pointwise2.
    eapply Forall_impl; [exact IH|]. intros d Hd. apply Hd.
Qed.

Lemma propagateChangedItemName_flip (side : SelectSide) pL pR old (d : FolderPair) :
  propagateChangedItemName (getOtherSide side) pR pL old (FolderPair_flip d) =
  FolderPair_flip (propagateChangedItemName side pL pR old d).
Proof.
  unfold propagateChangedItemName.
  replace (dirObj (FolderPair_flip d)) with (FileSystemObject_flip (dirObj d))
    by (now destruct d).
  rewrite getItemName_flip. simpl.
  rewrite (andb_comm (Zempty (itemNameR_ (dirObj d)))).
  destruct (Zempty (itemNameL_ (dirObj d)) && Zempty (itemNameR_ (dirObj d))); [reflexivity|].
  destruct (negb (String.eqb old (getItemName side (dirObj d)))); [|reflexivity].
  rewrite <- updateRelPathsRecursion_flip. now destruct side.
Qed.

Lemma FilePair_removeObject_flip (side : SelectSide) (f : FilePair) :
  FilePair_removeObject (getOtherSide side) (FilePair_flip f) =
  FilePair_flip (FilePair_removeObject side f).
Proof.
  pose proof (FilePair_call_flip (CallRemoveObject side) f) as H.
  simpl in H. now injection H.
Qed.

Lemma SymlinkPair_removeObject_flip (side : SelectSide) (l : SymlinkPair) :
  SymlinkPair_removeObject (getOtherSide side) (SymlinkPair_flip l) =
  SymlinkPair_flip (SymlinkPair_removeObject side l).
Proof.
  pose proof (SymlinkPair_call_flip (CallRemoveObject side) l) as H.
  simpl in H. now injection H.
Qed.

Lemma FolderPair_removeObject_flip (side : SelectSide) (d : FolderPair) :
  forall pL pR,
    FolderPair_removeObject (getOtherSide side) pR pL (FolderPair_flip d) =
    FolderPair_flip (FolderPair_removeObject side pL pR d).
Proof.
  induction d as [o aL aR buf c IH | fs ls ds rL rR IH]
    using FolderPair_tree_ind
    with (Q := fun c => forall pL pR,
                map (fun d => FolderPair_removeObject (getOtherSide side) pR pL
                                (FolderPair_flip d)) (subFolders_ c) =
                map (fun d => FolderPair_flip (FolderPair_removeObject side pL pR d))
                  (subFolders_ c)).
  - intros pL pR. destruct c as [fs ls ds rL rR]. simpl in IH.
    cbn [FolderPair_flip ContainerObject_flip].
    rewrite !FolderPair_removeObject_eq, <- propagateChangedItemName_flip, getItemName_flip.
    f_equal. cbn [FolderPair_flip ContainerObject_flip].
    rewrite FileSystemObject_removeObject_flip, !map_map, (IH rL rR).
    f_equal; [now destruct side | now destruct side |].
    f_equal; apply map_ext; intros x;
      [apply FilePair_removeObject_flip | apply SymlinkPair_removeObject_flip].
  - intros pL pR. simpl. apply map_map_pointwise2.
    eapply Forall_impl; [exact IH|]. intros d Hd. apply Hd.
Qed.

(** The caches of the two sides are updated independently. *)
Lemma updateRelPathsRecursion_comm (d : FolderPair) :
  forall p q,
    updateRelPathsRecursion left_side p (updateRelPathsRecursion right_side q d) =
    updateRelPathsRecursion right_side q (updateRelPathsRecursion left_side p d).
Proof.
  induction d as [o aL aR buf c IH | fs ls ds rL rR IH]
    using FolderPair_tree_ind
    with (Q := fun c => forall p q,
                map (fun d => updateRelPathsRecursion left_side p
                                (updateRelPathsRecursion right_side q d)) (subFolders_ c) =
                map (fun d => updateRelPathsRecursion right_side q
                                (updateRelPathsRecursion left_side p d)) (subFolders_ c)).
  - intros p q. destruct c as [fs ls ds rL rR]. simpl in IH. simpl.
    rewrite !map_map. now rewrite IH.
  - intros p q. simpl. apply map_map_pointwise2.
    eapply Forall_impl; [exact IH|]. intros d Hd. apply Hd.
Qed.

Lemma propagateChangedItemName_comm pL pR oldL oldR (d : FolderPair) :
  propagateChangedItemName left_side pL pR oldL
    (propagateChangedItemName right_side pL pR oldR d) =
  propagateChangedItemName right_side pL pR oldR
    (propagateChangedItemName left_side pL pR oldL d).
Proof.
  unfold propagateChangedItemName.
  destruct (Zempty (itemNameL_ (dirObj d)) && Zempty (itemNameR_ (dirObj d))) eqn:E.
  - now rewrite E.
  - destruct (negb (String.eqb oldR (getItemName right_side (dirObj d)))) eqn:ER;
      destruct (negb (String.eqb oldL (getItemName left_side (dirObj d)))) eqn:EL;
      rewrite ?updateRelPathsRecursion_dirObj, ?E, ?ER, ?EL; try reflexivity.
    apply updateRelPathsRecursion_comm.
Qed.

Lemma FolderPair_setSynced_flip itemName pL pR (d : FolderPair) :
  FolderPair_setSynced itemName pR pL (FolderPair_flip d) =
  FolderPair_flip (FolderPair_setSynced itemName pL pR d).
Proof.
  destruct d as [o aL aR buf c]. unfold FolderPair_setSynced.
  cbn [FolderPair_flip dirObj dirAttrL_ dirAttrR_ dirCont].
  rewrite (getItemName_flip right_side o : getItemName left_side _ = _).
  rewrite (getItemName_flip left_side o : getItemName right_side _ = _).
  rewrite <- (propagateChangedItemName_flip right_side), <- (propagateChangedItemName_flip left_side).
  cbn [getOtherSide FolderPair_flip].
  now rewrite propagateChangedItemName_comm.
Qed.

Lemma FolderPair_call_flip call pL pR (d : FolderPair) :
  FolderPair_call (mirrorCall call) pR pL (FolderPair_flip d) =
  FolderPair_flip <$> FolderPair_call call pL pR d.
Proof.
  destruct call; try reflexivity;
    try (destruct d as [o aL aR buf c]; reflexivity).
  - simpl. now rewrite FolderPair_removeObject_flip.
  - destruct d as [o aL aR buf c]. now destruct res.
  - simpl. unfold FolderPair_setSyncedTo. rewrite <- FolderPair_setSynced_flip.
    destruct d as [o aL aR buf c]. now destruct sideTrg.
Qed.

Lemma enclosing_flip notified notified' (d : FolderPair) (c' : ContainerObject) :
  enclosing notified' (FolderPair_flip d) (ContainerObject_flip c') =
  FolderPair_flip (enclosing notified d c').
Proof. destruct d as [o aL aR buf c]. unfold enclosing. simpl. now destruct notified'. Qed.

Lemma dirCont_flip (d : FolderPair) :
  dirCont (FolderPair_flip d) = ContainerObject_flip (dirCont d).
Proof. now destruct d. Qed.

Lemma Container_applyAt_flip call (path : list nat) target :
  forall c,
    Container_applyAt (mirrorCall call) path target (ContainerObject_flip c) =
    ContainerObject_flip <$> Container_applyAt call path target c.
Proof.
  induction path as [|i path IH]; intros [fs ls ds rL rR].
  - destruct target as [i|i|i]; cbn [Container_applyAt ContainerObject_flip subFiles_
      subLinks_ subFolders_ relPathL_ relPathR_]; rewrite list_lookup_fmap.
    + destruct (fs !! i) as [f|]; [|reflexivity]. cbn [fmap option_fmap option_map mbind option_bind].
      rewrite FilePair_call_flip. destruct (FilePair_call call f) as [f'|]; [|reflexivity].
      simpl. unfold withSubFiles. simpl. now rewrite list_fmap_insert.
    + destruct (ls !! i) as [l|]; [|reflexivity]. cbn [fmap option_fmap option_map mbind option_bind].
      rewrite SymlinkPair_call_flip. destruct (SymlinkPair_call call l) as [l'|]; [|reflexivity].
      simpl. unfold withSubLinks. simpl. now rewrite list_fmap_insert.
    + destruct (ds !! i) as [d|]; [|reflexivity]. cbn [fmap option_fmap option_map mbind option_bind].
      rewrite FolderPair_call_flip. destruct (FolderPair_call call rL rR d) as [d'|]; [|reflexivity].
      simpl. unfold withSubFolders. simpl. now rewrite list_fmap_insert.
  - cbn [Container_applyAt ContainerObject_flip subFolders_]. rewrite list_lookup_fmap.
    destruct (ds !! i) as [d|]; [|reflexivity]. cbn [fmap option_fmap option_map mbind option_bind].
    rewrite dirCont_flip, IH.
    destruct (Container_applyAt call path target (dirCont d)) as [c'|]; [|reflexivity].
    simpl. unfold withSubFolders. simpl.
    now rewrite (enclosing_flip (notifies call)), list_fmap_insert.
Qed.

Lemma FolderPair_new_flip nL aL cat nR aR pL pR :
  FolderPair_flip (FolderPair_new nL aL cat nR aR pL pR) =
  FolderPair_new nR aR (flipCategory cat) nL aL pR pL.
Proof.
  unfold FolderPair_new. cbn [FolderPair_flip ContainerObject_flip map].
  rewrite FileSystemObject_new_flip.
  rewrite <- (FileSystemObject_new_flip nL nR cat).
  change (getItemName left_side (FileSystemObject_flip ?o))
    with (getItemName (getOtherSide right_side) (FileSystemObject_flip o)).
  change (getItemName right_side (FileSystemObject_flip ?o))
    with (getItemName (getOtherSide left_side) (FileSystemObject_flip o)).
  now rewrite !getItemName_flip.
Qed.

Lemma ContainerObject_add_flip (item : NewItem) (c : ContainerObject) :
  ContainerObject_add (mirrorItem item) (ContainerObject_flip c) =
  ContainerObject_flip (ContainerObject_add item c).
Proof.
  destruct c as [fs ls ds rL rR].
  destruct item as [nL aL cat nR aR | side n a | nL aL cat nR aR | side n a
                   | nL aL cat nR aR | side n a];
    try destruct side;
    cbn [ContainerObject_add mirrorItem ContainerObject_flip getOtherSide];
    rewrite map_app; cbn [map];
    rewrite ?FolderPair_new_flip; unfold FilePair_new, SymlinkPair_new, FilePair_flip,
      SymlinkPair_flip; cbn [fileObj fileAttrL_ fileAttrR_ moveFileRef_ linkObj linkAttrL_
      linkAttrR_]; rewrite ?FileSystemObject_new_flip; reflexivity.
Qed.

Lemma Container_addAt_flip (item : NewItem) (path : list nat) :
  forall c,
    Container_addAt (mirrorItem item) path (ContainerObject_flip c) =
    ContainerObject_flip <$> Container_addAt item path c.
Proof.
  induction path as [|i path IH]; intros c.
  - simpl. now rewrite ContainerObject_add_flip.
  - destruct c as [fs ls ds rL rR].
    cbn [Container_addAt ContainerObject_flip subFolders_]. rewrite list_lookup_fmap.
    destruct (ds !! i) as [d|]; [|reflexivity]. cbn [fmap option_fmap option_map mbind option_bind].
    rewrite dirCont_flip, IH.
    destruct (Container_addAt item path (dirCont d)) as [c'|]; [|reflexivity].
    simpl. unfold withSubFolders. simpl.
    now rewrite (enclosing_flip true), list_fmap_insert.
Qed.

(** [flip] exchanges the two sides of every
    operation: the mirrored call on the flipped tree gives exactly the
    flip of the call on the tree, for every call on an item at any depth
    and for every new item; a call that has no such item has none after
    the flip either.  Mirroring twice gives the call back. *)
Theorem flip_mirrors_calls :
  (forall call, mirrorCall (mirrorCall call) = call) /\
  (forall item, mirrorItem (mirrorItem item) = item) /\
  (forall call path target (c : ContainerObject),
      Container_applyAt (mirrorCall call) path target (ContainerObject_flip c) =
      ContainerObject_flip <$> Container_applyAt call path target c) /\
  (forall item path (c : ContainerObject),
      Container_addAt (mirrorItem item) path (ContainerObject_flip c) =
      ContainerObject_flip <$> Container_addAt item path c).
Proof.
  split; [|split; [|split]].
  - intros [ | | | [] | [] | | | | [] | [] | [] | [] ]; reflexivity.
  - intros [nL aL [] nR aR | [] n a | nL aL [] nR aR | [] n a | nL aL [] nR aR | [] n a];
      reflexivity.
  - intros call path target c. apply Container_applyAt_flip.
  - intros item path c. apply Container_addAt_flip.
Qed.

(** ** Removing twice *)

(** What [removeObject<side>] leaves behind in a folder and below it:
    nothing that a further [removeObject<side>] would write. *)
Fixpoint removedBelow (side : SelectSide) (d : FolderPair) : Prop :=
  match d with
  | mkFolderPair o aL aR buf (mkContainerObject fs ls ds _ _) =>
      FileSystemObject_removeObject side o = o /\
      selectParam side aL aR = FolderAttributes_default /\
      buf = None /\
      map (FilePair_removeObject side) fs = fs /\
      map (SymlinkPair_removeObject side) ls = ls /\
      fold_right (fun d' rest => removedBelow side d' /\ rest) True ds
  end.

Lemma fold_right_and_Forall {A : Type} (P : A -> Prop) (l : list A) :
  fold_right (fun x rest => P x /\ rest) True l <-> Forall P l.
Proof.
  induction l as [|x l IH]; simpl.
  - split; [constructor | trivial].
  - rewrite IH. split.
    + intros [Hx Hl]. now constructor.
    + intros H. now inversion H.
Qed.

Lemma FileSystemObject_removeObject_twice (side : SelectSide) (o : FileSystemObject) :
  FileSystemObject_removeObject side (FileSystemObject_removeObject side o) =
  FileSystemObject_removeObject side o.
Proof.
  destruct o as [descr cat sel dir conflict nL nR].
  destruct side; unfold FileSystemObject_removeObject, removeObject_names, setSyncDir, isEmpty;
    reflexivity.
Qed.

Lemma FilePair_removeObject_twice (side : SelectSide) (f : FilePair) :
  FilePair_removeObject side (FilePair_removeObject side f) = FilePair_removeObject side f.
Proof.
  destruct f as [o aL aR m].
  destruct side; unfold FilePair_removeObject; cbn [fileObj fileAttrL_ fileAttrR_ moveFileRef_];
    now rewrite FileSystemObject_removeObject_twice.
Qed.

Lemma SymlinkPair_removeObject_twice (side : SelectSide) (l : SymlinkPair) :
  SymlinkPair_removeObject side (SymlinkPair_removeObject side l) =
  SymlinkPair_removeObject side l.
Proof.
  destruct l as [o aL aR].
  destruct side; unfold SymlinkPair_removeObject; cbn [linkObj linkAttrL_ linkAttrR_];
    now rewrite FileSystemObject_removeObject_twice.
Qed.

Lemma map_fixed {A : Type} (g : A -> A) (l : list A) :
  Forall (fun x => g x = x) l -> map g l = l.
Proof. induction 1 as [|x l Hx _ IH]; simpl; [reflexivity | now rewrite Hx, IH]. Qed.

Lemma removedBelow_update (side side' : SelectSide) (d : FolderPair) :
  forall p, removedBelow side d -> removedBelow side (updateRelPathsRecursion side' p d).
Proof.
  induction d as [o aL aR buf c IH | fs ls ds rL rR IH]
    using FolderPair_tree_ind
    with (Q := fun c => Forall (fun d => forall p, removedBelow side d ->
                  removedBelow side (updateRelPathsRecursion side' p d)) (subFolders_ c)).
  - intros p. destruct c as [fs ls ds rL rR]. simpl in IH.
    intros (Ho & Ha & Hb & Hf & Hl & Hd). apply fold_right_and_Forall in Hd.
    assert (Forall (removedBelow side)
              (map (updateRelPathsRecursion side' (appendPath p (getItemName side' o))) ds))
      as Hd'.
    { apply Forall_fmap. eapply Forall_impl; [exact (Forall_both _ _ _ IH Hd)|].
      intros d [H1 H2]. simpl. now apply H1. }
    apply fold_right_and_Forall in Hd'.
    destruct side'; simpl; repeat split; assumption.
  - exact IH.
Qed.

Lemma removedBelow_fixed (side : SelectSide) (d : FolderPair) :
  forall pL pR, removedBelow side d -> FolderPair_removeObject side pL pR d = d.
Proof.
  induction d as [o aL aR buf c IH | fs ls ds rL rR IH]
    using FolderPair_tree_ind
    with (Q := fun c => Forall (fun d => forall pL pR, removedBelow side d ->
                  FolderPair_removeObject side pL pR d = d) (subFolders_ c)).
  - intros pL pR. destruct c as [fs ls ds rL rR]. simpl in IH.
    intros (Ho & Ha & Hb & Hf & Hl & Hd). apply fold_right_and_Forall in Hd.
    rewrite FolderPair_removeObject_eq, Ho, Hf, Hl. subst buf.
    rewrite (map_fixed (FolderPair_removeObject side rL rR) ds).
    2:{ eapply Forall_impl; [exact (Forall_both _ _ _ IH Hd)|].
        intros d [H1 H2]. now apply H1. }
    replace (selectParam side FolderAttributes_default aL) with aL
      by (destruct side; simpl in *; congruence).
    replace (selectParam side aR FolderAttributes_default) with aR
      by (destruct side; simpl in *; congruence).
    unfold propagateChangedItemName. cbn [dirObj].
    rewrite String.eqb_refl. simpl. now destruct (_ && _).
  - exact IH.
Qed.

Lemma FolderPair_removeObject_removedBelow (side : SelectSide) (d : FolderPair) :
  forall pL pR, removedBelow side (FolderPair_removeObject side pL pR d).
Proof.
  induction d as [o aL aR buf c IH | fs ls ds rL rR IH]
    using FolderPair_tree_ind
    with (Q := fun c => Forall (fun d => forall pL pR,
                  removedBelow side (FolderPair_removeObject side pL pR d)) (subFolders_ c)).
  - intros pL pR. destruct c as [fs ls ds rL rR]. simpl in IH.
    rewrite FolderPair_removeObject_eq.
    assert (removedBelow side
              (mkFolderPair (FileSystemObject_removeObject side o)
                 (selectParam side FolderAttributes_default aL)
                 (selectParam side aR FolderAttributes_default) None
                 (mkContainerObject (map (FilePair_removeObject side) fs)
                    (map (SymlinkPair_removeObject side) ls)
                    (map (FolderPair_removeObject side rL rR) ds) rL rR))) as Hd'.
    { simpl. repeat split.
      - apply FileSystemObject_removeObject_twice.
      - now destruct side.
      - rewrite map_map. apply map_ext. intros f. apply FilePair_removeObject_twice.
      - rewrite map_map. apply map_ext. intros l. apply SymlinkPair_removeObject_twice.
      - apply fold_right_and_Forall, Forall_fmap.
        eapply Forall_impl; [exact IH|]. intros d Hd. apply Hd. }
    unfold propagateChangedItemName.
    destruct (_ && _); [exact Hd'|].
    destruct (negb _); [|exact Hd'].
    now apply removedBelow_update.
  - exact IH.
Qed.

Lemma Container_applyAt_removeObject_twice (side : SelectSide) (path : list nat) target :
  forall c c',
    Container_applyAt (CallRemoveObject side) path target c = Some c' ->
    Container_applyAt (CallRemoveObject side) path target c' = Some c'.
Proof.
  induction path as [|i path IH]; intros [fs ls ds rL rR] c'.
  - destruct target as [i|i|i]; cbn [Container_applyAt subFiles_ subLinks_ subFolders_
      relPathL_ relPathR_].
    + destruct (fs !! i) as [f|] eqn:E; [|discriminate]. simpl. intros [= <-].
      unfold withSubFiles. simpl.
      rewrite list_lookup_insert_eq by (eapply lookup_lt_Some; exact E). simpl.
      now rewrite FilePair_removeObject_twice, list_insert_insert_eq.
    + destruct (ls !! i) as [l|] eqn:E; [|discriminate]. simpl. intros [= <-].
      unfold withSubLinks. simpl.
      rewrite list_lookup_insert_eq by (eapply lookup_lt_Some; exact E). simpl.
      now rewrite SymlinkPair_removeObject_twice, list_insert_insert_eq.
    + destruct (ds !! i) as [d|] eqn:E; [|discriminate]. simpl. intros [= <-].
      unfold withSubFolders. simpl.
      rewrite list_lookup_insert_eq by (eapply lookup_lt_Some; exact E). simpl.
      rewrite (removedBelow_fixed side _ rL rR)
        by apply FolderPair_removeObject_removedBelow.
      now rewrite list_insert_insert_eq.
  - cbn [Container_applyAt subFolders_].
    destruct (ds !! i) as [d|] eqn:E; [|discriminate]. simpl.
    destruct (Container_applyAt (CallRemoveObject side) path target (dirCont d))
      as [c1|] eqn:E1; [|discriminate]. simpl. intros [= <-].
    unfold withSubFolders. simpl.
    rewrite list_lookup_insert_eq by (eapply lookup_lt_Some; exact E). simpl.
    rewrite (IH _ _ E1). simpl. now rewrite list_insert_insert_eq.
Qed.

(** [removeObject<side>] is idempotent: a
    second call for the same side changes neither the item nor anything
    below it, whatever relative paths the parent has by then; a tree in
    which an item at any depth was removed on one side is left as it is
    by removing that item on that side again. *)
Theorem removeObject_idempotent (side : SelectSide) :
  (forall f : FilePair,
      FilePair_removeObject side (FilePair_removeObject side f) =
      FilePair_removeObject side f) /\
  (forall l : SymlinkPair,
      SymlinkPair_removeObject side (SymlinkPair_removeObject side l) =
      SymlinkPair_removeObject side l) /\
  (forall (d : FolderPair) pL pR pL' pR',
      FolderPair_removeObject side pL' pR' (FolderPair_removeObject side pL pR d) =
      FolderPair_removeObject side pL pR d) /\
  (forall path target (c c' : ContainerObject),
      Container_applyAt (CallRemoveObject side) path target c = Some c' ->
      Container_applyAt (CallRemoveObject side) path target c' = Some c').
Proof.
  split; [|split; [|split]].
  - apply FilePair_removeObject_twice.
  - apply SymlinkPair_removeObject_twice.
  - intros d pL pR pL' pR'.
    apply removedBelow_fixed, FolderPair_removeObject_removedBelow.
  - intros path target c c'. apply Container_applyAt_removeObject_twice.
Qed.

(** ** Calls are local *)

Lemma sameItem_kinds (l l' : list FSObject) :
  Forall2 sameItem l l' -> map kindOf l' = map kindOf l.
Proof. induction 1 as [|x x' l l' [Hk _] _ IH]; simpl; [reflexivity | now rewrite Hk, IH]. Qed.

Lemma removedOn_kinds (side : SelectSide) (l l' : list FSObject) :
  Forall2 (removedOn side) l l' -> map kindOf l' = map kindOf l.
Proof.
  induction 1 as [|x x' l l' Hx _ IH]; simpl; [reflexivity|].
  destruct Hx as [Hk _]. now rewrite Hk, IH.
Qed.

Lemma FolderPair_call_kinds call pL pR (d d' : FolderPair) :
  FolderPair_call call pL pR d = Some d' ->
  map kindOf (FolderPair_items d') = map kindOf (FolderPair_items d).
Proof.
  destruct call; simpl; try discriminate; intros [= <-];
    try (destruct d as [o aL aR buf c]; reflexivity).
  - apply (removedOn_kinds side), FolderPair_removeObject_items.
  - unfold FolderPair_setSyncedTo, FolderPair_setSynced.
    etransitivity; [apply sameItem_kinds, propagateChangedItemName_items|].
    etransitivity; [apply sameItem_kinds, propagateChangedItemName_items|].
    now destruct d as [o aL aR buf c].
Qed.

Lemma insert_middle {A : Type} (l : list A) (i : nat) (x y : A) :
  l !! i = Some x ->
  l = take i l ++ x :: drop (S i) l /\ <[i := y]> l = take i l ++ y :: drop (S i) l.
Proof.
  intros H. split.
  - symmetry. now apply take_drop_middle.
  - apply insert_take_drop. eapply lookup_lt_Some, H.
Qed.

Lemma Container_applyAt_local call (path : list nat) target :
  forall c c',
    Container_applyAt call path target c = Some c' ->
    exists x x' pre post pre' post',
      Container_childAt path target c = Some x /\
      Container_childAt path target c' = Some x' /\
      ContainerObject_items c = pre ++ FSObject_items x ++ post /\
      ContainerObject_items c' = pre' ++ FSObject_items x' ++ post' /\
      Forall2 sameItem pre pre' /\
      Forall2 sameItem post post' /\
      map kindOf (FSObject_items x') = map kindOf (FSObject_items x).
Proof.
  induction path as [|i path IH]; intros [fs ls ds rL rR] c' Happ.
  - destruct target as [i|i|i]; cbn [Container_applyAt subFiles_ subLinks_ subFolders_
      relPathL_ relPathR_] in Happ.
    + destruct (fs !! i) as [f|] eqn:Ei; [|discriminate]. simpl in Happ.
      destruct (FilePair_call call f) as [f'|] eqn:Ef; [|discriminate].
      injection Happ as <-. destruct (insert_middle fs i f f' Ei) as [E1 E2].
      exists (IsFile f), (IsFile f'), (map IsFile (take i fs)),
        (map IsFile (drop (S i) fs) ++ map IsSymlink ls ++ flat_map FolderPair_items ds),
        (map IsFile (take i fs)),
        (map IsFile (drop (S i) fs) ++ map IsSymlink ls ++ flat_map FolderPair_items ds).
      repeat split; try apply Forall2_sameItem_refl.
      * simpl. now rewrite Ei.
      * unfold withSubFiles. simpl.
        rewrite list_lookup_insert_eq by (eapply lookup_lt_Some, Ei). reflexivity.
      * simpl. rewrite E1 at 1. rewrite map_app. simpl. now rewrite <- !app_assoc.
      * unfold withSubFiles. simpl. rewrite E2, map_app. simpl. now rewrite <- !app_assoc.
    + destruct (ls !! i) as [l|] eqn:Ei; [|discriminate]. simpl in Happ.
      destruct (SymlinkPair_call call l) as [l'|] eqn:El; [|discriminate].
      injection Happ as <-. destruct (insert_middle ls i l l' Ei) as [E1 E2].
      exists (IsSymlink l), (IsSymlink l'), (map IsFile fs ++ map IsSymlink (take i ls)),
        (map IsSymlink (drop (S i) ls) ++ flat_map FolderPair_items ds),
        (map IsFile fs ++ map IsSymlink (take i ls)),
        (map IsSymlink (drop (S i) ls) ++ flat_map FolderPair_items ds).
      repeat split; try apply Forall2_sameItem_refl.
      * simpl. now rewrite Ei.
      * unfold withSubLinks. simpl.
        rewrite list_lookup_insert_eq by (eapply lookup_lt_Some, Ei). reflexivity.
      * simpl. rewrite E1 at 1. rewrite map_app. simpl. now rewrite <- !app_assoc.
      * unfold withSubLinks. simpl. rewrite E2, map_app. simpl. now rewrite <- !app_assoc.
    + destruct (ds !! i) as [d|] eqn:Ei; [|discriminate]. simpl in Happ.
      destruct (FolderPair_call call rL rR d) as [d'|] eqn:Ed; [|discriminate].
      injection Happ as <-. destruct (insert_middle ds i d d' Ei) as [E1 E2].
      exists (IsFolder d), (IsFolder d'),
        (map IsFile fs ++ map IsSymlink ls ++ flat_map FolderPair_items (take i ds)),
        (flat_map FolderPair_items (drop (S i) ds)),
        (map IsFile fs ++ map IsSymlink ls ++ flat_map FolderPair_items (take i ds)),
        (flat_map FolderPair_items (drop (S i) ds)).
      repeat split; try apply Forall2_sameItem_refl.
      * simpl. now rewrite Ei.
      * unfold withSubFolders. simpl.
        rewrite list_lookup_insert_eq by (eapply lookup_lt_Some, Ei). reflexivity.
      * simpl. rewrite E1 at 1. rewrite flat_map_app. simpl.
        now rewrite <- !app_assoc.
      * unfold withSubFolders. simpl. rewrite E2, flat_map_app. simpl.
        now rewrite <- !app_assoc.
      * simpl. eapply FolderPair_call_kinds, Ed.
  - cbn [Container_applyAt subFolders_] in Happ.
    destruct (ds !! i) as [d|] eqn:Ei; [|discriminate]. simpl in Happ.
    destruct (Container_applyAt call path target (dirCont d)) as [c1|] eqn:E1; [|discriminate].
    injection Happ as <-.
    destruct (IH _ _ E1) as (x & x' & pre & post & pre' & post' & Hx & Hx' & Hc & Hc' & Hpre
                             & Hpost & Hk).
    destruct (insert_middle ds i d (enclosing (notifies call) d c1) Ei) as [D1 D2].
    exists x, x',
      (map IsFile fs ++ map IsSymlink ls ++ flat_map FolderPair_items (take i ds) ++
       IsFolder d :: pre),
      (post ++ flat_map FolderPair_items (drop (S i) ds)),
      (map IsFile fs ++ map IsSymlink ls ++ flat_map FolderPair_items (take i ds) ++
       IsFolder (enclosing (notifies call) d c1) :: pre'),
      (post' ++ flat_map FolderPair_items (drop (S i) ds)).
    repeat split.
    + simpl. now rewrite Ei.
    + unfold withSubFolders. simpl.
      rewrite list_lookup_insert_eq by (eapply lookup_lt_Some, Ei). simpl.
      now destruct d.
    + simpl. rewrite D1 at 1. rewrite flat_map_app. simpl.
      rewrite FolderPair_items_eq, Hc.
      rewrite <- ?app_assoc. cbn [app]. now rewrite <- ?app_assoc.
    + unfold withSubFolders. simpl. rewrite D2, flat_map_app. simpl.
      rewrite Hc'. unfold enclosing.
      rewrite <- ?app_assoc. cbn [app]. now rewrite <- ?app_assoc.
    + repeat apply Forall2_app; try apply Forall2_sameItem_refl.
      constructor; [|exact Hpre]. split; [reflexivity | now destruct d].
    + apply Forall2_app; [exact Hpost | apply Forall2_sameItem_refl].
    + exact Hk.
Qed.

(** A call on an item is local: the items of
    the tree are those before the item, the item with what is below
    it, and those after it, before and after the call; every item
    before or after the target's subtree keeps its kind, names,
    category, direction, conflict and active flag, and the subtree of
    the target keeps the number and the kinds of its items.  No call
    deletes, adds or moves an item. *)
Theorem calls_are_local call (path : list nat) target (c c' : ContainerObject) :
  Container_applyAt call path target c = Some c' ->
  exists x x' pre post pre' post',
    Container_childAt path target c = Some x /\
    Container_childAt path target c' = Some x' /\
    ContainerObject_items c = pre ++ FSObject_items x ++ post /\
    ContainerObject_items c' = pre' ++ FSObject_items x' ++ post' /\
    Forall2 sameItem pre pre' /\
    Forall2 sameItem post post' /\
    map kindOf (FSObject_items x') = map kindOf (FSObject_items x).
Proof. apply Container_applyAt_local. Qed.

(** ** The buffer of the folder that is changed, and calls that succeed *)

(** A call that notifies leaves the folder it is made on without a
    buffered operation: [notifySyncCfgChanged] is the override of
    [FolderPair]. *)
Lemma FolderPair_call_own_buffer call pL pR (d d' : FolderPair) :
  notifies call = true -> FolderPair_call call pL pR d = Some d' ->
  syncOpBuffered_ d' = None.
Proof.
  destruct call; simpl; try discriminate; intros _ [= <-];
    try (unfold FolderPair_notifySyncCfgChanged; reflexivity).
  - destruct d as [o aL aR buf [fs ls ds rL rR]].
    rewrite FolderPair_removeObject_eq, propagateChangedItemName_buffer. reflexivity.
  - unfold FolderPair_setSyncedTo, FolderPair_setSynced.
    rewrite !propagateChangedItemName_buffer. reflexivity.
Qed.

Lemma Container_applyAt_target_buffer call target (path : list nat) :
  notifies call = true ->
  forall c c' d',
    Container_applyAt call path target c = Some c' ->
    Container_childAt path target c' = Some (IsFolder d') ->
    syncOpBuffered_ d' = None.
Proof.
  intros Hn. induction path as [|i path IH]; intros [fs ls ds rL rR] c' d' Happ Hd.
  - destruct target as [i|i|i]; cbn [Container_applyAt subFiles_ subLinks_ subFolders_
      relPathL_ relPathR_] in Happ.
    + destruct (fs !! i) as [f|]; [|discriminate]. simpl in Happ.
      destruct (FilePair_call call f); [|discriminate]. injection Happ as <-.
      simpl in Hd. destruct (_ !! i); discriminate.
    + destruct (ls !! i) as [l|]; [|discriminate]. simpl in Happ.
      destruct (SymlinkPair_call call l); [|discriminate]. injection Happ as <-.
      simpl in Hd. destruct (_ !! i); discriminate.
    + destruct (ds !! i) as [d|] eqn:Ei; [|discriminate]. simpl in Happ.
      destruct (FolderPair_call call rL rR d) as [d1|] eqn:Ed; [|discriminate].
      injection Happ as <-. unfold withSubFolders in Hd. simpl in Hd.
      rewrite list_lookup_insert_eq in Hd by (eapply lookup_lt_Some; exact Ei).
      injection Hd as <-. eapply FolderPair_call_own_buffer; eauto.
  - cbn [Container_applyAt subFolders_] in Happ.
    destruct (ds !! i) as [d|] eqn:Ei; [|discriminate]. simpl in Happ.
    destruct (Container_applyAt call path target (dirCont d)) as [c1|] eqn:E1; [|discriminate].
    injection Happ as <-. unfold withSubFolders in Hd. simpl in Hd.
    rewrite list_lookup_insert_eq in Hd by (eapply lookup_lt_Some; exact Ei).
    simpl in Hd. eapply IH; [exact E1|]. now destruct d.
Qed.





(** ** The sweep *)










(** ** The buffered operation of a folder *)





(** ** Which calls empty a buffer *)

Definition bufferOf (x : FSObject) : option SyncOperation :=
  match x with
  | IsFolder d => syncOpBuffered_ d
  | _ => None
  end.

(** The same kind of item with the same buffered operation. *)
Definition sameBuffer (x x' : FSObject) : Prop :=
  kindOf x' = kindOf x /\ bufferOf x' = bufferOf x.

Lemma Forall2_sameBuffer_refl (l : list FSObject) : Forall2 sameBuffer l l.
Proof. induction l; constructor; auto. now split. Qed.

Lemma FolderPair_call_sameBuffer call pL pR (d d' : FolderPair) :
  notifies call = false -> FolderPair_call call pL pR d = Some d' ->
  Forall2 sameBuffer (FolderPair_items d) (FolderPair_items d').
Proof.
  destruct call; simpl; try discriminate; intros _ [= <-];
    rewrite !FolderPair_items_eq; simpl;
    (constructor; [now split | apply Forall2_sameBuffer_refl]).
Qed.

Lemma Container_applyAt_sameBuffer call target (path : list nat) :
  notifies call = false ->
  forall c c',
    Container_applyAt call path target c = Some c' ->
    Forall2 sameBuffer (ContainerObject_items c) (ContainerObject_items c').
Proof.
  intros Hn.
  assert (Hrefl : forall y, sameBuffer y y) by (intros y; now split).
  induction path as [|i path IH]; intros c c' Happ; simpl in Happ.
  - destruct target as [i|i|i].
    + destruct (subFiles_ c !! i) as [f|] eqn:Ei; [|discriminate]. simpl in Happ.
      destruct (FilePair_call call f) as [f'|] eqn:Ef; [|discriminate].
      injection Happ as <-. destruct c as [fs ls ds rL rR]; simpl in *.
      repeat apply Forall2_app; auto using Forall2_sameBuffer_refl.
      eapply Forall2_map_replace; eauto. now split.
    + destruct (subLinks_ c !! i) as [l|] eqn:Ei; [|discriminate]. simpl in Happ.
      destruct (SymlinkPair_call call l) as [l'|] eqn:El; [|discriminate].
      injection Happ as <-. destruct c as [fs ls ds rL rR]; simpl in *.
      repeat apply Forall2_app; auto using Forall2_sameBuffer_refl.
      eapply Forall2_map_replace; eauto. now split.
    + destruct (subFolders_ c !! i) as [d|] eqn:Ei; [|discriminate]. simpl in Happ.
      destruct (FolderPair_call call _ _ d) as [d'|] eqn:Ed; [|discriminate].
      injection Happ as <-. destruct c as [fs ls ds rL rR]; simpl in *.
      repeat apply Forall2_app; auto using Forall2_sameBuffer_refl.
      apply Forall2_flat_map_related.
      eapply Forall2_replace;
        eauto using Forall2_sameBuffer_refl, FolderPair_call_sameBuffer.
  - rewrite Hn in Happ.
    destruct (subFolders_ c !! i) as [d|] eqn:Ei; [|discriminate]. simpl in Happ.
    destruct (Container_applyAt call path target (dirCont d)) as [c1|] eqn:E1; [|discriminate].
    injection Happ as <-. destruct c as [fs ls ds rL rR]; simpl in *.
    repeat apply Forall2_app; auto using Forall2_sameBuffer_refl.
    apply Forall2_flat_map_related.
    eapply Forall2_replace; eauto using Forall2_sameBuffer_refl.
    rewrite !FolderPair_items_eq. constructor; [now split|]. simpl. eauto.
Qed.

(** The notification reaches every folder above the item, and only
    the calls of [setSyncDir], [setSyncDirConflict], [setActive],
    [removeObject] and [setSyncedTo] and the constructors send it.
    After such a call on an item at any depth, every folder on the
    way from the root to the item, and the item itself if it is a
    folder, has no buffered operation; after a new item is added,
    every folder on the way to it has none.  The category setters,
    [setMoveRef] and [clearFilePrint] leave every buffered operation
    of the tree where it is, also in the folders above an item whose
    category they change. *)
Theorem notification_reaches_every_buffer :
  (forall call path target (c c' : ContainerObject),
      Container_applyAt call path target c = Some c' ->
      (notifies call = true ->
       Forall (fun d => syncOpBuffered_ d = None) (foldersAlong path c')
       /\ length (foldersAlong path c') = length path
       /\ forall d', Container_childAt path target c' = Some (IsFolder d') ->
                     syncOpBuffered_ d' = None)
      /\ (notifies call = false ->
          Forall2 sameBuffer (ContainerObject_items c) (ContainerObject_items c')))
  /\ (forall item path (c c' : ContainerObject),
        Container_addAt item path c = Some c' ->
        Forall (fun d => syncOpBuffered_ d = None) (foldersAlong path c')
        /\ length (foldersAlong path c') = length path).
Proof.
  split.
  - intros call path target c c' Happ. split.
    + intros Hn. split; [eapply Container_applyAt_buffers; eauto|]. split.
      * clear Hn. revert c c' Happ.
        induction path as [|i path IH]; intros [fs ls ds rL rR] c' Happ; [reflexivity|].
        cbn [Container_applyAt subFolders_] in Happ.
        destruct (ds !! i) as [d|] eqn:Ei; [|discriminate]. simpl in Happ.
        destruct (Container_applyAt call path target (dirCont d)) as [c1|] eqn:E1;
          [|discriminate].
        injection Happ as <-. unfold withSubFolders. simpl.
        rewrite list_lookup_insert_eq by (eapply lookup_lt_Some; exact Ei). simpl.
        f_equal. replace (dirCont (enclosing (notifies call) d c1)) with c1
          by (now destruct d). eauto.
      * intros d' Hd'. eapply Container_applyAt_target_buffer; eauto.
    + intros Hn. eapply Container_applyAt_sameBuffer; eauto.
  - intros item path c c' Hadd. split; [eapply Container_addAt_buffers; eauto|].
    revert c c' Hadd.
    induction path as [|i path IH]; intros [fs ls ds rL rR] c' Hadd; [reflexivity|].
    cbn [Container_addAt subFolders_] in Hadd.
    destruct (ds !! i) as [d|] eqn:Ei; [|discriminate]. simpl in Hadd.
    destruct (Container_addAt item path (dirCont d)) as [c1|] eqn:E1; [|discriminate].
    injection Hadd as <-. unfold withSubFolders. simpl.
    rewrite list_lookup_insert_eq by (eapply lookup_lt_Some; exact Ei). simpl.
    f_equal. replace (dirCont (enclosing true d c1)) with c1 by (now destruct d). eauto.
Qed.

End Hierarchy.

(** * Instances on a small tree *)

(** A separator-joining [appendPath] for the instances below. *)
Definition sampleAppendPath (basePath relPath : Zstring) : Zstring :=
  if Zempty basePath then relPath
  else if Zempty relPath then basePath
  else (basePath ++ "/" ++ relPath)%string.

(** [a.txt], on the left only, to be copied to the right. *)
Definition sampleFile : FilePair :=
  FilePair_mapObj (setSyncDir SyncDirection_left)
    (FilePair_new "a.txt" (mkFileAttributes 1700000000 42 7 false)
       FILE_LEFT_SIDE_ONLY "" FileAttributes_default).

(** A folder on both sides that holds [a.txt]; nothing is buffered. *)
Definition sampleFolder : FolderPair :=
  mkFolderPair (FileSystemObject_new "docs" "docs" FILE_EQUAL)
    (mkFolderAttributes false) (mkFolderAttributes false) None
    (mkContainerObject [sampleFile] [] [] "docs" "docs").

(** [docs] with names that differ in case, to be updated from the left,
    and [docs] on the left only, to be created on the right; both hold
    [a.txt]. *)
Definition sampleFolderDiffers : FolderPair :=
  mkFolderPair
    (setSyncDir SyncDirection_left
       (setCategoryDiffMetadata "names differ in case"
          (FileSystemObject_new "docs" "Docs" FILE_EQUAL)))
    (mkFolderAttributes false) (mkFolderAttributes false) None
    (mkContainerObject [sampleFile] [] [] "docs" "Docs").


(** A base folder, then [docs] added to it, [a.txt] added to [docs], a
    conflict recorded for [a.txt] and then resolved to the left. *)
Definition sampleBase0 : BaseFolderPair string unit unit :=
  BaseFolderPair_new "/left" BaseFolderStatus_existing "/right" BaseFolderStatus_existing
    tt tt 2 [].

Definition sampleBase1 : BaseFolderPair string unit unit :=
  withBaseCont
    (mkContainerObject [] []
       [FolderPair_new sampleAppendPath "docs" (mkFolderAttributes false) FILE_EQUAL
          "docs" (mkFolderAttributes false) "" ""] "" "")
    sampleBase0.

Definition sampleBase2 : BaseFolderPair string unit unit :=
  withBaseCont
    (mkContainerObject [] []
       [mkFolderPair (FileSystemObject_new "docs" "docs" FILE_EQUAL)
          (mkFolderAttributes false) (mkFolderAttributes false) None
          (mkContainerObject
             [FilePair_new "a.txt" (mkFileAttributes 1700000000 42 7 false)
                FILE_LEFT_SIDE_ONLY "" FileAttributes_default] [] [] "docs" "docs")] "" "")
    sampleBase0.

Definition sampleBase3 : BaseFolderPair string unit unit :=
  withBaseCont
    (mkContainerObject [] []
       [mkFolderPair (FileSystemObject_new "docs" "docs" FILE_EQUAL)
          (mkFolderAttributes false) (mkFolderAttributes false) None
          (mkContainerObject
             [FilePair_mapObj (setSyncDirConflict "changed on both sides")
                (FilePair_new "a.txt" (mkFileAttributes 1700000000 42 7 false)
                   FILE_LEFT_SIDE_ONLY "" FileAttributes_default)] [] [] "docs" "docs")] "" "")
    sampleBase0.

Definition sampleBase4 : BaseFolderPair string unit unit :=
  withBaseCont (mkContainerObject [] [] [sampleFolder] "" "") sampleBase0.

Lemma sampleBase4_reachable : Reachable sampleAppendPath sampleBase4.
Proof.
  apply (ReachStep _ sampleBase3).
  - apply (ReachStep _ sampleBase2).
    + apply (ReachStep _ sampleBase1).
      * apply (ReachStep _ sampleBase0); [apply ReachNew|].
        apply (StepAdd sampleAppendPath
                 (NewFolder "docs" (mkFolderAttributes false) FILE_EQUAL
                    "docs" (mkFolderAttributes false)) [] sampleBase0).
        reflexivity.
      * apply (StepAdd sampleAppendPath
                 (NewFileOn left_side "a.txt" (mkFileAttributes 1700000000 42 7 false))
                 [0] sampleBase1).
        reflexivity.
    + apply (StepCall sampleAppendPath (CallSetSyncDirConflict "changed on both sides")
               [0] (FileAt 0) sampleBase2).
      reflexivity.
  - apply (StepCall sampleAppendPath (CallSetSyncDir SyncDirection_left)
             [0] (FileAt 0) sampleBase3).
    reflexivity.
Defined.



Lemma direction_conflict_exclusive_sample :
  Forall (fun e => ~ (syncDir_ (fsObj e) <> SyncDirection_none
                      /\ Zempty (syncDirectionConflict_ (fsObj e)) = false))
    (ContainerObject_items (baseCont sampleBase4)).
Proof.
  exact (direction_conflict_exclusive sampleAppendPath sampleBase4 sampleBase4_reachable).
Defined.

Lemma setSynced_postconditions_sample :
  isPairEmpty (fsObj (IsFolder sampleFolder)) = false
  /\ let e' := FSObject_setSynced sampleAppendPath "Docs" "" "" (IsFolder sampleFolder) in
     itemNameL_ (fsObj e') = "Docs"
     /\ itemNameR_ (fsObj e') = "Docs"
     /\ getCategory (fsObj e') = FILE_EQUAL
     /\ getSyncDir (fsObj e') = SyncDirection_none
     /\ syncDirectionConflict_ (fsObj e') = "".
Proof.
  split; [reflexivity|].
  destruct (setSynced_postconditions sampleAppendPath "Docs" "" "" (IsFolder sampleFolder)
              eq_refl) as (_ & HL & HR & Hc & Hd & Hx & _).
  cbn zeta. repeat split; assumption.
Defined.

Lemma getItemName_falls_back_sample :
  isEmpty right_side (fileObj sampleFile) = true
  /\ getItemName right_side (fileObj sampleFile) = "a.txt"
  /\ Zempty (getItemNameAny (fileObj sampleFile)) = false.
Proof.
  destruct (getItemName_falls_back (IsFile sampleFile) right_side) as [Hn Hne].
  destruct (Hne eq_refl) as (_ & _ & Hany).
  split; [reflexivity|]. split; [exact Hn | exact Hany].
Defined.

Lemma relative_paths_coherent_sample :
  ContainerObject_relPathsCoherent sampleAppendPath left_side (baseCont sampleBase4)
  /\ ContainerObject_relPathsCoherent sampleAppendPath right_side (baseCont sampleBase4).
Proof.
  split; apply (relative_paths_coherent sampleAppendPath sampleBase4 sampleBase4_reachable).
Defined.

(** On the tree above, [a.txt] below [docs] is made inactive. *)
Lemma calls_are_local_sample :
  match Container_applyAt sampleAppendPath (CallSetActive false) [0%nat] (FileAt 0)
          (baseCont sampleBase4) with
  | Some c' =>
      exists x x' pre post pre' post',
        Container_childAt [0%nat] (FileAt 0) (baseCont sampleBase4) = Some x /\
        Container_childAt [0%nat] (FileAt 0) c' = Some x' /\
        ContainerObject_items (baseCont sampleBase4) = pre ++ FSObject_items x ++ post /\
        ContainerObject_items c' = pre' ++ FSObject_items x' ++ post' /\
        Forall2 sameItem pre pre' /\
        Forall2 sameItem post post' /\
        map kindOf (FSObject_items x') = map kindOf (FSObject_items x)
  | None => False
  end.
Proof.
  destruct (Container_applyAt sampleAppendPath (CallSetActive false) [0%nat] (FileAt 0)
              (baseCont sampleBase4)) as [c'|] eqn:E.
  - exact (calls_are_local sampleAppendPath _ _ _ _ _ E).
  - discriminate E.
Defined.

(** [docs] with its operation buffered, below a root. *)
Definition sampleBuffered : ContainerObject :=
  mkContainerObject [] []
    [snd (FolderPair_getSyncOperation FolderPair_resolveSyncOperation sampleFolderDiffers)]
    "" "".

(** [docs] holds Update; making [a.txt] inactive empties the buffer of
    [docs], giving [a.txt] the category of a conflict leaves it. *)
Lemma notification_sample :
  map bufferOf (ContainerObject_items sampleBuffered) = [Some (SO_UPDATE right_side); None]
  /\ (exists c',
        Container_applyAt sampleAppendPath (CallSetActive false) [0%nat] (FileAt 0)
          sampleBuffered = Some c'
        /\ Forall (fun d => syncOpBuffered_ d = None) (foldersAlong [0%nat] c')
        /\ map bufferOf (ContainerObject_items c') = [None; None])
  /\ (exists c',
        Container_applyAt sampleAppendPath (CallSetCategoryConflict "both sides changed")
          [0%nat] (FileAt 0) sampleBuffered = Some c'
        /\ Forall2 sameBuffer (ContainerObject_items sampleBuffered) (ContainerObject_items c')
        /\ map bufferOf (ContainerObject_items c') = [Some (SO_UPDATE right_side); None]).
Proof.
  split; [reflexivity|]. split.
  - eexists. split; [reflexivity|]. split; [|reflexivity].
    refine (proj1 (proj1 (proj1 (notification_reaches_every_buffer sampleAppendPath)
                            (CallSetActive false) [0%nat] (FileAt 0) sampleBuffered _ eq_refl)
                     eq_refl)).
  - eexists. split; [reflexivity|]. split; [|reflexivity].
    refine (proj2 (proj1 (notification_reaches_every_buffer sampleAppendPath)
                     (CallSetCategoryConflict "both sides changed") [0%nat] (FileAt 0)
                     sampleBuffered _ eq_refl) eq_refl).
Defined.

(** * The update check: [ui/version_check.cpp] *)

Local Open Scope Z_scope.

(** A C++ [int] has 32 bits on the targets of the program and [time_t]
    has 64; the value a computation leaves in such a variable is the
    mathematical result wrapped into the range of the type. *)
Definition int32 (z : Z) : Z := (z + 2 ^ 31) mod 2 ^ 32 - 2 ^ 31.
Definition int64 (z : Z) : Z := (z + 2 ^ 63) mod 2 ^ 64 - 2 ^ 63.

Definition charCode (c : ascii) : Z := Z.of_nat (nat_of_ascii c).

(** The body of the lambda that [getVersionCheckInactiveId] passes to
    [std::for_each]; [id] is the captured [int].  The [assert] in the
    [else] branch is not part of a release build. *)
Definition versionCheckIdStep (id : Z) (c : ascii) : Z :=
  let id := int32 (id * 11) in
  if (charCode "0" <=? charCode c) && (charCode c <=? charCode "9")
  then int32 (id + (charCode c - charCode "0"))
  else int32 (id + 10).

(** [getVersionCheckInactiveId()], as a function of the constant
    [ffsVersion] of [version.h]. *)
Definition getVersionCheckInactiveId (ffsVersion : string) : Z :=
  fold_left versionCheckIdStep (list_ascii_of_string ffsVersion) 0.

(** [shouldRunAutomaticUpdateCheck]; [now] is the value of
    [std::time(nullptr)]. *)
Definition shouldRunAutomaticUpdateCheck (ffsVersion : string) (now : Z)
    (lastUpdateCheck : Z) : bool :=
  if lastUpdateCheck =? getVersionCheckInactiveId ffsVersion then false
  else 7 * 24 * 3600 <=? int64 (Z.abs (int64 (now - lastUpdateCheck))).

Definition updateCheckActive (ffsVersion : string) (lastUpdateCheck : Z) : bool :=
  negb (lastUpdateCheck =? getVersionCheckInactiveId ffsVersion).

(** [disableUpdateCheck]: the new value of the reference argument. *)
Definition disableUpdateCheck (ffsVersion : string) (lastUpdateCheck : Z) : Z :=
  getVersionCheckInactiveId ffsVersion.

(** A version string as the program has them: digits and separators,
    not starting with the digit zero. *)
Definition isVersionChar (separator c : ascii) : bool :=
  ((charCode "0" <=? charCode c) && (charCode c <=? charCode "9")) || Ascii.eqb c separator.

Definition noLeadingZero (l : list ascii) : bool :=
  match l with
  | c :: _ => negb (Ascii.eqb c "0")
  | [] => true
  end.

Definition plainVersion (separator : ascii) (version : string) : bool :=
  forallb (isVersionChar separator) (list_ascii_of_string version) &&
  noLeadingZero (list_ascii_of_string version).

(** The digit a character stands for in base 11. *)
Definition base11Digit (c : ascii) : Z :=
  if (charCode "0" <=? charCode c) && (charCode c <=? charCode "9")
  then charCode c - charCode "0" else 10.

Definition base11Value (l : list ascii) (acc : Z) : Z :=
  fold_left (fun id c => id * 11 + base11Digit c) l acc.

Lemma int32_small (z : Z) : - 2 ^ 31 <= z < 2 ^ 31 -> int32 z = z.
Proof. intros H. unfold int32. rewrite Z.mod_small; lia. Qed.

Lemma int64_small (z : Z) : - 2 ^ 63 <= z < 2 ^ 63 -> int64 z = z.
Proof. intros H. unfold int64. rewrite Z.mod_small; lia. Qed.

Lemma base11Digit_range (c : ascii) : 0 <= base11Digit c <= 10.
Proof.
  unfold base11Digit.
  destruct (charCode "0" <=? charCode c) eqn:E1; simpl; [|lia].
  destruct (charCode c <=? charCode "9") eqn:E2; [|lia].
  apply Z.leb_le in E1, E2. change (charCode "0") with 48 in *.
  change (charCode "9") with 57 in E2. lia.
Qed.

Lemma versionCheckIdStep_exact (id : Z) (c : ascii) :
  0 <= id -> id * 11 + 10 < 2 ^ 31 ->
  versionCheckIdStep id c = id * 11 + base11Digit c.
Proof.
  intros H0 H1. pose proof (base11Digit_range c) as Hd.
  unfold versionCheckIdStep, base11Digit in *.
  rewrite (int32_small (id * 11)) by lia.
  destruct ((charCode "0" <=? charCode c) && (charCode c <=? charCode "9"));
    apply int32_small; lia.
Qed.

Lemma base11Value_acc (l : list ascii) :
  forall acc, base11Value l acc = acc * 11 ^ Z.of_nat (length l) + base11Value l 0.
Proof.
  unfold base11Value. induction l as [|c l IH]; intros acc.
  - simpl. lia.
  - cbn [fold_left length]. rewrite (IH (acc * 11 + base11Digit c)), (IH (0 * 11 + base11Digit c)).
    rewrite Nat2Z.inj_succ, Z.pow_succ_r by lia. ring.
Qed.

Lemma base11Value_range (l : list ascii) :
  0 <= base11Value l 0 < 11 ^ Z.of_nat (length l).
Proof.
  induction l as [|c l IH].
  - simpl. unfold base11Value. simpl. lia.
  - unfold base11Value in *. cbn [fold_left length].
    pose proof (base11Value_acc l (0 * 11 + base11Digit c)) as E. unfold base11Value in E.
    rewrite E. pose proof (base11Digit_range c).
    rewrite Nat2Z.inj_succ, Z.pow_succ_r by lia. nia.
Qed.

Lemma versionCheckId_exact (l : list ascii) :
  forall acc,
    0 <= acc -> (acc + 1) * 11 ^ Z.of_nat (length l) <= 2 ^ 31 ->
    fold_left versionCheckIdStep l acc = base11Value l acc.
Proof.
  unfold base11Value. induction l as [|c l IH]; intros acc H0 H1; [reflexivity|].
  cbn [fold_left length] in *. rewrite Nat2Z.inj_succ, Z.pow_succ_r in H1 by lia.
  assert (0 < 11 ^ Z.of_nat (length l)) as Hp by (apply Z.pow_pos_nonneg; lia).
  pose proof (base11Digit_range c) as Hd.
  rewrite versionCheckIdStep_exact by nia.
  apply IH; nia.
Qed.

Lemma pow11_le (n m : nat) : (n <= m)%nat -> 11 ^ Z.of_nat n <= 11 ^ Z.of_nat m.
Proof. intros H. apply Z.pow_le_mono_r; lia. Qed.

Lemma getVersionCheckInactiveId_exact (version : string) :
  (String.length version <= 8)%nat ->
  getVersionCheckInactiveId version = base11Value (list_ascii_of_string version) 0.
Proof.
  intros H. unfold getVersionCheckInactiveId. apply versionCheckId_exact; [lia|].
  assert (length (list_ascii_of_string version) = String.length version) as ->.
  { clear H. induction version as [|c s IH]; simpl; congruence. }
  pose proof (pow11_le _ 8 H) as Hle. change (11 ^ Z.of_nat 8) with 214358881 in Hle. lia.
Qed.

Lemma charCode_inj (c1 c2 : ascii) : charCode c1 = charCode c2 -> c1 = c2.
Proof.
  unfold charCode. intros H. apply Nat2Z.inj in H.
  rewrite <- (ascii_nat_embedding c1), <- (ascii_nat_embedding c2). now rewrite H.
Qed.

Lemma base11Digit_inj (separator c1 c2 : ascii) :
  isVersionChar separator c1 = true -> isVersionChar separator c2 = true ->
  base11Digit c1 = base11Digit c2 -> c1 = c2.
Proof.
  unfold isVersionChar. intros H1 H2 E.
  pose proof (base11Digit_range c1) as R1. pose proof (base11Digit_range c2) as R2.
  unfold base11Digit in *.
  destruct ((charCode "0" <=? charCode c1) && (charCode c1 <=? charCode "9")) eqn:D1;
    destruct ((charCode "0" <=? charCode c2) && (charCode c2 <=? charCode "9")) eqn:D2;
    simpl in H1, H2.
  - apply charCode_inj. lia.
  - apply andb_true_iff in D1 as [A B]. apply Z.leb_le in A, B.
    change (charCode "0") with 48 in *. change (charCode "9") with 57 in *. lia.
  - apply andb_true_iff in D2 as [A B]. apply Z.leb_le in A, B.
    change (charCode "0") with 48 in *. change (charCode "9") with 57 in *. lia.
  - apply Ascii.eqb_eq in H1, H2. congruence.
Qed.

Lemma base11Value_cons (c : ascii) (l : list ascii) :
  base11Value (c :: l) 0 = base11Digit c * 11 ^ Z.of_nat (length l) + base11Value l 0.
Proof.
  unfold base11Value at 1. cbn [fold_left].
  change (base11Value l (0 * 11 + base11Digit c) =
          base11Digit c * 11 ^ Z.of_nat (length l) + base11Value l 0).
  rewrite base11Value_acc. ring.
Qed.

(** Strings of the same length with the same value are equal. *)
Lemma base11Value_inj_length (separator : ascii) (l1 : list ascii) :
  forall l2,
    length l1 = length l2 ->
    forallb (isVersionChar separator) l1 = true ->
    forallb (isVersionChar separator) l2 = true ->
    base11Value l1 0 = base11Value l2 0 -> l1 = l2.
Proof.
  induction l1 as [|c1 l1 IH]; intros [|c2 l2] Hlen H1 H2 E; try discriminate; [reflexivity|].
  simpl in Hlen, H1, H2. injection Hlen as Hlen.
  apply andb_true_iff in H1 as [C1 H1]. apply andb_true_iff in H2 as [C2 H2].
  rewrite !base11Value_cons, Hlen in E.
  pose proof (base11Value_range l1) as R1. pose proof (base11Value_range l2) as R2.
  rewrite Hlen in R1.
  pose proof (base11Digit_range c1) as D1. pose proof (base11Digit_range c2) as D2.
  assert (base11Digit c1 = base11Digit c2) as Ed by nia.
  rewrite Ed in E.
  f_equal.
  - now apply (base11Digit_inj separator).
  - apply IH; auto. lia.
Qed.

(** A non-empty string without a leading zero has a value of exactly as
    many base-11 digits as it has characters. *)
Lemma base11Value_lower (c : ascii) (l : list ascii) :
  noLeadingZero (c :: l) = true ->
  11 ^ Z.of_nat (length l) <= base11Value (c :: l) 0.
Proof.
  intros H. simpl in H. rewrite base11Value_cons.
  pose proof (base11Value_range l) as R. pose proof (base11Digit_range c) as D.
  assert (base11Digit c <> 0) as Hnz.
  { unfold base11Digit.
    destruct ((charCode "0" <=? charCode c) && (charCode c <=? charCode "9")); [|lia].
    intros E. assert (c = "0"%char) as -> by (apply charCode_inj; lia).
    now rewrite Ascii.eqb_refl in H. }
  nia.
Qed.

Lemma base11Value_length (l1 l2 : list ascii) :
  noLeadingZero l1 = true -> noLeadingZero l2 = true ->
  base11Value l1 0 = base11Value l2 0 -> length l1 = length l2.
Proof.
  assert (forall l1 l2, noLeadingZero l2 = true ->
            (length l1 < length l2)%nat -> base11Value l1 0 < base11Value l2 0) as Hlt.
  { intros a [|c b] Hb Hlen; [simpl in Hlen; lia|].
    pose proof (base11Value_lower c b Hb) as L. pose proof (base11Value_range a) as R.
    simpl in Hlen. assert (length a <= length b)%nat as Hle by lia.
    pose proof (pow11_le _ _ Hle). lia. }
  intros H1 H2 E.
  destruct (Nat.lt_trichotomy (length l1) (length l2)) as [H|[H|H]]; [|exact H|].
  - pose proof (Hlt l1 l2 H2 H). lia.
  - pose proof (Hlt l2 l1 H1 H). lia.
Qed.

Lemma plainVersion_parts (separator : ascii) (version : string) :
  plainVersion separator version = true ->
  forallb (isVersionChar separator) (list_ascii_of_string version) = true /\
  noLeadingZero (list_ascii_of_string version) = true.
Proof. unfold plainVersion. intros H. now apply andb_true_iff in H. Qed.

Lemma length_list_ascii_of_string (s : string) :
  length (list_ascii_of_string s) = String.length s.
Proof. induction s as [|c s IH]; simpl; congruence. Qed.

(** The number that stands for a disabled
    update check is unique to the version, as the comment in
    [getVersionCheckInactiveId] says: two different version strings of
    digits and separators, without a leading zero and of at most eight
    characters, give different numbers. *)
Theorem getVersionCheckInactiveId_unique (separator : ascii) (v1 v2 : string) :
  plainVersion separator v1 = true ->
  plainVersion separator v2 = true ->
  (String.length v1 <= 8)%nat ->
  (String.length v2 <= 8)%nat ->
  v1 <> v2 ->
  getVersionCheckInactiveId v1 <> getVersionCheckInactiveId v2.
Proof.
  intros P1 P2 L1 L2 Hne E. apply Hne.
  rewrite !getVersionCheckInactiveId_exact in E by assumption.
  apply plainVersion_parts in P1 as [C1 Z1]. apply plainVersion_parts in P2 as [C2 Z2].
  rewrite <- (string_of_list_ascii_of_string v1), <- (string_of_list_ascii_of_string v2).
  f_equal. apply (base11Value_inj_length separator); auto.
  now apply base11Value_length.
Qed.

(** For a non-empty version string of digits
    and separators, without a leading zero and of at most seven
    characters, the number that stands for a disabled update check lies
    strictly between 0 and one year in seconds (the [assert] of
    [getVersionCheckInactiveId]); so a time stamp of one year after the
    epoch or later is never taken for "disabled", and the check is then
    due exactly when a week or more lies between it and the current
    time.  After [disableUpdateCheck] the check is inactive and never
    due. *)
Theorem inactive_id_is_no_current_time (separator : ascii) (version : string) :
  plainVersion separator version = true ->
  version <> "" ->
  (String.length version <= 7)%nat ->
  0 < getVersionCheckInactiveId version < 3600 * 24 * 365 /\
  (forall lastUpdateCheck,
      3600 * 24 * 365 <= lastUpdateCheck ->
      updateCheckActive version lastUpdateCheck = true /\
      forall now,
        0 <= now < 2 ^ 62 -> lastUpdateCheck < 2 ^ 62 ->
        shouldRunAutomaticUpdateCheck version now lastUpdateCheck =
        (7 * 24 * 3600 <=? Z.abs (now - lastUpdateCheck))) /\
  (forall lastUpdateCheck now,
      updateCheckActive version (disableUpdateCheck version lastUpdateCheck) = false /\
      shouldRunAutomaticUpdateCheck version now
        (disableUpdateCheck version lastUpdateCheck) = false).
Proof.
  intros P Hne L.
  assert (0 < getVersionCheckInactiveId version < 3600 * 24 * 365) as Hid.
  { rewrite getVersionCheckInactiveId_exact by lia.
    apply plainVersion_parts in P as [_ Hz].
    pose proof (length_list_ascii_of_string version) as Hlen.
    destruct (list_ascii_of_string version) as [|c l] eqn:E.
    - destruct version; [congruence | discriminate].
    - pose proof (base11Value_lower c l Hz) as Lo.
      pose proof (base11Value_range (c :: l)) as R.
      assert (length (c :: l) <= 7)%nat as L7 by lia.
      pose proof (pow11_le _ 7 L7) as Hp. change (11 ^ Z.of_nat 7) with 19487171 in Hp.
      assert (0 < 11 ^ Z.of_nat (length l)) by (apply Z.pow_pos_nonneg; lia).
      lia. }
  split; [exact Hid|]. split.
  - intros t Ht. unfold updateCheckActive, shouldRunAutomaticUpdateCheck.
    assert ((t =? getVersionCheckInactiveId version) = false) as -> by (apply Z.eqb_neq; lia).
    split; [reflexivity|]. intros now Hnow Hlast.
    rewrite (int64_small (now - t)) by lia. rewrite int64_small by lia. reflexivity.
  - intros t now. unfold updateCheckActive, shouldRunAutomaticUpdateCheck, disableUpdateCheck.
    now rewrite Z.eqb_refl.
Qed.

(** The versions 13.1 and 13.10 have different numbers. *)
Lemma getVersionCheckInactiveId_unique_sample :
  getVersionCheckInactiveId "13.1" <> getVersionCheckInactiveId "13.10".
Proof.
  apply (getVersionCheckInactiveId_unique "."); [reflexivity | reflexivity | simpl; lia
                                                | simpl; lia | discriminate].
Defined.

(** Version 13.1: the number is early, a time stamp of the year 2026
    counts as an active check, and a disabled check is never due. *)
Lemma inactive_id_is_no_current_time_sample :
  0 < getVersionCheckInactiveId "13.1" < 3600 * 24 * 365 /\
  updateCheckActive "13.1" 1793318400 = true /\
  shouldRunAutomaticUpdateCheck "13.1" 1793318400
    (disableUpdateCheck "13.1" 1793318400) = false.
Proof.
  destruct (inactive_id_is_no_current_time "." "13.1") as (H1 & H2 & H3);
    [reflexivity | discriminate | simpl; lia |].
  split; [exact H1|]. split.
  - apply H2. lia.
  - apply H3.
Defined.

(** ** Comparing with the version online *)

(** [operator<] of [std::vector<size_t>]: lexicographic. *)
Fixpoint vector_less (a b : list N) : bool :=
  match a, b with
  | _, [] => false
  | [], _ :: _ => true
  | x :: a', y :: b' =>
      if (x <? y)%N then true
      else if (y <? x)%N then false
      else vector_less a' b'
  end.

Section OnlineVersion.
(** [zen::split] and [zen::stringTo<size_t>] are declared in headers
    outside the sources, [FFS_VERSION_SEPARATOR] in [version.h]. *)
Variable split : string -> ascii -> list string.
Variable stringTo : string -> N.
Variable FFS_VERSION_SEPARATOR : ascii.

(** The lambda [parseVersion] of [haveNewerVersionOnline]. *)
Definition parseVersion (version : string) : list N :=
  map stringTo (split version FFS_VERSION_SEPARATOR).

(** [haveNewerVersionOnline], as a function of the constant
    [ffsVersion] too; [online > current] is [current < online]. *)
Definition haveNewerVersionOnline (ffsVersion onlineVersion : string) : bool :=
  let current := parseVersion ffsVersion in
  let online := parseVersion onlineVersion in
  match online with
  | [] => true
  | major :: _ => if (major =? 0)%N then true else vector_less current online
  end.

(** A version whose first number is not zero. *)
Definition knownVersion (version : string) : Prop :=
  match parseVersion version with
  | major :: _ => major <> 0%N
  | [] => False
  end.

Lemma vector_less_irrefl (a : list N) : vector_less a a = false.
Proof. induction a as [|x a IH]; simpl; [reflexivity|]. now rewrite N.ltb_irrefl. Qed.

Lemma vector_less_asym (a : list N) :
  forall b, vector_less a b = true -> vector_less b a = false.
Proof.
  induction a as [|x a IH]; intros [|y b]; simpl; try easy.
  destruct (N.ltb_spec x y), (N.ltb_spec y x); try easy; [lia|]. apply IH.
Qed.

Lemma vector_less_trans (a : list N) :
  forall b c, vector_less a b = true -> vector_less b c = true -> vector_less a c = true.
Proof.
  induction a as [|x a IH]; intros [|y b] [|z c]; simpl; try easy.
  destruct (N.ltb_spec x y), (N.ltb_spec y x), (N.ltb_spec y z), (N.ltb_spec z y),
    (N.ltb_spec x z), (N.ltb_spec z x); try easy; try lia.
  apply IH.
Qed.

Lemma vector_less_total (a : list N) :
  forall b, a <> b -> vector_less a b = true \/ vector_less b a = true.
Proof.
  induction a as [|x a IH]; intros [|y b] Hne; simpl; try tauto.
  destruct (N.ltb_spec x y), (N.ltb_spec y x); try tauto.
  apply IH. intros ->. apply Hne. f_equal. lia.
Qed.

Lemma vector_less_extend (a : list N) (x : N) (r : list N) :
  vector_less a (a ++ x :: r) = true.
Proof. induction a as [|y a IH]; simpl; [reflexivity|]. now rewrite N.ltb_irrefl. Qed.

Lemma haveNewerVersionOnline_known (a b : string) :
  knownVersion b ->
  haveNewerVersionOnline a b = vector_less (parseVersion a) (parseVersion b).
Proof.
  unfold knownVersion, haveNewerVersionOnline.
  destruct (parseVersion b) as [|major rest]; [easy|].
  intros H. now apply N.eqb_neq in H as ->.
Qed.

(** [haveNewerVersionOnline] compares versions
    by their numbers, first number first.  An online version without
    numbers or with first number 0 counts as newer, whatever the
    current version is.  Among versions whose first number is not 0,
    "newer" is a strict total order of the number lists: no version is
    newer than one with the same numbers, two versions are never each
    newer than the other, newer-than is transitive, of two versions
    with different numbers one is newer, and a version that continues
    the numbers of another with further numbers is newer. *)
Theorem haveNewerVersionOnline_order :
  (forall current online,
      ~ knownVersion online -> haveNewerVersionOnline current online = true) /\
  (forall a b,
      knownVersion b -> parseVersion a = parseVersion b ->
      haveNewerVersionOnline a b = false) /\
  (forall a b,
      knownVersion a -> knownVersion b ->
      haveNewerVersionOnline a b = true -> haveNewerVersionOnline b a = false) /\
  (forall a b c,
      knownVersion b -> knownVersion c ->
      haveNewerVersionOnline a b = true -> haveNewerVersionOnline b c = true ->
      haveNewerVersionOnline a c = true) /\
  (forall a b,
      knownVersion a -> knownVersion b -> parseVersion a <> parseVersion b ->
      haveNewerVersionOnline a b = true \/ haveNewerVersionOnline b a = true) /\
  (forall a b x r,
      knownVersion b -> parseVersion b = parseVersion a ++ x :: r ->
      haveNewerVersionOnline a b = true).
Proof.
  repeat split.
  - intros current online H. unfold knownVersion, haveNewerVersionOnline in *.
    destruct (parseVersion online) as [|major rest]; [reflexivity|].
    destruct (N.eqb_spec major 0); [reflexivity | contradiction].
  - intros a b Kb E. rewrite haveNewerVersionOnline_known, E by assumption.
    apply vector_less_irrefl.
  - intros a b Ka Kb. rewrite !haveNewerVersionOnline_known by assumption.
    apply vector_less_asym.
  - intros a b c Kb Kc. rewrite !haveNewerVersionOnline_known by assumption.
    apply vector_less_trans.
  - intros a b Ka Kb. rewrite !haveNewerVersionOnline_known by assumption.
    apply vector_less_total.
  - intros a b x r Kb E. rewrite haveNewerVersionOnline_known, E by assumption.
    apply vector_less_extend.
Qed.
End OnlineVersion.

(** * Enumerations as text: [config.cpp] *)

(** The characters of the texts that [writeText] produces: letters,
    digits and the hyphen. *)
Definition isWordChar (c : ascii) : bool :=
  ((charCode "a" <=? charCode c) && (charCode c <=? charCode "z")) ||
  ((charCode "A" <=? charCode c) && (charCode c <=? charCode "Z")) ||
  ((charCode "0" <=? charCode c) && (charCode c <=? charCode "9")) ||
  Ascii.eqb c "-".

Definition plainText (s : string) : bool := forallb isWordChar (list_ascii_of_string s).

(** The two specialisations [writeText] and [readText] that [config.cpp]
    gives for an enumeration.  [readText] returns [false] and leaves its
    output argument alone when the text is not recognised: [None]. *)
Class TextCodec (T : Type) := {
  writeText : T -> string;
  readText : string -> option T
}.

Section ConfigText.
(** [zen::trimCpy], declared in a header outside the sources. *)
Variable trimCpy : string -> string.

(** The enumerations are declared in headers outside the sources; their
    enumerators are the cases of the [switch] in [writeText], which has
    no [default]. [SyncDirection] is the type of [file_hierarchy.h]. *)

Inductive CompareVariant :=
  | CompareVariant_timeSize
  | CompareVariant_content
  | CompareVariant_size.

Definition writeText_CompareVariant (value : CompareVariant) : string :=
  match value with
  | CompareVariant_timeSize => "TimeAndSize"
  | CompareVariant_content => "Content"
  | CompareVariant_size => "Size"
  end.

Definition readText_CompareVariant (input : string) : option CompareVariant :=
  let tmp := trimCpy input in
  if String.eqb tmp "TimeAndSize" then Some CompareVariant_timeSize
  else if String.eqb tmp "Content" then Some CompareVariant_content
  else if String.eqb tmp "Size" then Some CompareVariant_size
  else None.

#[export] Instance TextCodec_CompareVariant : TextCodec CompareVariant :=
  {| writeText := writeText_CompareVariant; readText := readText_CompareVariant |}.

Definition writeText_SyncDirection (value : SyncDirection) : string :=
  match value with
  | SyncDirection_left => "left"
  | SyncDirection_right => "right"
  | SyncDirection_none => "none"
  end.

Definition readText_SyncDirection (input : string) : option SyncDirection :=
  let tmp := trimCpy input in
  if String.eqb tmp "left" then Some SyncDirection_left
  else if String.eqb tmp "right" then Some SyncDirection_right
  else if String.eqb tmp "none" then Some SyncDirection_none
  else None.

#[export] Instance TextCodec_SyncDirection : TextCodec SyncDirection :=
  {| writeText := writeText_SyncDirection; readText := readText_SyncDirection |}.

Inductive BatchErrorHandling :=
  | BatchErrorHandling_showPopup
  | BatchErrorHandling_cancel.

Definition writeText_BatchErrorHandling (value : BatchErrorHandling) : string :=
  match value with
  | BatchErrorHandling_showPopup => "Show"
  | BatchErrorHandling_cancel => "Cancel"
  end.

Definition readText_BatchErrorHandling (input : string) : option BatchErrorHandling :=
  let tmp := trimCpy input in
  if String.eqb tmp "Show" then Some BatchErrorHandling_showPopup
  else if String.eqb tmp "Cancel" then Some BatchErrorHandling_cancel
  else None.

#[export] Instance TextCodec_BatchErrorHandling : TextCodec BatchErrorHandling :=
  {| writeText := writeText_BatchErrorHandling; readText := readText_BatchErrorHandling |}.

Inductive ResultsNotification :=
  | ResultsNotification_always
  | ResultsNotification_errorWarning
  | ResultsNotification_errorOnly.

Definition writeText_ResultsNotification (value : ResultsNotification) : string :=
  match value with
  | ResultsNotification_always => "Always"
  | ResultsNotification_errorWarning => "ErrorWarning"
  | ResultsNotification_errorOnly => "ErrorOnly"
  end.

Definition readText_ResultsNotification (input : string) : option ResultsNotification :=
  let tmp := trimCpy input in
  if String.eqb tmp "Always" then Some ResultsNotification_always
  else if String.eqb tmp "ErrorWarning" then Some ResultsNotification_errorWarning
  else if String.eqb tmp "ErrorOnly" then Some ResultsNotification_errorOnly
  else None.

#[export] Instance TextCodec_ResultsNotification : TextCodec ResultsNotification :=
  {| writeText := writeText_ResultsNotification; readText := readText_ResultsNotification |}.

Inductive PostSyncCondition :=
  | PostSyncCondition_completion
  | PostSyncCondition_errors
  | PostSyncCondition_success.

Definition writeText_PostSyncCondition (value : PostSyncCondition) : string :=
  match value with
  | PostSyncCondition_completion => "Completion"
  | PostSyncCondition_errors => "Errors"
  | PostSyncCondition_success => "Success"
  end.

Definition readText_PostSyncCondition (input : string) : option PostSyncCondition :=
  let tmp := trimCpy input in
  if String.eqb tmp "Completion" then Some PostSyncCondition_completion
  else if String.eqb tmp "Errors" then Some PostSyncCondition_errors
  else if String.eqb tmp "Success" then Some PostSyncCondition_success
  else None.

#[export] Instance TextCodec_PostSyncCondition : TextCodec PostSyncCondition :=
  {| writeText := writeText_PostSyncCondition; readText := readText_PostSyncCondition |}.

Inductive PostSyncAction :=
  | PostSyncAction_none
  | PostSyncAction_sleep
  | PostSyncAction_shutdown.

Definition writeText_PostSyncAction (value : PostSyncAction) : string :=
  match value with
  | PostSyncAction_none => "None"
  | PostSyncAction_sleep => "Sleep"
  | PostSyncAction_shutdown => "Shutdown"
  end.

Definition readText_PostSyncAction (input : string) : option PostSyncAction :=
  let tmp := trimCpy input in
  if String.eqb tmp "None" then Some PostSyncAction_none
  else if String.eqb tmp "Sleep" then Some PostSyncAction_sleep
  else if String.eqb tmp "Shutdown" then Some PostSyncAction_shutdown
  else None.

#[export] Instance TextCodec_PostSyncAction : TextCodec PostSyncAction :=
  {| writeText := writeText_PostSyncAction; readText := readText_PostSyncAction |}.

Inductive GridIconSize :=
  | GridIconSize_small
  | GridIconSize_medium
  | GridIconSize_large.

Definition writeText_GridIconSize (value : GridIconSize) : string :=
  match value with
  | GridIconSize_small => "Small"
  | GridIconSize_medium => "Medium"
  | GridIconSize_large => "Large"
  end.

Definition readText_GridIconSize (input : string) : option GridIconSize :=
  let tmp := trimCpy input in
  if String.eqb tmp "Small" then Some GridIconSize_small
  else if String.eqb tmp "Medium" then Some GridIconSize_medium
  else if String.eqb tmp "Large" then Some GridIconSize_large
  else None.

#[export] Instance TextCodec_GridIconSize : TextCodec GridIconSize :=
  {| writeText := writeText_GridIconSize; readText := readText_GridIconSize |}.

Inductive DeletionVariant :=
  | DeletionVariant_permanent
  | DeletionVariant_recycler
  | DeletionVariant_versioning.

Definition writeText_DeletionVariant (value : DeletionVariant) : string :=
  match value with
  | DeletionVariant_permanent => "Permanent"
  | DeletionVariant_recycler => "RecycleBin"
  | DeletionVariant_versioning => "Versioning"
  end.

Definition readText_DeletionVariant (input : string) : option DeletionVariant :=
  let tmp := trimCpy input in
  if String.eqb tmp "Permanent" then Some DeletionVariant_permanent
  else if String.eqb tmp "RecycleBin" then Some DeletionVariant_recycler
  else if String.eqb tmp "Versioning" then Some DeletionVariant_versioning
  else None.

#[export] Instance TextCodec_DeletionVariant : TextCodec DeletionVariant :=
  {| writeText := writeText_DeletionVariant; readText := readText_DeletionVariant |}.

Inductive SymLinkHandling :=
  | SymLinkHandling_exclude
  | SymLinkHandling_asLink
  | SymLinkHandling_follow.

Definition writeText_SymLinkHandling (value : SymLinkHandling) : string :=
  match value with
  | SymLinkHandling_exclude => "Exclude"
  | SymLinkHandling_asLink => "Direct"
  | SymLinkHandling_follow => "Follow"
  end.

Definition readText_SymLinkHandling (input : string) : option SymLinkHandling :=
  let tmp := trimCpy input in
  if String.eqb tmp "Exclude" then Some SymLinkHandling_exclude
  else if String.eqb tmp "Direct" then Some SymLinkHandling_asLink
  else if String.eqb tmp "Follow" then Some SymLinkHandling_follow
  else None.

#[export] Instance TextCodec_SymLinkHandling : TextCodec SymLinkHandling :=
  {| writeText := writeText_SymLinkHandling; readText := readText_SymLinkHandling |}.

Inductive GridViewType :=
  | GridViewType_difference
  | GridViewType_action.

Definition writeText_GridViewType (value : GridViewType) : string :=
  match value with
  | GridViewType_difference => "Difference"
  | GridViewType_action => "Action"
  end.

Definition readText_GridViewType (input : string) : option GridViewType :=
  let tmp := trimCpy input in
  if String.eqb tmp "Difference" then Some GridViewType_difference
  else if String.eqb tmp "Action" then Some GridViewType_action
  else None.

#[export] Instance TextCodec_GridViewType : TextCodec GridViewType :=
  {| writeText := writeText_GridViewType; readText := readText_GridViewType |}.

Inductive ColumnTypeRim :=
  | ColumnTypeRim_path
  | ColumnTypeRim_size
  | ColumnTypeRim_date
  | ColumnTypeRim_extension.

Definition writeText_ColumnTypeRim (value : ColumnTypeRim) : string :=
  match value with
  | ColumnTypeRim_path => "Path"
  | ColumnTypeRim_size => "Size"
  | ColumnTypeRim_date => "Date"
  | ColumnTypeRim_extension => "Ext"
  end.

Definition readText_ColumnTypeRim (input : string) : option ColumnTypeRim :=
  let tmp := trimCpy input in
  if String.eqb tmp "Path" then Some ColumnTypeRim_path
  else if String.eqb tmp "Size" then Some ColumnTypeRim_size
  else if String.eqb tmp "Date" then Some ColumnTypeRim_date
  else if String.eqb tmp "Ext" then Some ColumnTypeRim_extension
  else None.

#[export] Instance TextCodec_ColumnTypeRim : TextCodec ColumnTypeRim :=
  {| writeText := writeText_ColumnTypeRim; readText := readText_ColumnTypeRim |}.

Inductive ItemPathFormat :=
  | ItemPathFormat_name
  | ItemPathFormat_relative
  | ItemPathFormat_full.

Definition writeText_ItemPathFormat (value : ItemPathFormat) : string :=
  match value with
  | ItemPathFormat_name => "Item"
  | ItemPathFormat_relative => "Relative"
  | ItemPathFormat_full => "Full"
  end.

Definition readText_ItemPathFormat (input : string) : option ItemPathFormat :=
  let tmp := trimCpy input in
  if String.eqb tmp "Item" then Some ItemPathFormat_name
  else if String.eqb tmp "Relative" then Some ItemPathFormat_relative
  else if String.eqb tmp "Full" then Some ItemPathFormat_full
  else None.

#[export] Instance TextCodec_ItemPathFormat : TextCodec ItemPathFormat :=
  {| writeText := writeText_ItemPathFormat; readText := readText_ItemPathFormat |}.

Inductive ColumnTypeCfg :=
  | ColumnTypeCfg_name
  | ColumnTypeCfg_lastSync
  | ColumnTypeCfg_lastLog.

Definition writeText_ColumnTypeCfg (value : ColumnTypeCfg) : string :=
  match value with
  | ColumnTypeCfg_name => "Name"
  | ColumnTypeCfg_lastSync => "Last"
  | ColumnTypeCfg_lastLog => "Log"
  end.

Definition readText_ColumnTypeCfg (input : string) : option ColumnTypeCfg :=
  let tmp := trimCpy input in
  if String.eqb tmp "Name" then Some ColumnTypeCfg_name
  else if String.eqb tmp "Last" then Some ColumnTypeCfg_lastSync
  else if String.eqb tmp "Log" then Some ColumnTypeCfg_lastLog
  else None.

#[export] Instance TextCodec_ColumnTypeCfg : TextCodec ColumnTypeCfg :=
  {| writeText := writeText_ColumnTypeCfg; readText := readText_ColumnTypeCfg |}.

Inductive ColumnTypeOverview :=
  | ColumnTypeOverview_folder
  | ColumnTypeOverview_itemCount
  | ColumnTypeOverview_bytes.

Definition writeText_ColumnTypeOverview (value : ColumnTypeOverview) : string :=
  match value with
  | ColumnTypeOverview_folder => "Tree"
  | ColumnTypeOverview_itemCount => "Count"
  | ColumnTypeOverview_bytes => "Bytes"
  end.

Definition readText_ColumnTypeOverview (input : string) : option ColumnTypeOverview :=
  let tmp := trimCpy input in
  if String.eqb tmp "Tree" then Some ColumnTypeOverview_folder
  else if String.eqb tmp "Count" then Some ColumnTypeOverview_itemCount
  else if String.eqb tmp "Bytes" then Some ColumnTypeOverview_bytes
  else None.

#[export] Instance TextCodec_ColumnTypeOverview : TextCodec ColumnTypeOverview :=
  {| writeText := writeText_ColumnTypeOverview; readText := readText_ColumnTypeOverview |}.

Inductive UnitSize :=
  | UnitSize_none
  | UnitSize_byte
  | UnitSize_kb
  | UnitSize_mb.

Definition writeText_UnitSize (value : UnitSize) : string :=
  match value with
  | UnitSize_none => "None"
  | UnitSize_byte => "Byte"
  | UnitSize_kb => "KB"
  | UnitSize_mb => "MB"
  end.

Definition readText_UnitSize (input : string) : option UnitSize :=
  let tmp := trimCpy input in
  if String.eqb tmp "None" then Some UnitSize_none
  else if String.eqb tmp "Byte" then Some UnitSize_byte
  else if String.eqb tmp "KB" then Some UnitSize_kb
  else if String.eqb tmp "MB" then Some UnitSize_mb
  else None.

#[export] Instance TextCodec_UnitSize : TextCodec UnitSize :=
  {| writeText := writeText_UnitSize; readText := readText_UnitSize |}.

Inductive UnitTime :=
  | UnitTime_none
  | UnitTime_today
  | UnitTime_thisMonth
  | UnitTime_thisYear
  | UnitTime_lastDays.

Definition writeText_UnitTime (value : UnitTime) : string :=
  match value with
  | UnitTime_none => "None"
  | UnitTime_today => "Today"
  | UnitTime_thisMonth => "Month"
  | UnitTime_thisYear => "Year"
  | UnitTime_lastDays => "x-days"
  end.

Definition readText_UnitTime (input : string) : option UnitTime :=
  let tmp := trimCpy input in
  if String.eqb tmp "None" then Some UnitTime_none
  else if String.eqb tmp "Today" then Some UnitTime_today
  else if String.eqb tmp "Month" then Some UnitTime_thisMonth
  else if String.eqb tmp "Year" then Some UnitTime_thisYear
  else if String.eqb tmp "x-days" then Some UnitTime_lastDays
  else None.

#[export] Instance TextCodec_UnitTime : TextCodec UnitTime :=
  {| writeText := writeText_UnitTime; readText := readText_UnitTime |}.

Inductive LogFileFormat :=
  | LogFileFormat_html
  | LogFileFormat_text.

Definition writeText_LogFileFormat (value : LogFileFormat) : string :=
  match value with
  | LogFileFormat_html => "HTML"
  | LogFileFormat_text => "Text"
  end.

Definition readText_LogFileFormat (input : string) : option LogFileFormat :=
  let tmp := trimCpy input in
  if String.eqb tmp "HTML" then Some LogFileFormat_html
  else if String.eqb tmp "Text" then Some LogFileFormat_text
  else None.

#[export] Instance TextCodec_LogFileFormat : TextCodec LogFileFormat :=
  {| writeText := writeText_LogFileFormat; readText := readText_LogFileFormat |}.

Inductive VersioningStyle :=
  | VersioningStyle_replace
  | VersioningStyle_timestampFolder
  | VersioningStyle_timestampFile.

Definition writeText_VersioningStyle (value : VersioningStyle) : string :=
  match value with
  | VersioningStyle_replace => "Replace"
  | VersioningStyle_timestampFolder => "TimeStamp-Folder"
  | VersioningStyle_timestampFile => "TimeStamp-File"
  end.

Definition readText_VersioningStyle (input : string) : option VersioningStyle :=
  let tmp := trimCpy input in
  if String.eqb tmp "Replace" then Some VersioningStyle_replace
  else if String.eqb tmp "TimeStamp-Folder" then Some VersioningStyle_timestampFolder
  else if String.eqb tmp "TimeStamp-File" then Some VersioningStyle_timestampFile
  else None.

#[export] Instance TextCodec_VersioningStyle : TextCodec VersioningStyle :=
  {| writeText := writeText_VersioningStyle; readText := readText_VersioningStyle |}.

Inductive SyncVariant :=
  | SyncVariant_twoWay
  | SyncVariant_mirror
  | SyncVariant_update
  | SyncVariant_custom.

Definition writeText_SyncVariant (value : SyncVariant) : string :=
  match value with
  | SyncVariant_twoWay => "TwoWay"
  | SyncVariant_mirror => "Mirror"
  | SyncVariant_update => "Update"
  | SyncVariant_custom => "Custom"
  end.

Definition readText_SyncVariant (input : string) : option SyncVariant :=
  let tmp := trimCpy input in
  if String.eqb tmp "TwoWay" then Some SyncVariant_twoWay
  else if String.eqb tmp "Mirror" then Some SyncVariant_mirror
  else if String.eqb tmp "Update" then Some SyncVariant_update
  else if String.eqb tmp "Custom" then Some SyncVariant_custom
  else None.

#[export] Instance TextCodec_SyncVariant : TextCodec SyncVariant :=
  {| writeText := writeText_SyncVariant; readText := readText_SyncVariant |}.

Inductive SyncResult :=
  | SyncResult_finishedSuccess
  | SyncResult_finishedWarning
  | SyncResult_finishedError
  | SyncResult_aborted.

Definition writeText_SyncResult (value : SyncResult) : string :=
  match value with
  | SyncResult_finishedSuccess => "Success"
  | SyncResult_finishedWarning => "Warning"
  | SyncResult_finishedError => "Error"
  | SyncResult_aborted => "Stopped"
  end.

Definition readText_SyncResult (input : string) : option SyncResult :=
  let tmp := trimCpy input in
  if String.eqb tmp "Success" then Some SyncResult_finishedSuccess
  else if String.eqb tmp "Warning" then Some SyncResult_finishedWarning
  else if String.eqb tmp "Error" then Some SyncResult_finishedError
  else if String.eqb tmp "Stopped" then Some SyncResult_aborted
  else None.

#[export] Instance TextCodec_SyncResult : TextCodec SyncResult :=
  {| writeText := writeText_SyncResult; readText := readText_SyncResult |}.

(** [readText] accepts an input exactly when its trimmed text is the
    text of a value, and then gives that value; different values have
    different texts. *)
Definition readsWritten (T : Type) `{TextCodec T} : Prop :=
  (forall input (v : T), readText input = Some v <-> trimCpy input = writeText v) /\
  (forall v v' : T, writeText v = writeText v' -> v = v').

Definition roundTrips (T : Type) `{TextCodec T} : Prop :=
  forall v : T, readText (writeText v) = Some v.

Ltac reads_written :=
  split;
  [ intros input v; cbv -[String.eqb];
    generalize (trimCpy input); intros tmp; split;
    [ intros H;
      repeat (match type of H with
              | context [String.eqb ?t ?s] =>
                  let E := fresh "E" in
                  destruct (String.eqb_spec t s) as [E|E];
                  [injection H as <-; exact E | clear E]
              end);
      discriminate H
    | intros ->; destruct v; reflexivity ]
  | intros v v' H; destruct v, v'; first [reflexivity | cbv in H; discriminate H] ].

Ltac split_all := repeat match goal with |- _ /\ _ => split end.

Lemma CompareVariant_readsWritten : readsWritten CompareVariant.
Proof. reads_written. Qed.

Lemma SyncDirection_readsWritten : readsWritten SyncDirection.
Proof. reads_written. Qed.

Lemma BatchErrorHandling_readsWritten : readsWritten BatchErrorHandling.
Proof. reads_written. Qed.

Lemma ResultsNotification_readsWritten : readsWritten ResultsNotification.
Proof. reads_written. Qed.

Lemma PostSyncCondition_readsWritten : readsWritten PostSyncCondition.
Proof. reads_written. Qed.

Lemma PostSyncAction_readsWritten : readsWritten PostSyncAction.
Proof. reads_written. Qed.

Lemma GridIconSize_readsWritten : readsWritten GridIconSize.
Proof. reads_written. Qed.

Lemma DeletionVariant_readsWritten : readsWritten DeletionVariant.
Proof. reads_written. Qed.

Lemma SymLinkHandling_readsWritten : readsWritten SymLinkHandling.
Proof. reads_written. Qed.

Lemma GridViewType_readsWritten : readsWritten GridViewType.
Proof. reads_written. Qed.

Lemma ColumnTypeRim_readsWritten : readsWritten ColumnTypeRim.
Proof. reads_written. Qed.

Lemma ItemPathFormat_readsWritten : readsWritten ItemPathFormat.
Proof. reads_written. Qed.

Lemma ColumnTypeCfg_readsWritten : readsWritten ColumnTypeCfg.
Proof. reads_written. Qed.

Lemma ColumnTypeOverview_readsWritten : readsWritten ColumnTypeOverview.
Proof. reads_written. Qed.

Lemma UnitSize_readsWritten : readsWritten UnitSize.
Proof. reads_written. Qed.

Lemma UnitTime_readsWritten : readsWritten UnitTime.
Proof. reads_written. Qed.

Lemma LogFileFormat_readsWritten : readsWritten LogFileFormat.
Proof. reads_written. Qed.

Lemma VersioningStyle_readsWritten : readsWritten VersioningStyle.
Proof. reads_written. Qed.

Lemma SyncVariant_readsWritten : readsWritten SyncVariant.
Proof. reads_written. Qed.

Lemma SyncResult_readsWritten : readsWritten SyncResult.
Proof. reads_written. Qed.

(** For each of the twenty enumerations that
    [config.cpp] converts, [readText] succeeds on an input exactly when
    the trimmed input is the text that [writeText] gives for some
    value, and it then yields that value; any other input is rejected.
    No two values of an enumeration have the same text. *)
Theorem readText_accepts_written_texts :
  readsWritten CompareVariant /\
  readsWritten SyncDirection /\
  readsWritten BatchErrorHandling /\
  readsWritten ResultsNotification /\
  readsWritten PostSyncCondition /\
  readsWritten PostSyncAction /\
  readsWritten GridIconSize /\
  readsWritten DeletionVariant /\
  readsWritten SymLinkHandling /\
  readsWritten GridViewType /\
  readsWritten ColumnTypeRim /\
  readsWritten ItemPathFormat /\
  readsWritten ColumnTypeCfg /\
  readsWritten ColumnTypeOverview /\
  readsWritten UnitSize /\
  readsWritten UnitTime /\
  readsWritten LogFileFormat /\
  readsWritten VersioningStyle /\
  readsWritten SyncVariant /\
  readsWritten SyncResult.
Proof.
  split_all;
    first [ exact CompareVariant_readsWritten
        | exact SyncDirection_readsWritten
        | exact BatchErrorHandling_readsWritten
        | exact ResultsNotification_readsWritten
        | exact PostSyncCondition_readsWritten
        | exact PostSyncAction_readsWritten
        | exact GridIconSize_readsWritten
        | exact DeletionVariant_readsWritten
        | exact SymLinkHandling_readsWritten
        | exact GridViewType_readsWritten
        | exact ColumnTypeRim_readsWritten
        | exact ItemPathFormat_readsWritten
        | exact ColumnTypeCfg_readsWritten
        | exact ColumnTypeOverview_readsWritten
        | exact UnitSize_readsWritten
        | exact UnitTime_readsWritten
        | exact LogFileFormat_readsWritten
        | exact VersioningStyle_readsWritten
        | exact SyncVariant_readsWritten
        | exact SyncResult_readsWritten ].
Qed.

Hypothesis trimCpy_plain : forall s, plainText s = true -> trimCpy s = s.

Lemma readsWritten_roundTrips (T : Type) `{TextCodec T} :
  readsWritten T -> (forall v : T, plainText (writeText v) = true) -> roundTrips T.
Proof.
  intros [H1 _] H2 v. apply H1, trimCpy_plain, H2.
Qed.

(** Round trip of the configuration enums:
    if trimming leaves a text of letters, digits and hyphens as it is,
    then for each of the twenty enumerations reading back the text
    written for a value succeeds and gives that value. *)
Theorem writeText_readText_round_trip :
  roundTrips CompareVariant /\
  roundTrips SyncDirection /\
  roundTrips BatchErrorHandling /\
  roundTrips ResultsNotification /\
  roundTrips PostSyncCondition /\
  roundTrips PostSyncAction /\
  roundTrips GridIconSize /\
  roundTrips DeletionVariant /\
  roundTrips SymLinkHandling /\
  roundTrips GridViewType /\
  roundTrips ColumnTypeRim /\
  roundTrips ItemPathFormat /\
  roundTrips ColumnTypeCfg /\
  roundTrips ColumnTypeOverview /\
  roundTrips UnitSize /\
  roundTrips UnitTime /\
  roundTrips LogFileFormat /\
  roundTrips VersioningStyle /\
  roundTrips SyncVariant /\
  roundTrips SyncResult.
Proof.
  split_all;
    (eapply readsWritten_roundTrips;
     [ first [ exact CompareVariant_readsWritten
        | exact SyncDirection_readsWritten
        | exact BatchErrorHandling_readsWritten
        | exact ResultsNotification_readsWritten
        | exact PostSyncCondition_readsWritten
        | exact PostSyncAction_readsWritten
        | exact GridIconSize_readsWritten
        | exact DeletionVariant_readsWritten
        | exact SymLinkHandling_readsWritten
        | exact GridViewType_readsWritten
        | exact ColumnTypeRim_readsWritten
        | exact ItemPathFormat_readsWritten
        | exact ColumnTypeCfg_readsWritten
        | exact ColumnTypeOverview_readsWritten
        | exact UnitSize_readsWritten
        | exact UnitTime_readsWritten
        | exact LogFileFormat_readsWritten
        | exact VersioningStyle_readsWritten
        | exact SyncVariant_readsWritten
        | exact SyncResult_readsWritten ]
     | intros v; destruct v; reflexivity ]).
Qed.
End ConfigText.

(** A trimming function for the examples: white space is removed at both
    ends. *)
Definition isWhiteSpaceChar (c : ascii) : bool :=
  (charCode c =? 32) || ((9 <=? charCode c) && (charCode c <=? 13)).

Fixpoint dropWhiteSpace (l : list ascii) : list ascii :=
  match l with
  | c :: l' => if isWhiteSpaceChar c then dropWhiteSpace l' else l
  | [] => []
  end.

Definition sampleTrimCpy (s : string) : string :=
  string_of_list_ascii (rev (dropWhiteSpace (rev (dropWhiteSpace (list_ascii_of_string s))))).

Lemma isWordChar_no_space (c : ascii) : isWordChar c = true -> isWhiteSpaceChar c = false.
Proof.
  unfold isWordChar, isWhiteSpaceChar. intros H.
  apply orb_false_intro; [apply Z.eqb_neq | apply andb_false_iff].
  - intros E. rewrite E in H. replace c with " "%char in H by (apply charCode_inj; now rewrite E).
    discriminate H.
  - destruct (Z.leb_spec 9 (charCode c)); [right | now left].
    apply Z.leb_gt. destruct (Z.leb_spec (charCode c) 13) as [Hle|]; [|lia].
    exfalso. revert H.
    change (charCode "a") with 97. change (charCode "z") with 122.
    change (charCode "A") with 65. change (charCode "Z") with 90.
    change (charCode "0") with 48. change (charCode "9") with 57.
    destruct (Ascii.eqb_spec c "-") as [->|_]; [vm_compute in Hle; now destruct Hle|].
    rewrite orb_false_r. intros H'.
    repeat (apply orb_true_iff in H'; destruct H' as [H'|H']);
      apply andb_true_iff in H' as [A B]; apply Z.leb_le in A, B; lia.
Qed.

Lemma dropWhiteSpace_plain (l : list ascii) :
  forallb isWordChar l = true -> dropWhiteSpace l = l.
Proof.
  destruct l as [|c l]; [reflexivity|]. simpl. intros H.
  apply andb_true_iff in H as [H _]. now rewrite (isWordChar_no_space c H).
Qed.

Lemma sampleTrimCpy_plain (s : string) : plainText s = true -> sampleTrimCpy s = s.
Proof.
  unfold plainText, sampleTrimCpy. intros H.
  rewrite (dropWhiteSpace_plain _ H), dropWhiteSpace_plain.
  - now rewrite rev_involutive, string_of_list_ascii_of_string.
  - apply forallb_forall. intros c Hc. apply in_rev in Hc.
    revert c Hc. now apply forallb_forall.
Qed.

(** The text of one versioning style, read back with this trimming
    function. *)
Lemma writeText_readText_round_trip_sample :
  readText_VersioningStyle sampleTrimCpy
    (writeText_VersioningStyle VersioningStyle_timestampFile) =
  Some VersioningStyle_timestampFile.
Proof.
  apply (writeText_readText_round_trip sampleTrimCpy sampleTrimCpy_plain).
Defined.

(** * Reporting in batch mode: [ui/batch_status_handler.cpp] *)

Inductive MessageType := MSG_TYPE_INFO | MSG_TYPE_WARNING | MSG_TYPE_ERROR.
Inductive AbortTrigger := AbortTrigger_user | AbortTrigger_program.
Inductive Response := ProcessCallback_ignore | ProcessCallback_retry.

(** The answers of the three dialogs, as the [switch] statements list
    them. *)
Inductive QuestionButton2 :=
  | QuestionButton2_yes | QuestionButton2_no | QuestionButton2_cancel.
Inductive ConfirmationButton2 :=
  | ConfirmationButton2_accept | ConfirmationButton2_accept2 | ConfirmationButton2_cancel.
Inductive ConfirmationButton3 :=
  | ConfirmationButton3_accept | ConfirmationButton3_accept2
  | ConfirmationButton3_decline | ConfirmationButton3_cancel.

(** The members of [ErrorInfo] that decide what [reportError] does;
    [failTime] only dates the log entry. *)
Record ErrorInfo := mkErrorInfo {
  msg : string;
  retryNumber : N
}.

(** The line break and arrow between a message and its retry note. *)
Definition retryArrow : string := String (ascii_of_nat 10) "-> ".

Section BatchStatusHandler.
(** [zen::ErrorLog] and [zen::logMsg] are declared in a header outside
    the sources, as is the translation macro [_()]. *)
Variable ErrorLog : Type.
Variable logMsg : ErrorLog -> string -> MessageType -> ErrorLog.
Variable translate : string -> string.

(** The members the three reporting callbacks read or write, and the
    option "ignore errors" that they read and set through
    [progressDlg_]. *)
Record BatchStatusHandler := mkBatchStatusHandler {
  errorLog_ : ErrorLog;
  switchToGuiRequested_ : bool;
  autoRetryCount_ : N;
  batchErrorHandling_ : BatchErrorHandling;
  optionIgnoreErrors : bool
}.

(** A callback returns, or it leaves by the exception [AbortProcess]:
    thrown by [abortProcessNow(trigger)], or by the status update
    inside [delayAndCountDown] (no trigger of its own). *)
Inductive Outcome (A : Type) :=
  | Returns (a : A) (h : BatchStatusHandler)
  | ThrowsAbortProcess (trigger : option AbortTrigger) (h : BatchStatusHandler).
Arguments Returns {A} a h.
Arguments ThrowsAbortProcess {A} trigger h.

Definition Call (A : Type) : Type := BatchStatusHandler -> Outcome A.

#[local] Instance Call_ret : MRet Call := fun A a h => Returns a h.

#[local] Instance Call_bind : MBind Call := fun A B k m h =>
  match m h with
  | Returns a h' => k a h'
  | ThrowsAbortProcess trigger h' => ThrowsAbortProcess trigger h'
  end.

Definition logMsg_errorLog (message : string) (type : MessageType) : Call unit :=
  fun h =>
    Returns tt (mkBatchStatusHandler (logMsg (errorLog_ h) message type)
                  (switchToGuiRequested_ h) (autoRetryCount_ h) (batchErrorHandling_ h)
                  (optionIgnoreErrors h)).

Definition setSwitchToGuiRequested (b : bool) : Call unit :=
  fun h =>
    Returns tt (mkBatchStatusHandler (errorLog_ h) b (autoRetryCount_ h)
                  (batchErrorHandling_ h) (optionIgnoreErrors h)).

Definition setOptionIgnoreErrors (b : bool) : Call unit :=
  fun h =>
    Returns tt (mkBatchStatusHandler (errorLog_ h) (switchToGuiRequested_ h)
                  (autoRetryCount_ h) (batchErrorHandling_ h) b).

Definition abortProcessNow {A : Type} (trigger : AbortTrigger) : Call A :=
  fun h => ThrowsAbortProcess (Some trigger) h.

(** [delayAndCountDown]; [cancelled] tells whether the status update
    in its callback throws. *)
Definition delayAndCountDown (cancelled : bool) : Call unit :=
  fun h => if cancelled then ThrowsAbortProcess None h else Returns tt h.

(** [makeGuard<ScopeGuardRunMode::onExit>]: [guard] runs when the
    scope is left, by [return] or by an exception, unless the body has
    called [dismiss()]; the body returns whether it has. *)
Definition onExit {A : Type} (guard : Call unit) (body : Call (bool * A)) : Call A :=
  fun h =>
    match body h with
    | Returns (dismissed, a) h' =>
        if dismissed then Returns a h' else (guard ;; mret a) h'
    | ThrowsAbortProcess trigger h' =>
        match guard h' with
        | Returns _ h'' => ThrowsAbortProcess trigger h''
        | ThrowsAbortProcess _ h'' => ThrowsAbortProcess trigger h''
        end
    end.

(** [reportWarning]; the result is the new value of the reference
    argument [warningActive].  [answer] and [dontWarnAgain] are what
    the user does in the dialog, if it is shown. *)
Definition reportWarning (message : string) (warningActive : bool)
    (answer : QuestionButton2) (dontWarnAgain : bool) : Call bool :=
  logMsg_errorLog message MSG_TYPE_WARNING ;;
  if negb warningActive then mret warningActive
  else fun h =>
    (if negb (optionIgnoreErrors h) then
       match batchErrorHandling_ h with
       | BatchErrorHandling_showPopup =>
           match answer with
           | QuestionButton2_yes => mret (negb dontWarnAgain)
           | QuestionButton2_no =>
               logMsg_errorLog (translate "Switching to FreeFileSync's main window")
                 MSG_TYPE_INFO ;;
               setSwitchToGuiRequested true ;;
               abortProcessNow AbortTrigger_user
           | QuestionButton2_cancel => abortProcessNow AbortTrigger_user
           end
       | BatchErrorHandling_cancel => abortProcessNow AbortTrigger_program
       end
     else mret warningActive) h.

(** [reportError]; [cancelled] and [answer] are what the user does
    during the countdown and in the dialog. *)
Definition reportError (errorInfo : ErrorInfo) (cancelled : bool)
    (answer : ConfirmationButton3) : Call Response :=
  fun h =>
    (if (retryNumber errorInfo <? autoRetryCount_ h)%N then
       logMsg_errorLog (msg errorInfo ++ retryArrow ++ translate "Automatic retry")%string
         MSG_TYPE_INFO ;;
       delayAndCountDown cancelled ;;
       mret ProcessCallback_retry
     else
       onExit (logMsg_errorLog (msg errorInfo) MSG_TYPE_ERROR)
         (fun h' =>
            (if negb (optionIgnoreErrors h') then
               match batchErrorHandling_ h' with
               | BatchErrorHandling_showPopup =>
                   match answer with
                   | ConfirmationButton3_accept => mret (false, ProcessCallback_ignore)
                   | ConfirmationButton3_accept2 =>
                       setOptionIgnoreErrors true ;;
                       mret (false, ProcessCallback_ignore)
                   | ConfirmationButton3_decline =>
                       logMsg_errorLog
                         (msg errorInfo ++ retryArrow ++ translate "Retrying operation...")%string
                         MSG_TYPE_INFO ;;
                       mret (true, ProcessCallback_retry)
                   | ConfirmationButton3_cancel => abortProcessNow AbortTrigger_user
                   end
               | BatchErrorHandling_cancel => abortProcessNow AbortTrigger_program
               end
             else mret (false, ProcessCallback_ignore)) h')) h.

(** [reportFatalError]. *)
Definition reportFatalError (message : string) (answer : ConfirmationButton2) : Call unit :=
  logMsg_errorLog message MSG_TYPE_ERROR ;;
  ((fun h =>
      (if negb (optionIgnoreErrors h) then
         match batchErrorHandling_ h with
         | BatchErrorHandling_showPopup =>
             match answer with
             | ConfirmationButton2_accept => mret tt
             | ConfirmationButton2_accept2 => setOptionIgnoreErrors true
             | ConfirmationButton2_cancel => abortProcessNow AbortTrigger_user
             end
         | BatchErrorHandling_cancel => abortProcessNow AbortTrigger_program
         end
       else mret tt) h) : Call unit).

(** One call of a reporting callback together with what the user does
    while it runs. *)
Inductive Report :=
  | ReportWarning (message : string) (warningActive : bool)
      (answer : QuestionButton2) (dontWarnAgain : bool)
  | ReportError (errorInfo : ErrorInfo) (cancelled : bool) (answer : ConfirmationButton3)
  | ReportFatalError (message : string) (answer : ConfirmationButton2).

Definition report (r : Report) : Call unit :=
  match r with
  | ReportWarning message warningActive answer dontWarnAgain =>
      reportWarning message warningActive answer dontWarnAgain ;; mret tt
  | ReportError errorInfo cancelled answer =>
      reportError errorInfo cancelled answer ;; mret tt
  | ReportFatalError message answer => reportFatalError message answer
  end.

(** Calls one after the other; an exception ends the sequence. *)
Fixpoint reports (rs : list Report) : Call unit :=
  match rs with
  | [] => mret tt
  | r :: rs' => report r ;; reports rs'
  end.

(** The same calls, whatever the user would answer. *)
Inductive sameCalls : Report -> Report -> Prop :=
  | SameWarning message warningActive answer dontWarnAgain answer' dontWarnAgain' :
      sameCalls (ReportWarning message warningActive answer dontWarnAgain)
                (ReportWarning message warningActive answer' dontWarnAgain')
  | SameError errorInfo cancelled answer answer' :
      sameCalls (ReportError errorInfo cancelled answer)
                (ReportError errorInfo cancelled answer')
  | SameFatalError message answer answer' :
      sameCalls (ReportFatalError message answer) (ReportFatalError message answer').

(** The one entry that a call leaves in the log when errors are
    ignored. *)
Definition loggedWhenIgnored (autoRetryCount : N) (log : ErrorLog) (r : Report) : ErrorLog :=
  match r with
  | ReportWarning message _ _ _ => logMsg log message MSG_TYPE_WARNING
  | ReportError errorInfo _ _ =>
      if (retryNumber errorInfo <? autoRetryCount)%N
      then logMsg log (msg errorInfo ++ retryArrow ++ translate "Automatic retry")%string
             MSG_TYPE_INFO
      else logMsg log (msg errorInfo) MSG_TYPE_ERROR
  | ReportFatalError message _ => logMsg log message MSG_TYPE_ERROR
  end.

Definition countdownCancelled (r : Report) : bool :=
  match r with
  | ReportError _ cancelled _ => cancelled
  | _ => false
  end.

Ltac run_call :=
  cbv beta iota delta [mbind Call_bind mret Call_ret logMsg_errorLog delayAndCountDown
    onExit abortProcessNow setOptionIgnoreErrors setSwitchToGuiRequested
    errorLog_ switchToGuiRequested_ autoRetryCount_ batchErrorHandling_ optionIgnoreErrors
    negb].

(** [reportError] writes exactly one entry
    to the log on every path, also when it leaves by an exception: the
    message as an error, unless the operation is retried; then the
    message with a retry note, as an information.  [retry] is answered
    only below the automatic retry count or when the user chooses
    "Retry"; an exception with a trigger comes after the error entry;
    a countdown that the user cancels comes after the retry note. *)
Theorem reportError_logs_once (errorInfo : ErrorInfo) (cancelled : bool)
    (answer : ConfirmationButton3) (h : BatchStatusHandler) :
  match reportError errorInfo cancelled answer h with
  | Returns ProcessCallback_ignore h' =>
      errorLog_ h' = logMsg (errorLog_ h) (msg errorInfo) MSG_TYPE_ERROR /\
      (autoRetryCount_ h <= retryNumber errorInfo)%N
  | Returns ProcessCallback_retry h' =>
      ((retryNumber errorInfo < autoRetryCount_ h)%N /\
       errorLog_ h' =
       logMsg (errorLog_ h) (msg errorInfo ++ retryArrow ++ translate "Automatic retry")%string
         MSG_TYPE_INFO) \/
      ((autoRetryCount_ h <= retryNumber errorInfo)%N /\
       answer = ConfirmationButton3_decline /\
       errorLog_ h' =
       logMsg (errorLog_ h)
         (msg errorInfo ++ retryArrow ++ translate "Retrying operation...")%string
         MSG_TYPE_INFO)
  | ThrowsAbortProcess (Some trigger) h' =>
      errorLog_ h' = logMsg (errorLog_ h) (msg errorInfo) MSG_TYPE_ERROR /\
      (autoRetryCount_ h <= retryNumber errorInfo)%N /\
      optionIgnoreErrors h = false /\
      trigger = match batchErrorHandling_ h with
                | BatchErrorHandling_showPopup => AbortTrigger_user
                | BatchErrorHandling_cancel => AbortTrigger_program
                end
  | ThrowsAbortProcess None h' =>
      (retryNumber errorInfo < autoRetryCount_ h)%N /\ cancelled = true /\
      errorLog_ h' =
      logMsg (errorLog_ h) (msg errorInfo ++ retryArrow ++ translate "Automatic retry")%string
        MSG_TYPE_INFO
  end.
Proof.
  unfold reportError.
  destruct (N.ltb_spec (retryNumber errorInfo) (autoRetryCount_ h)) as [Hlt|Hge].
  - destruct cancelled; run_call; auto.
  - destruct h as [log sw n policy ign].
    destruct ign, policy, answer; run_call; cbn in *; auto 6.
Qed.

Lemma reports_cons (r : Report) (rs : list Report) (h : BatchStatusHandler) :
  reports (r :: rs) h =
  match report r h with
  | Returns _ h' => reports rs h'
  | ThrowsAbortProcess trigger h' => ThrowsAbortProcess trigger h'
  end.
Proof. reflexivity. Qed.

(** A handler that asks nobody: errors are ignored, or the first one
    cancels the run. *)
Definition unattended (h : BatchStatusHandler) : Prop :=
  optionIgnoreErrors h = true \/ batchErrorHandling_ h = BatchErrorHandling_cancel.

Lemma report_ignoring (r : Report) (h : BatchStatusHandler) :
  optionIgnoreErrors h = true ->
  countdownCancelled r = false ->
  report r h =
  Returns tt (mkBatchStatusHandler (loggedWhenIgnored (autoRetryCount_ h) (errorLog_ h) r)
                (switchToGuiRequested_ h) (autoRetryCount_ h) (batchErrorHandling_ h) true).
Proof.
  destruct h as [log sw n policy ign]. simpl. intros -> Hc.
  destruct r as [message active answer again | errorInfo cancelled answer | message answer];
    simpl in Hc; subst; unfold report, reportWarning, reportError, reportFatalError,
    loggedWhenIgnored.
  - destruct active; run_call; reflexivity.
  - run_call. destruct (retryNumber errorInfo <? n)%N; reflexivity.
  - run_call. reflexivity.
Qed.

Lemma report_unattended (r r' : Report) (h : BatchStatusHandler) :
  unattended h -> sameCalls r r' ->
  report r h = report r' h /\
  (forall h', report r h = Returns tt h' -> unattended h').
Proof.
  destruct h as [log sw n policy ign]. unfold unattended. simpl. intros Hu Hs.
  assert (ign = false -> policy = BatchErrorHandling_showPopup -> False) as Hno.
  { intros -> ->. destruct Hu; discriminate. }
  destruct Hs as [message active answer again answer' again'
                 | errorInfo cancelled answer answer' | message answer answer'];
    unfold report, reportWarning, reportError, reportFatalError.
  - destruct active, ign, policy; try (exfalso; now apply Hno); run_call;
      (split; [reflexivity | intros h' H; try discriminate H; injection H as <-; exact Hu]).
  - run_call.
    destruct (retryNumber errorInfo <? n)%N, cancelled, ign, policy;
      try (exfalso; now apply Hno);
      (split; [reflexivity | intros h' H; try discriminate H; injection H as <-; exact Hu]).
  - destruct ign, policy; try (exfalso; now apply Hno); run_call;
      (split; [reflexivity | intros h' H; try discriminate H; injection H as <-; exact Hu]).
Qed.

(** With the option "ignore errors" set, a
    batch run is never stopped by what it reports: any sequence of
    warnings, errors and fatal errors returns, none of them sets
    [switchToGuiRequested_] or clears the option, and each leaves
    exactly one entry in the log, in the order of the calls: the
    warning, the error (or its automatic-retry note while below the
    retry count), the fatal error.  The only exception there can be is
    a countdown of an automatic retry that the user cancels. *)
Theorem ignoring_errors_runs_to_completion (rs : list Report) (h : BatchStatusHandler) :
  optionIgnoreErrors h = true ->
  forallb (fun r => negb (countdownCancelled r)) rs = true ->
  exists h',
    reports rs h = Returns tt h' /\
    errorLog_ h' = fold_left (loggedWhenIgnored (autoRetryCount_ h)) rs (errorLog_ h) /\
    optionIgnoreErrors h' = true /\
    switchToGuiRequested_ h' = switchToGuiRequested_ h /\
    autoRetryCount_ h' = autoRetryCount_ h /\
    batchErrorHandling_ h' = batchErrorHandling_ h.
Proof.
  revert h. induction rs as [|r rs IH]; intros h Hign Hc.
  - exists h. repeat split; try reflexivity. exact Hign.
  - simpl in Hc. apply andb_true_iff in Hc as [Hr Hc]. apply negb_true_iff in Hr.
    rewrite reports_cons, (report_ignoring r h Hign Hr).
    destruct (IH (mkBatchStatusHandler (loggedWhenIgnored (autoRetryCount_ h) (errorLog_ h) r)
                    (switchToGuiRequested_ h) (autoRetryCount_ h) (batchErrorHandling_ h) true)
                eq_refl Hc) as (h' & E & L & I & S & A & B).
    exists h'. simpl in *. repeat split; assumption.
Qed.

(** A handler that ignores errors, or whose
    error handling is [cancel], never asks: the outcome of any sequence
    of warnings, errors and fatal errors, with the handler it leaves
    behind, is the same whatever the answers in the dialogs would have
    been; the dialogs are not shown. *)
Theorem unattended_never_asks (rs rs' : list Report) (h : BatchStatusHandler) :
  unattended h ->
  Forall2 sameCalls rs rs' ->
  reports rs h = reports rs' h.
Proof.
  intros Hu Hs. revert h Hu. induction Hs as [|r r' rs rs' Hr _ IH]; intros h Hu.
  - reflexivity.
  - rewrite !reports_cons.
    destruct (report_unattended r r' h Hu Hr) as [E Hnext]. rewrite <- E.
    destruct (report r h) as [[] h1 | trigger h1]; [|reflexivity].
    apply IH, Hnext. reflexivity.
Qed.

Lemma report_switchToGui (r : Report) (h : BatchStatusHandler) :
  switchToGuiRequested_ h = false ->
  match report r h with
  | Returns _ h' => switchToGuiRequested_ h' = false
  | ThrowsAbortProcess trigger h' =>
      switchToGuiRequested_ h' = true -> trigger = Some AbortTrigger_user
  end.
Proof.
  destruct h as [log sw n policy ign]. simpl. intros ->.
  destruct r as [message active answer again | errorInfo cancelled answer | message answer];
    unfold report, reportWarning, reportError, reportFatalError.
  - destruct active, ign, policy, answer; run_call; try reflexivity; intros; try discriminate;
      reflexivity.
  - run_call.
    destruct (retryNumber errorInfo <? n)%N, cancelled, ign, policy, answer;
      try reflexivity; intros; try discriminate; reflexivity.
  - destruct ign, policy, answer; run_call; try reflexivity; intros; try discriminate;
      reflexivity.
Qed.

(** A switch to the main window is requested
    only together with a cancel by the user: after any sequence of
    warnings, errors and fatal errors on a handler that had no such
    request, [switchToGuiRequested_] is still unset if the calls have
    returned, and if it is set, the sequence has ended with the
    exception of [abortProcessNow(AbortTrigger::user)]. *)
Theorem switchToGui_only_with_user_abort (rs : list Report) (h : BatchStatusHandler) :
  switchToGuiRequested_ h = false ->
  match reports rs h with
  | Returns _ h' => switchToGuiRequested_ h' = false
  | ThrowsAbortProcess trigger h' =>
      switchToGuiRequested_ h' = true -> trigger = Some AbortTrigger_user
  end.
Proof.
  revert h. induction rs as [|r rs IH]; intros h Hsw.
  - exact Hsw.
  - rewrite reports_cons. pose proof (report_switchToGui r h Hsw) as Hr.
    destruct (report r h) as [[] h1 | trigger h1]; [apply IH, Hr | exact Hr].
Qed.
End BatchStatusHandler.

(** A log as the list of its entries, for the examples. *)
Definition sampleLogMsg (log : list (string * MessageType)) (message : string)
    (type : MessageType) : list (string * MessageType) :=
  log ++ [(message, type)].

Definition sampleHandler (ignoreErrors : bool) (policy : BatchErrorHandling)
    : BatchStatusHandler (list (string * MessageType)) :=
  mkBatchStatusHandler _ [] false 1%N policy ignoreErrors.

Definition sampleReports (answer : ConfirmationButton3) : list Report :=
  [ ReportWarning "low disk space" true QuestionButton2_cancel false;
    ReportError (mkErrorInfo "cannot read file" 0) false answer;
    ReportError (mkErrorInfo "cannot read file" 1) false answer;
    ReportFatalError "cannot lock folder" ConfirmationButton2_cancel ].

(** A run of four reports with errors ignored, and the log it leaves. *)
Lemma ignoring_errors_sample :
  exists h',
    reports _ sampleLogMsg (fun s => s) (sampleReports ConfirmationButton3_cancel)
      (sampleHandler true BatchErrorHandling_showPopup) = Returns _ _ tt h' /\
    errorLog_ _ h' =
    [ ("low disk space", MSG_TYPE_WARNING);
      ("cannot read file" ++ retryArrow ++ "Automatic retry", MSG_TYPE_INFO)%string;
      ("cannot read file", MSG_TYPE_ERROR);
      ("cannot lock folder", MSG_TYPE_ERROR) ].
Proof.
  destruct (ignoring_errors_runs_to_completion _ sampleLogMsg (fun s => s)
              (sampleReports ConfirmationButton3_cancel)
              (sampleHandler true BatchErrorHandling_showPopup))
    as (h' & E & L & _); [reflexivity | reflexivity |].
  exists h'. split; [exact E | exact L].
Defined.

(** The same run on a handler whose error handling is [cancel], under
    two different answers. *)
Lemma unattended_never_asks_sample :
  reports _ sampleLogMsg (fun s => s) (sampleReports ConfirmationButton3_decline)
    (sampleHandler false BatchErrorHandling_cancel) =
  reports _ sampleLogMsg (fun s => s) (sampleReports ConfirmationButton3_accept2)
    (sampleHandler false BatchErrorHandling_cancel).
Proof.
  apply unattended_never_asks.
  - right. reflexivity.
  - repeat constructor.
Defined.

(** A run in which the user chooses "Switch" in the dialog of the first
    warning. *)
Lemma switchToGui_sample :
  match reports _ sampleLogMsg (fun s => s)
          [ ReportWarning "low disk space" true QuestionButton2_no false;
            ReportFatalError "cannot lock folder" ConfirmationButton2_accept ]
          (sampleHandler false BatchErrorHandling_showPopup) with
  | Returns _ _ _ h' => switchToGuiRequested_ _ h' = false
  | ThrowsAbortProcess _ _ trigger h' =>
      switchToGuiRequested_ _ h' = true -> trigger = Some AbortTrigger_user
  end.
Proof.
  apply (switchToGui_only_with_user_abort _ sampleLogMsg (fun s => s)). reflexivity.
Defined.

(** ** The end of a batch run: [BatchStatusHandler::reportResults] *)

Inductive PostSyncAction2 :=
  | PostSyncAction2_none | PostSyncAction2_exit
  | PostSyncAction2_sleep | PostSyncAction2_shutdown.

Inductive FinalRequest := FinalRequest_none | FinalRequest_switchGui | FinalRequest_shutdown.

(** The members of [ErrorLogStats] that [reportResults] reads. *)
Record ErrorLogStats := mkErrorLogStats {
  warning : Z;
  error : Z
}.

(** What [reportResults] does to the world outside, in order. *)
Inductive Effect :=
  | RunCommand (cmdLine : string)
  | SendLogAsEmail (notifyEmail : string)
  | PlaySound (soundFile : string)
  | SaveLogFile (defaultPath : bool)
  | SuspendSystem.

Section ReportResults.
Variable ErrorLog : Type.
Variable logMsg : ErrorLog -> string -> MessageType -> ErrorLog.
Variable getStats : ErrorLog -> ErrorLogStats.
Variable translate : string -> string.
Variable trimCpy : string -> string.
Variable replaceCpy : string -> string -> string -> string.
Variable expandMacros : string -> string.
(** The log after [runCommandAndLogErrors]. *)
Variable runCommandAndLogErrors : string -> ErrorLog -> ErrorLog.

(** The arguments of [reportResults], the state of the handler and of
    its progress dialog when it is called, and what the calls it makes
    run into: the [FileError] of [sendLogAsEmail], [saveLogFile] and
    [suspendSystem] if they throw one, and whether the user cancels
    the countdown before sleep or shutdown. *)
Record ReportResultsCall := mkReportResultsCall {
  postSyncCommand : string;
  postSyncCondition : PostSyncCondition;
  emailNotifyAddress : string;
  emailNotifyCondition : ResultsNotification;
  abortStatus : option AbortTrigger;
  errorLogAtCall : ErrorLog;
  statsTotalIsEmpty : bool;
  switchToGuiRequested : bool;
  soundFileSyncComplete_ : string;
  optionPostSyncAction : PostSyncAction2;
  optionAutoCloseDialog : bool;
  windowIfVisible : bool;
  sendLogAsEmailError : option string;
  countDownCancelled : bool;
  saveLogFileError : option string;
  logFilePathIsDefault : bool;
  saveLogFileDefaultError : option string;
  suspendSystemError : option string
}.

Record ReportResultsOutcome := mkReportResultsOutcome {
  syncResult : SyncResult;
  errorLogFinal : ErrorLog;
  finalRequest : FinalRequest;
  autoClose : bool;
  effects : list Effect
}.

(** The lambda that determines [syncResult], with the log it leaves. *)
Definition determineSyncResult (c : ReportResultsCall) : SyncResult * ErrorLog :=
  match abortStatus c with
  | Some _ =>
      (SyncResult_aborted, logMsg (errorLogAtCall c) (translate "Stopped") MSG_TYPE_ERROR)
  | None =>
      let logCount := getStats (errorLogAtCall c) in
      if 0 <? error logCount then (SyncResult_finishedError, errorLogAtCall c)
      else if 0 <? warning logCount then (SyncResult_finishedWarning, errorLogAtCall c)
      else (SyncResult_finishedSuccess,
            if statsTotalIsEmpty c
            then logMsg (errorLogAtCall c) (translate "Nothing to synchronize") MSG_TYPE_INFO
            else errorLogAtCall c)
  end.

(** [syncResult == SyncResult::aborted || syncResult == SyncResult::finishedError] *)
Definition abortedOrError (r : SyncResult) : bool :=
  match r with
  | SyncResult_aborted | SyncResult_finishedError => true
  | _ => false
  end.

Definition isUserAbort (c : ReportResultsCall) : bool :=
  match abortStatus c with
  | Some AbortTrigger_user => true
  | _ => false
  end.

(** The condition of the post-sync command:
    [postSyncCondition == completion ||
     (postSyncCondition == errors) == (aborted || finishedError)]. *)
Definition commandDue (condition : PostSyncCondition) (r : SyncResult) : bool :=
  match condition with PostSyncCondition_completion => true | _ => false end ||
  Bool.eqb (match condition with PostSyncCondition_errors => true | _ => false end)
           (abortedOrError r).

(** The condition of the email notification. *)
Definition emailDue (condition : ResultsNotification) (r : SyncResult) : bool :=
  match condition with ResultsNotification_always => true | _ => false end ||
  (match condition with ResultsNotification_errorWarning => true | _ => false end &&
   match r with
   | SyncResult_aborted | SyncResult_finishedError | SyncResult_finishedWarning => true
   | _ => false
   end) ||
  (match condition with ResultsNotification_errorOnly => true | _ => false end &&
   abortedOrError r).

(** The lambda [proceedWithShutdown]: without a visible window there
    is no countdown. *)
Definition proceedWithShutdown (c : ReportResultsCall) : bool :=
  if windowIfVisible c then negb (countDownCancelled c) else true.

(** The parts of [reportResults], each with the log it leaves and what
    it does outside. *)

(** "post sync command" *)
Definition runPostSyncCommand (c : ReportResultsCall) (result : SyncResult) (log : ErrorLog)
    : ErrorLog * list Effect :=
  let cmdLine := trimCpy (postSyncCommand c) in
  if negb (Zempty cmdLine) && commandDue (postSyncCondition c) result
  then (runCommandAndLogErrors (expandMacros cmdLine) log, [RunCommand (expandMacros cmdLine)])
  else (log, []).

(** "email notification" *)
Definition sendEmailNotification (c : ReportResultsCall) (result : SyncResult)
    (log : ErrorLog) : ErrorLog * list Effect :=
  let notifyEmail := trimCpy (emailNotifyAddress c) in
  if negb (Zempty notifyEmail) && emailDue (emailNotifyCondition c) result
  then
    let logSending :=
      logMsg log (replaceCpy (translate "Sending email notification to %x") "%x" notifyEmail)
        MSG_TYPE_INFO in
    (match sendLogAsEmailError c with
     | Some e => logMsg logSending e MSG_TYPE_ERROR
     | None => logSending
     end, [SendLogAsEmail notifyEmail])
  else (log, []).

(** "post sync actions": the new values of [autoClose],
    [finalRequest] and [suspend]. *)
Definition postSyncActions (c : ReportResultsCall) : bool * FinalRequest * bool :=
  match optionPostSyncAction c with
  | PostSyncAction2_none => (optionAutoCloseDialog c, FinalRequest_none, false)
  | PostSyncAction2_exit => (false, FinalRequest_none, false)
  | PostSyncAction2_sleep =>
      if proceedWithShutdown c
      then (optionAutoCloseDialog c, FinalRequest_none, true)
      else (false, FinalRequest_none, false)
  | PostSyncAction2_shutdown =>
      if proceedWithShutdown c
      then (true, FinalRequest_shutdown, false)
      else (false, FinalRequest_none, false)
  end.

(** "sound notification" *)
Definition playSound (c : ReportResultsCall) (autoClose : bool) : list Effect :=
  if negb autoClose && negb (Zempty (soundFileSyncComplete_ c))
  then [PlaySound (soundFileSyncComplete_ c)]
  else [].

(** "save log file" *)
Definition saveLog (c : ReportResultsCall) (log : ErrorLog) : ErrorLog * list Effect :=
  match saveLogFileError c with
  | None => (log, [SaveLogFile (logFilePathIsDefault c)])
  | Some e =>
      let logFailed := logMsg log e MSG_TYPE_ERROR in
      if negb (logFilePathIsDefault c)
      then (match saveLogFileDefaultError c with
            | Some e2 => logMsg logFailed e2 MSG_TYPE_ERROR
            | None => logFailed
            end,
            [SaveLogFile false; SaveLogFile true])
      else (logFailed, [SaveLogFile true])
  end.

Definition suspendIf (c : ReportResultsCall) (suspend : bool) (log : ErrorLog)
    : ErrorLog * list Effect :=
  if suspend
  then (match suspendSystemError c with
        | Some e => logMsg log e MSG_TYPE_ERROR
        | None => log
        end, [SuspendSystem])
  else (log, []).

Definition reportResults (c : ReportResultsCall) : ReportResultsOutcome :=
  let (result, log0) := determineSyncResult c in
  let '(log2, fx2, autoClose, finalRequest, suspend) :=
    if isUserAbort c then (log0, [], false, FinalRequest_none, false)
    else
      let (log1, fxCommand) := runPostSyncCommand c result log0 in
      let (log2, fxEmail) := sendEmailNotification c result log1 in
      let '(autoClose, finalRequest, suspend) := postSyncActions c in
      (log2, fxCommand ++ fxEmail ++ playSound c autoClose, autoClose, finalRequest, suspend) in
  let (log3, fxSave) := saveLog c log2 in
  let (log4, fxSuspend) := suspendIf c suspend log3 in
  if switchToGuiRequested c
  then mkReportResultsOutcome result log4 FinalRequest_switchGui true
         (fx2 ++ fxSave ++ fxSuspend)
  else mkReportResultsOutcome result log4 finalRequest autoClose
         (fx2 ++ fxSave ++ fxSuspend).
(** What each part does outside; the log does not matter for it. *)
Definition commandEffects (c : ReportResultsCall) (result : SyncResult) : list Effect :=
  if negb (Zempty (trimCpy (postSyncCommand c))) && commandDue (postSyncCondition c) result
  then [RunCommand (expandMacros (trimCpy (postSyncCommand c)))] else [].

Definition emailEffects (c : ReportResultsCall) (result : SyncResult) : list Effect :=
  if negb (Zempty (trimCpy (emailNotifyAddress c))) && emailDue (emailNotifyCondition c) result
  then [SendLogAsEmail (trimCpy (emailNotifyAddress c))] else [].

Definition saveEffects (c : ReportResultsCall) : list Effect :=
  match saveLogFileError c with
  | None => [SaveLogFile (logFilePathIsDefault c)]
  | Some _ => if negb (logFilePathIsDefault c) then [SaveLogFile false; SaveLogFile true]
              else [SaveLogFile true]
  end.

Definition suspendDue (c : ReportResultsCall) : bool :=
  negb (isUserAbort c) && snd (postSyncActions c).

Lemma reportResults_effects (c : ReportResultsCall) :
  effects (reportResults c) =
  (if isUserAbort c then []
   else commandEffects c (fst (determineSyncResult c)) ++
        emailEffects c (fst (determineSyncResult c)) ++
        playSound c (fst (fst (postSyncActions c)))) ++
  saveEffects c ++
  (if suspendDue c then [SuspendSystem] else []).
Proof.
  unfold reportResults, suspendDue.
  destruct (determineSyncResult c) as [result log0]. cbn [fst].
  destruct (isUserAbort c).
  - unfold saveLog, saveEffects, suspendIf. cbn [negb andb].
    destruct (saveLogFileError c), (logFilePathIsDefault c), (switchToGuiRequested c);
      reflexivity.
  - unfold runPostSyncCommand, sendEmailNotification, commandEffects, emailEffects.
    destruct (negb (Zempty (trimCpy (postSyncCommand c))) &&
              commandDue (postSyncCondition c) result);
      destruct (negb (Zempty (trimCpy (emailNotifyAddress c))) &&
                emailDue (emailNotifyCondition c) result);
      destruct (postSyncActions c) as [[autoClose' finalRequest'] suspend'];
      cbn [fst snd negb andb];
      unfold saveLog, saveEffects, suspendIf;
      destruct (saveLogFileError c), (logFilePathIsDefault c), suspend',
        (switchToGuiRequested c); reflexivity.
Qed.

Lemma reportResults_syncResult (c : ReportResultsCall) :
  syncResult (reportResults c) = fst (determineSyncResult c).
Proof.
  unfold reportResults. destruct (determineSyncResult c) as [result log0].
  destruct (isUserAbort c).
  - destruct (saveLog c log0) as [log3 fxSave], (suspendIf c false log3), (switchToGuiRequested c);
      reflexivity.
  - destruct (runPostSyncCommand c result log0) as [log1 fxC].
    destruct (sendEmailNotification c result log1) as [log2 fxE].
    destruct (postSyncActions c) as [[autoClose' finalRequest'] suspend'].
    destruct (saveLog c log2) as [log3 fxSave], (suspendIf c suspend' log3),
      (switchToGuiRequested c); reflexivity.
Qed.

Lemma reportResults_requests (c : ReportResultsCall) :
  (finalRequest (reportResults c), autoClose (reportResults c)) =
  if switchToGuiRequested c then (FinalRequest_switchGui, true)
  else if isUserAbort c then (FinalRequest_none, false)
  else (snd (fst (postSyncActions c)), fst (fst (postSyncActions c))).
Proof.
  unfold reportResults. destruct (determineSyncResult c) as [result log0].
  destruct (isUserAbort c).
  - destruct (saveLog c log0) as [log3 fxSave], (suspendIf c false log3), (switchToGuiRequested c);
      reflexivity.
  - destruct (runPostSyncCommand c result log0) as [log1 fxC].
    destruct (sendEmailNotification c result log1) as [log2 fxE].
    destruct (postSyncActions c) as [[autoClose' finalRequest'] suspend'].
    destruct (saveLog c log2) as [log3 fxSave], (suspendIf c suspend' log3),
      (switchToGuiRequested c); reflexivity.
Qed.
Lemma commandDue_cases (condition : PostSyncCondition) (r : SyncResult) :
  commandDue condition r = true <->
  condition = PostSyncCondition_completion \/
  (condition = PostSyncCondition_errors /\
   (r = SyncResult_aborted \/ r = SyncResult_finishedError)) \/
  (condition = PostSyncCondition_success /\
   (r = SyncResult_finishedSuccess \/ r = SyncResult_finishedWarning)).
Proof.
  destruct condition, r; cbn; split; intros H; try discriminate H; try reflexivity;
    try tauto;
    repeat match goal with
           | H : _ \/ _ |- _ => destruct H
           | H : _ /\ _ |- _ => destruct H
           end; discriminate.
Qed.

Lemma emailDue_cases (condition : ResultsNotification) (r : SyncResult) :
  emailDue condition r = true <->
  condition = ResultsNotification_always \/
  (condition = ResultsNotification_errorWarning /\ r <> SyncResult_finishedSuccess) \/
  (condition = ResultsNotification_errorOnly /\
   (r = SyncResult_aborted \/ r = SyncResult_finishedError)).
Proof.
  destruct condition, r; cbn; split; intros H; try discriminate H; try reflexivity;
    try (right; left; split; [reflexivity | discriminate]);
    try tauto;
    repeat match goal with
           | H : _ \/ _ |- _ => destruct H
           | H : _ /\ _ |- _ => destruct H
           end; try discriminate; try congruence.
Qed.

Lemma In_saveEffects (c : ReportResultsCall) (e : Effect) :
  In e (saveEffects c) -> exists b, e = SaveLogFile b.
Proof.
  unfold saveEffects.
  destruct (saveLogFileError c), (logFilePathIsDefault c); simpl; intros H;
    repeat destruct H as [H|H]; try contradiction; subst; eauto.
Qed.

Lemma In_playSound (c : ReportResultsCall) (b : bool) (e : Effect) :
  In e (playSound c b) -> b = false /\ e = PlaySound (soundFileSyncComplete_ c).
Proof.
  unfold playSound. destruct b; simpl; [contradiction|].
  destruct (negb _); simpl; intros H; [|contradiction].
  destruct H as [<-|[]]. now split.
Qed.

Lemma In_commandEffects (c : ReportResultsCall) (r : SyncResult) (e : Effect) :
  In e (commandEffects c r) <->
  e = RunCommand (expandMacros (trimCpy (postSyncCommand c))) /\
  Zempty (trimCpy (postSyncCommand c)) = false /\
  commandDue (postSyncCondition c) r = true.
Proof.
  unfold commandEffects.
  destruct (Zempty (trimCpy (postSyncCommand c))),
    (commandDue (postSyncCondition c) r); simpl; split;
    try contradiction; try (intros (_ & H1 & H2); discriminate).
  - intros [<-|[]]. auto.
  - intros (-> & _). now left.
Qed.

Lemma In_emailEffects (c : ReportResultsCall) (r : SyncResult) (e : Effect) :
  In e (emailEffects c r) <->
  e = SendLogAsEmail (trimCpy (emailNotifyAddress c)) /\
  Zempty (trimCpy (emailNotifyAddress c)) = false /\
  emailDue (emailNotifyCondition c) r = true.
Proof.
  unfold emailEffects.
  destruct (Zempty (trimCpy (emailNotifyAddress c))),
    (emailDue (emailNotifyCondition c) r); simpl; split;
    try contradiction; try (intros (_ & H1 & H2); discriminate).
  - intros [<-|[]]. auto.
  - intros (-> & _). now left.
Qed.

(** What [reportResults] runs at the end of
    a batch job.  The post-sync command runs exactly when the user has
    not cancelled, the trimmed command line is not empty, and the
    condition is "completion", or "errors" with a result of aborted or
    error, or "success" with a result of success or warning.  The
    email is sent exactly when the user has not cancelled, the trimmed
    address is not empty, and the condition is "always", or
    "errorWarning" with any result but success, or "errorOnly" with a
    result of aborted or error.  After a cancel by the user nothing is
    done but saving the log.  The log file is saved in every case, and
    if saving fails, saving to the default folder has been tried. *)
Theorem reportResults_what_runs (c : ReportResultsCall) :
  let out := reportResults c in
  let r := syncResult out in
  (forall cmdLine,
      In (RunCommand cmdLine) (effects out) <->
      isUserAbort c = false /\
      Zempty (trimCpy (postSyncCommand c)) = false /\
      cmdLine = expandMacros (trimCpy (postSyncCommand c)) /\
      (postSyncCondition c = PostSyncCondition_completion \/
       (postSyncCondition c = PostSyncCondition_errors /\
        (r = SyncResult_aborted \/ r = SyncResult_finishedError)) \/
       (postSyncCondition c = PostSyncCondition_success /\
        (r = SyncResult_finishedSuccess \/ r = SyncResult_finishedWarning)))) /\
  (forall notifyEmail,
      In (SendLogAsEmail notifyEmail) (effects out) <->
      isUserAbort c = false /\
      Zempty (trimCpy (emailNotifyAddress c)) = false /\
      notifyEmail = trimCpy (emailNotifyAddress c) /\
      (emailNotifyCondition c = ResultsNotification_always \/
       (emailNotifyCondition c = ResultsNotification_errorWarning /\
        r <> SyncResult_finishedSuccess) \/
       (emailNotifyCondition c = ResultsNotification_errorOnly /\
        (r = SyncResult_aborted \/ r = SyncResult_finishedError)))) /\
  (isUserAbort c = true ->
   forall e, In e (effects out) -> exists b, e = SaveLogFile b) /\
  (exists b, In (SaveLogFile b) (effects out)) /\
  (saveLogFileError c <> None -> In (SaveLogFile true) (effects out)).
Proof.
  cbv zeta. rewrite reportResults_syncResult, reportResults_effects.
  set (r := fst (determineSyncResult c)).
  assert (forall e, In e (if suspendDue c then [SuspendSystem] else []) -> e = SuspendSystem)
    as Hsusp.
  { intros e. destruct (suspendDue c); simpl; [intros [<-|[]]; reflexivity | contradiction]. }
  split; [|split; [|split; [|split]]].
  - intros cmdLine. rewrite <- commandDue_cases, !in_app_iff. split.
    + intros [H|[H|H]].
      * destruct (isUserAbort c); [contradiction|].
        rewrite !in_app_iff in H. destruct H as [H|[H|H]].
        -- apply In_commandEffects in H as (E & H1 & H2). injection E as ->. auto.
        -- apply In_emailEffects in H as (E & _). discriminate E.
        -- apply In_playSound in H as (_ & E). discriminate E.
      * apply In_saveEffects in H as (b & E). discriminate E.
      * apply Hsusp in H. discriminate H.
    + intros (Hu & H1 & -> & H2). rewrite Hu. left. rewrite in_app_iff. left.
      apply In_commandEffects. auto.
  - intros notifyEmail. rewrite <- emailDue_cases, !in_app_iff. split.
    + intros [H|[H|H]].
      * destruct (isUserAbort c); [contradiction|].
        rewrite !in_app_iff in H. destruct H as [H|[H|H]].
        -- apply In_commandEffects in H as (E & _). discriminate E.
        -- apply In_emailEffects in H as (E & H1 & H2). injection E as ->. auto.
        -- apply In_playSound in H as (_ & E). discriminate E.
      * apply In_saveEffects in H as (b & E). discriminate E.
      * apply Hsusp in H. discriminate H.
    + intros (Hu & H1 & -> & H2). rewrite Hu. left. rewrite !in_app_iff. right. left.
      apply In_emailEffects. auto.
  - intros Hu e. unfold suspendDue. rewrite Hu. cbn [negb andb app].
    rewrite app_nil_r. apply In_saveEffects.
  - exists (match saveLogFileError c with None => logFilePathIsDefault c | Some _ => true end).
    rewrite !in_app_iff. right. left. unfold saveEffects.
    destruct (saveLogFileError c), (logFilePathIsDefault c); simpl; auto.
  - intros Hf. rewrite !in_app_iff. right. left. unfold saveEffects.
    destruct (saveLogFileError c), (logFilePathIsDefault c); simpl; auto; contradiction.
Qed.
(** The result and the requests of
    [reportResults].  The result is fixed before anything is run: it
    is "aborted" whenever the run was aborted, else "error" if the log
    counts an error, else "warning" if it counts a warning, else
    "success"; failures of the command, the email or the log file do
    not change it.  A shutdown is requested only for the option
    "shutdown", when the user has neither cancelled the run nor the
    countdown; then the dialog closes, no sound is played and the
    system is not suspended.  The system is suspended exactly for the
    option "sleep" under the same conditions.  A sound is played only
    when the dialog stays open, unless a switch to the main window was
    requested, which always closes the dialog. *)
Theorem reportResults_result_and_requests (c : ReportResultsCall) :
  let out := reportResults c in
  let r := syncResult out in
  (abortStatus c <> None -> r = SyncResult_aborted) /\
  (abortStatus c = None ->
   (r = SyncResult_finishedError <-> 0 < error (getStats (errorLogAtCall c))) /\
   (r = SyncResult_finishedWarning <->
    error (getStats (errorLogAtCall c)) <= 0 /\
    0 < warning (getStats (errorLogAtCall c))) /\
   (r = SyncResult_finishedSuccess <->
    error (getStats (errorLogAtCall c)) <= 0 /\
    warning (getStats (errorLogAtCall c)) <= 0)) /\
  (finalRequest out = FinalRequest_shutdown ->
   autoClose out = true /\
   optionPostSyncAction c = PostSyncAction2_shutdown /\
   isUserAbort c = false /\
   (windowIfVisible c = true -> countDownCancelled c = false) /\
   ~ In SuspendSystem (effects out) /\
   forall soundFile, ~ In (PlaySound soundFile) (effects out)) /\
  (In SuspendSystem (effects out) <->
   isUserAbort c = false /\
   optionPostSyncAction c = PostSyncAction2_sleep /\
   (windowIfVisible c = true -> countDownCancelled c = false)) /\
  (forall soundFile,
      In (PlaySound soundFile) (effects out) ->
      isUserAbort c = false /\
      soundFile = soundFileSyncComplete_ c /\
      (switchToGuiRequested c = false -> autoClose out = false)) /\
  (switchToGuiRequested c = true ->
   finalRequest out = FinalRequest_switchGui /\ autoClose out = true).
Proof.
  cbv zeta. rewrite reportResults_syncResult.
  pose proof (reportResults_requests c) as Hreq.
  pose proof (reportResults_effects c) as Hfx.
  assert (forall e, In e (effects (reportResults c)) ->
            (isUserAbort c = false /\
             (In e (commandEffects c (fst (determineSyncResult c))) \/
              In e (emailEffects c (fst (determineSyncResult c))) \/
              In e (playSound c (fst (fst (postSyncActions c)))))) \/
            In e (saveEffects c) \/
            (suspendDue c = true /\ e = SuspendSystem)) as Hin.
  { intros e. rewrite Hfx, !in_app_iff. intros [H|[H|H]].
    - left. destruct (isUserAbort c); [contradiction|]. rewrite !in_app_iff in H. auto.
    - auto.
    - right. right. destruct (suspendDue c); [|contradiction].
      destruct H as [<-|[]]. auto. }
  assert (suspendDue c = true <->
          isUserAbort c = false /\ optionPostSyncAction c = PostSyncAction2_sleep /\
          (windowIfVisible c = true -> countDownCancelled c = false)) as Hsd.
  { unfold suspendDue, postSyncActions, proceedWithShutdown.
    destruct (isUserAbort c), (optionPostSyncAction c), (windowIfVisible c),
      (countDownCancelled c); cbn; intuition discriminate. }
  split; [|split; [|split; [|split; [|split]]]].
  - unfold determineSyncResult. destruct (abortStatus c); [reflexivity | congruence].
  - intros Ha. unfold determineSyncResult. rewrite Ha.
    destruct (Z.ltb_spec 0 (error (getStats (errorLogAtCall c))));
      destruct (Z.ltb_spec 0 (warning (getStats (errorLogAtCall c)))); cbn;
      repeat split; intros; try discriminate; try lia; try reflexivity;
      try (exfalso; lia); tauto.
  - intros Hs.
    assert (switchToGuiRequested c = false /\ isUserAbort c = false /\
            snd (fst (postSyncActions c)) = FinalRequest_shutdown) as (Hsw & Hu & Hp).
    { destruct (switchToGuiRequested c), (isUserAbort c); injection Hreq as E1 E2;
        rewrite Hs in E1; try discriminate E1. auto. }
    rewrite Hsw, Hu in Hreq. injection Hreq as _ Hac.
    assert (optionPostSyncAction c = PostSyncAction2_shutdown /\
            (windowIfVisible c = true -> countDownCancelled c = false) /\
            fst (fst (postSyncActions c)) = true /\ suspendDue c = false) as (Hopt & Hcd & Hcl & Hnos).
    { unfold suspendDue. rewrite Hu. revert Hp. unfold postSyncActions, proceedWithShutdown.
      destruct (optionPostSyncAction c), (windowIfVisible c), (countDownCancelled c); cbn;
        intros; try discriminate; auto. }
    rewrite Hac, Hcl. repeat split; auto.
    + intros H. apply Hin in H as [(_ & [H|[H|H]])|[H|(H & _)]].
      * apply In_commandEffects in H as (E & _). discriminate E.
      * apply In_emailEffects in H as (E & _). discriminate E.
      * apply In_playSound in H as (_ & E). discriminate E.
      * apply In_saveEffects in H as (b & E). discriminate E.
      * congruence.
    + intros soundFile H. apply Hin in H as [(_ & [H|[H|H]])|[H|(_ & H)]].
      * apply In_commandEffects in H as (E & _). discriminate E.
      * apply In_emailEffects in H as (E & _). discriminate E.
      * apply In_playSound in H as (E & _). congruence.
      * apply In_saveEffects in H as (b & E). discriminate E.
      * discriminate H.
  - rewrite <- Hsd. split.
    + intros H. apply Hin in H as [(_ & [H|[H|H]])|[H|(H & _)]]; [| | | |exact H].
      * apply In_commandEffects in H as (E & _). discriminate E.
      * apply In_emailEffects in H as (E & _). discriminate E.
      * apply In_playSound in H as (_ & E). discriminate E.
      * apply In_saveEffects in H as (b & E). discriminate E.
    + intros H. rewrite Hfx, H, !in_app_iff. right. right. now left.
  - intros soundFile H. apply Hin in H as [(Hu & [H|[H|H]])|[H|(_ & H)]].
    + apply In_commandEffects in H as (E & _). discriminate E.
    + apply In_emailEffects in H as (E & _). discriminate E.
    + apply In_playSound in H as (Hc & E). injection E as ->.
      repeat split; auto. intros Hsw. rewrite Hsw, Hu in Hreq. injection Hreq as _ Hac.
      congruence.
    + apply In_saveEffects in H as (b & E). discriminate E.
    + discriminate H.
  - intros Hsw. rewrite Hsw in Hreq. injection Hreq as -> ->. auto.
Qed.
End ReportResults.
